(** * SBI statement parser (src/utils/tsvParser.js): shallow embedding

    JavaScript strings are sequences of UTF-16 code units; every operation
    the parser uses ([trim], [includes], [split], indexing, the regular
    expressions without the [u] flag) works on code units, so a string is
    modelled as a list of code units [N].  Console logging is write-only
    and is left out. *)

From Stdlib Require Import NArith ZArith List Bool Ascii String Lia SpecFloat.
From Stdlib Require PrimFloat FloatOps.
From Stdlib Require DecimalN.
From stdpp Require Import gmap list.
Import ListNotations.
Local Open Scope N_scope.
Local Open Scope list_scope.

(** ** Strings *)

Abbreviation str := (list N).

(** Code units of an ASCII literal. *)
Definition u (s : string) : str := map N_of_ascii (list_ascii_of_string s).
Arguments u s%_string.

Definition TAB : N := 9.
Definition LF : N := 10.
Definition QUOTE : N := 34.
Definition APOS : N := 39.

(** WhiteSpace and LineTerminator code units: what [trim] strips and what
    the class [\s] matches. *)
Definition is_space (c : N) : bool :=
  (c =? 9) || (c =? 10) || (c =? 11) || (c =? 12) || (c =? 13) || (c =? 32)
  || (c =? 160) || (c =? 5760) || ((8192 <=? c) && (c <=? 8202))
  || (c =? 8232) || (c =? 8233) || (c =? 8239) || (c =? 8287)
  || (c =? 12288) || (c =? 65279).

Definition is_digit (c : N) : bool := (48 <=? c) && (c <=? 57).
Definition is_upper (c : N) : bool := (65 <=? c) && (c <=? 90).
Definition is_lower (c : N) : bool := (97 <=? c) && (c <=? 122).
Definition is_letter (c : N) : bool := is_upper c || is_lower c.
(** The class [\w]. *)
Definition is_word (c : N) : bool := is_letter c || is_digit c || (c =? 95).

Fixpoint dropWhile (p : N -> bool) (s : str) : str :=
  match s with
  | c :: r => if p c then dropWhile p r else s
  | [] => []
  end.

Definition trimStart (s : str) : str := dropWhile is_space s.
Definition trimEnd (s : str) : str := rev (dropWhile is_space (rev s)).
Definition trim (s : str) : str := trimEnd (trimStart s).

Definition str_eqb (a b : str) : bool := bool_decide (a = b).

Fixpoint startsWith (p s : str) : bool :=
  match p, s with
  | [], _ => true
  | a :: p', b :: s' => (a =? b) && startsWith p' s'
  | _ :: _, [] => false
  end.

(** [s.includes(p)] *)
Fixpoint includes (s p : str) : bool :=
  startsWith p s || match s with [] => false | _ :: r => includes r p end.

(** ** Row tokenizer: [parseTabSeparatedLine] *)

Fixpoint tsl_loop (line : str) (result : list str) (current : str)
    (inQuote : bool) : list str :=
  match line with
  | [] => result ++ [trim current]
  | char :: rest =>
      if char =? QUOTE then tsl_loop rest result current (negb inQuote)
      else if (char =? TAB) && negb inQuote
           then tsl_loop rest (result ++ [trim current]) [] inQuote
           else tsl_loop rest result (current ++ [char]) inQuote
  end.

Definition parseTabSeparatedLine (line : str) : list str :=
  tsl_loop line [] [] false.

(** Number of tabs met while the inside-quote flag is off. *)
Fixpoint field_breaks (inQuote : bool) (line : str) : nat :=
  match line with
  | [] => O
  | c :: r =>
      if c =? QUOTE then field_breaks (negb inQuote) r
      else if (c =? TAB) && negb inQuote then S (field_breaks inQuote r)
      else field_breaks inQuote r
  end.

(** ** Line normalizer: [normalizeMultiLineFields] *)

Fixpoint nmlf_loop (content : str) (inQuote : bool) : str :=
  match content with
  | [] => []
  | char :: rest =>
      if char =? QUOTE then char :: nmlf_loop rest (negb inQuote)
      else if (char =? LF) && inQuote then 32 :: nmlf_loop rest inQuote
      else char :: nmlf_loop rest inQuote
  end.

Definition normalizeMultiLineFields (content : str) : str :=
  nmlf_loop content false.

(** [s.split(sep)] for a one-unit separator: never an empty array. *)
Fixpoint split (sep : N) (s : str) : list str :=
  match s with
  | [] => [[]]
  | c :: r =>
      if c =? sep then [] :: split sep r
      else match split sep r with
           | f :: fs => (c :: f) :: fs
           | [] => [[c]]
           end
  end.

(** ** Regular expressions

    The patterns of the parser are sequences of literals and of greedy
    repetitions of a character class.  A repetition first takes the longest
    run it may and gives code units back one at a time until the rest of
    the pattern matches (backtracking), as the JavaScript matcher does. *)

Inductive atom :=
  | Lit (cs : str)
  | Rep (capture : bool) (cls : N → bool) (min : nat) (max : option nat)
  | Eos.

(** Canonicalization of a code unit under the [i] flag (no [u] flag): a
    unit outside Basic Latin never canonicalizes to a Basic Latin one, so
    for the ASCII patterns used here only [a-z] are folded. *)
Definition canon (c : N) : N := if is_lower c then c - 32 else c.

Definition unit_eqb (ci : bool) (a b : N) : bool :=
  if ci then canon a =? canon b else a =? b.

Fixpoint lit_at (ci : bool) (cs s : str) : option str :=
  match cs, s with
  | [], _ => Some s
  | a :: cs', b :: s' => if unit_eqb ci a b then lit_at ci cs' s' else None
  | _ :: _, [] => None
  end.

(** Length of the longest prefix of [s] in the class, at most [max]. *)
Fixpoint run (cls : N → bool) (max : nat) (s : str) : nat :=
  match max, s with
  | S m, c :: r => if cls c then S (run cls m r) else O
  | _, _ => O
  end.

Fixpoint backtrack {A} (min : nat) (s : str) (k : str → str → option A)
    (n : nat) : option A :=
  if (n <? min)%nat then None
  else match k (take n s) (drop n s) with
       | Some a => Some a
       | None => match n with
                 | O => None
                 | S n' => backtrack min s k n'
                 end
       end.

(** A capturing repetition adds what it matched to the captures. *)
Definition with_capture (capture : bool) (m : str)
    (res : option (list str * str)) : option (list str * str) :=
  match res with
  | Some (caps, r') => Some (if capture then m :: caps else caps, r')
  | None => None
  end.

(** Match [atoms] at the start of [s]: the captures and what is left. *)
Fixpoint match_atoms (ci : bool) (atoms : list atom) (s : str)
    : option (list str * str) :=
  match atoms with
  | [] => Some ([], s)
  | Lit cs :: atoms' =>
      match lit_at ci cs s with
      | Some r => match_atoms ci atoms' r
      | None => None
      end
  | Rep capture cls min max :: atoms' =>
      backtrack min s
        (λ m r, with_capture capture m (match_atoms ci atoms' r))
        (run cls (default (length s) max) s)
  | Eos :: atoms' =>
      match s with
      | [] => match_atoms ci atoms' s
      | _ :: _ => None
      end
  end.

(** [s.match(/^...$/)]: the captures of a pattern anchored at the start. *)
Definition match_anchored (atoms : list atom) (s : str) : option (list str) :=
  fst <$> match_atoms false atoms s.

(** Length of the match of [atoms] that starts at the head of [s]. *)
Definition match_length (ci : bool) (atoms : list atom) (s : str)
    : option nat :=
  (λ cr, (length s - length (snd cr))%nat) <$> match_atoms ci atoms s.

(** [s.replace(/.../g, repl)] for a pattern that matches no empty string:
    [skip] counts the code units of the current match still to drop. *)
Fixpoint replace_go (m : str → option nat) (repl : str) (skip : nat)
    (s : str) : str :=
  match s with
  | [] => []
  | c :: r =>
      match skip with
      | S k => replace_go m repl k r
      | O => match m s with
             | Some (S n) => repl ++ replace_go m repl n r
             | _ => c :: replace_go m repl O r
             end
      end
  end.

Definition replaceAll (ci : bool) (atoms : list atom) (repl s : str) : str :=
  replace_go (match_length ci atoms) repl O s.

Definition is_quote (c : N) : bool := (c =? QUOTE) || (c =? APOS).

(** [s.replace(/^["']|["']$/g, '')]: a quote at index 0 is removed; then,
    scanning on from there, a quote that is the last code unit is removed. *)
Definition removeLast (s : str) : str :=
  match rev s with
  | c :: r => if is_quote c then rev r else s
  | [] => []
  end.

Definition stripQuotes (s : str) : str :=
  match s with
  | c :: r => if is_quote c then removeLast r else removeLast s
  | [] => []
  end.

(** ** Numbers

    A Number is an IEEE 754 binary64 value. *)

Abbreviation number := spec_float.

Definition prec : Z := 53.
Definition emax : Z := 1024.

Definition zero : number := S754_zero false.

(** The Number nearest to [(-1)^neg * m * 10^e] (ties to even). *)
Definition number_of_decimal (neg : bool) (m : N) (e : Z) : number :=
  match m with
  | N0 => S754_zero neg
  | Npos p =>
      if (0 <=? e)%Z
      then binary_round prec emax neg (p * Z.to_pos (10 ^ e)) 0
      else let '(q, e', l) :=
             SFdiv_core_binary prec emax (Zpos p) 0 (10 ^ (- e))%Z 0 in
           binary_round_aux prec emax neg q e' l
  end.

Definition isNaN (x : number) : bool :=
  match x with S754_nan => true | _ => false end.

(** The sign bit of a number that is not NaN. *)
Definition signed (sx : bool) (x : number) : Prop :=
  match x with
  | S754_nan => False
  | S754_zero s | S754_infinity s | S754_finite s _ _ => s = sx
  end.

(** [x > 0] *)
Definition positive_number (x : number) : bool := SFltb zero x.
(** [x >= 0] *)
Definition nonnegative (x : number) : bool := SFleb zero x.

(** Value of a run of decimal digits. *)
Definition digits_value (ds : str) : N :=
  fold_left (λ acc d, 10 * acc + (d - 48)) ds 0.

Definition span (cls : N → bool) (s : str) : str * str :=
  let n := run cls (length s) s in (take n s, drop n s).

(** An optional sign: whether it is [-], and what follows. *)
Definition read_sign (t : str) : bool * str :=
  match t with
  | c :: r => if c =? 45 then (true, r)
              else if c =? 43 then (false, r) else (false, t)
  | [] => (false, t)
  end.

(** Exponent part [e|E] [+|-]? digits+, when present and well formed. *)
Definition exponent_part (s : str) : Z :=
  match s with
  | c :: r =>
      if (c =? 101) || (c =? 69) then
        let '(neg, r') := read_sign r in
        match fst (span is_digit r') with
        | [] => 0%Z
        | ds => if neg then (- Z.of_N (digits_value ds))%Z
                else Z.of_N (digits_value ds)
        end
      else 0%Z
  | [] => 0%Z
  end.

(** The fraction digits after a decimal point, and what follows; a lone
    point with no digit on either side is no part of a literal. *)
Definition read_fraction (int t2 : str) : str * str :=
  match t2 with
  | c :: r =>
      if c =? 46 then
        let '(frac, t3) := span is_digit r in
        match int, frac with
        | [], [] => ([], t2)
        | _, _ => (frac, t3)
        end
      else ([], t2)
  | [] => ([], t2)
  end.

(** [parseFloat]: leading white space is skipped and the longest prefix
    that is a decimal literal is converted; no such prefix gives NaN. *)
Definition parseFloat (s : str) : number :=
  let '(neg, t1) := read_sign (trimStart s) in
  if startsWith (u "Infinity") t1 then S754_infinity neg
  else
    let '(int, t2) := span is_digit t1 in
    let '(frac, t3) := read_fraction int t2 in
    match int, frac with
    | [], [] => S754_nan
    | _, _ =>
        number_of_decimal neg (digits_value (int ++ frac))
          (exponent_part t3 - Z.of_nat (length frac))
    end.

(** [parseInt] of a non-empty run of decimal digits. *)
Definition parseInt (ds : str) : N := digits_value ds.

Definition is_comma (c : N) : bool := c =? 44.
(** The class [[₹$]]: U+20B9 and U+0024. *)
Definition is_currency (c : N) : bool := (c =? 8377) || (c =? 36).

(** [s.replace(/[...]/g, '')] for a class of single code units. *)
Definition remove (cls : N → bool) (s : str) : str :=
  replaceAll false [Rep false cls 1 (Some 1%nat)] [] s.

(** The text [parseAmount] hands to [parseFloat], as the specification
    words it: trimmed, one layer of surrounding quotes off, commas and
    currency symbols out. *)
Definition amount_text (value : str) : str :=
  trim (remove is_currency (remove is_comma (stripQuotes (trim value)))).

(** [parseAmount] as the specification words it. *)
Definition spec_parseAmount (value : str) : number :=
  let num := parseFloat (amount_text value) in
  if isNaN num then zero else num.

(** ** [parseAmount]; [None] stands for [undefined]. *)
Definition parseAmount (value : option str) : number :=
  match value with
  | None | Some [] => zero
  | Some value =>
      let cleaned := trim value in
      if bool_decide (cleaned = []) then zero
      else
        let cleaned := stripQuotes cleaned in
        if bool_decide (cleaned = []) then zero
        else
          let cleaned := remove is_comma cleaned in
          let cleaned := trim (remove is_currency cleaned) in
          let num := parseFloat cleaned in
          if isNaN num then zero else num
  end.

(** ** [parseDate]; [None] stands for [null]. *)

Definition padStart2 (s : str) : str :=
  replicate (2 - length s)%nat 48 ++ s.

(** [toLowerCase] on a string of [\w] code units. *)
Definition lower_unit (c : N) : N := if is_upper c then c + 32 else c.

Definition months : list (str * str) :=
  [ (u "jan", u "01"); (u "feb", u "02"); (u "mar", u "03");
    (u "apr", u "04"); (u "may", u "05"); (u "jun", u "06");
    (u "jul", u "07"); (u "aug", u "08"); (u "sep", u "09");
    (u "oct", u "10"); (u "nov", u "11"); (u "dec", u "12") ].

Fixpoint assoc (key : str) (table : list (str * str)) : option str :=
  match table with
  | [] => None
  | (k, v) :: rest => if str_eqb k key then Some v else assoc key rest
  end.

(** The classes [[\/\-\.]] and [[\/\-]]. *)
Definition is_sep3 (c : N) : bool := (c =? 47) || (c =? 45) || (c =? 46).
Definition is_sep2 (c : N) : bool := (c =? 47) || (c =? 45).
Definition is_dash (c : N) : bool := c =? 45.

Definition some (n : nat) : option nat := Some n.

(** [/^(\d{1,2})[\/\-\.](\d{1,2})[\/\-\.](\d{4})$/] *)
Definition re_dmy4 : list atom :=
  [ Rep true is_digit 1 (some 2); Rep false is_sep3 1 (some 1);
    Rep true is_digit 1 (some 2); Rep false is_sep3 1 (some 1);
    Rep true is_digit 4 (some 4); Eos ].

(** [/^(\d{1,2})[\/\-\.](\d{1,2})[\/\-\.](\d{2})$/] *)
Definition re_dmy2 : list atom :=
  [ Rep true is_digit 1 (some 2); Rep false is_sep3 1 (some 1);
    Rep true is_digit 1 (some 2); Rep false is_sep3 1 (some 1);
    Rep true is_digit 2 (some 2); Eos ].

(** [/^(\d{1,2})\s+(\w{3})\s+(\d{4})$/] *)
Definition re_d_mon_y4 : list atom :=
  [ Rep true is_digit 1 (some 2); Rep false is_space 1 None;
    Rep true is_word 3 (some 3); Rep false is_space 1 None;
    Rep true is_digit 4 (some 4); Eos ].

(** [/^(\d{1,2})[\/\-](\w{3})[\/\-](\d{4})$/] *)
Definition re_dmony4 : list atom :=
  [ Rep true is_digit 1 (some 2); Rep false is_sep2 1 (some 1);
    Rep true is_word 3 (some 3); Rep false is_sep2 1 (some 1);
    Rep true is_digit 4 (some 4); Eos ].

(** [/^(\d{1,2})[\/\-](\w{3})[\/\-](\d{2})$/] *)
Definition re_dmony2 : list atom :=
  [ Rep true is_digit 1 (some 2); Rep false is_sep2 1 (some 1);
    Rep true is_word 3 (some 3); Rep false is_sep2 1 (some 1);
    Rep true is_digit 2 (some 2); Eos ].

(** [/^(\d{4})-(\d{2})-(\d{2})$/] *)
Definition re_iso : list atom :=
  [ Rep true is_digit 4 (some 4); Rep false is_dash 1 (some 1);
    Rep true is_digit 2 (some 2); Rep false is_dash 1 (some 1);
    Rep true is_digit 2 (some 2); Eos ].

(** [parseInt(year) > 50 ? `19${year}` : `20${year}`] *)
Definition fullYear (year : str) : str :=
  if 50 <? parseInt year then u "19" ++ year else u "20" ++ year.

Definition iso (year month day : str) : str :=
  year ++ u "-" ++ month ++ u "-" ++ day.

(** One attempt per format, in the order of the source. *)
Definition date_dmy4 (cleaned : str) : option str :=
  match match_anchored re_dmy4 cleaned with
  | Some [day; month; year] => Some (iso year (padStart2 month) (padStart2 day))
  | _ => None
  end.

Definition date_dmy2 (cleaned : str) : option str :=
  match match_anchored re_dmy2 cleaned with
  | Some [day; month; year] =>
      Some (iso (fullYear year) (padStart2 month) (padStart2 day))
  | _ => None
  end.

Definition date_mon (re : list atom) (full : bool) (cleaned : str)
    : option str :=
  match match_anchored re cleaned with
  | Some [day; monthStr; year] =>
      match assoc (map lower_unit monthStr) months with
      | Some month =>
          Some (iso (if full then year else fullYear year) month (padStart2 day))
      | None => None
      end
  | _ => None
  end.

Definition date_iso (cleaned : str) : option str :=
  match match_anchored re_iso cleaned with
  | Some _ => Some cleaned
  | None => None
  end.

Definition date_formats : list (str → option str) :=
  [ date_dmy4; date_dmy2; date_mon re_d_mon_y4 true;
    date_mon re_dmony4 true; date_mon re_dmony2 false; date_iso ].

Fixpoint first_match (formats : list (str → option str)) (cleaned : str)
    : option str :=
  match formats with
  | [] => None
  | f :: rest =>
      match f cleaned with
      | Some r => Some r
      | None => first_match rest cleaned
      end
  end.

(** [dateStr.trim().replace(/^["']|["']$/g, '').trim()] *)
Definition date_text (dateStr : str) : str := trim (stripQuotes (trim dateStr)).

Definition parseDate (dateStr : str) : option str :=
  match dateStr with
  | [] => None
  | _ :: _ =>
      let cleaned := date_text dateStr in
      match cleaned with
      | [] => None
      | _ :: _ => first_match date_formats cleaned
      end
  end.

(** ** The date forms as the specification lists them *)

(** The English month abbreviations, January first. *)
Definition english_months : list str :=
  [ u "jan"; u "feb"; u "mar"; u "apr"; u "may"; u "jun";
    u "jul"; u "aug"; u "sep"; u "oct"; u "nov"; u "dec" ].

(** A number below 100 in two decimal digits. *)
Definition two_digits (n : N) : str := [48 + n / 10; 48 + n mod 10].

(** The number of the month of a lower-case abbreviation, January being
    [first]. *)
Fixpoint month_from (first : N) (names : list str) (name : str)
    : option str :=
  match names with
  | [] => None
  | k :: rest =>
      if str_eqb k name then Some (two_digits first)
      else month_from (first + 1) rest name
  end.

Definition month_number (name : str) : option str :=
  month_from 1 english_months name.

(** [date_form cleaned r]: the trimmed and unquoted text [cleaned] has one
    of the six forms, and [r] is the date YYYY-MM-DD it stands for: a
    four-digit year is kept, a two-digit year YY is 19YY when YY > 50 and
    20YY otherwise, a month abbreviation is read without regard to case,
    day and month are padded to two digits. *)
Inductive date_form : str → str → Prop :=
  | form_dmy4 (d m y : str) (s1 s2 : N) :
      forallb is_digit d = true → (1 ≤ length d ≤ 2)%nat →
      forallb is_digit m = true → (1 ≤ length m ≤ 2)%nat →
      forallb is_digit y = true → length y = 4%nat →
      is_sep3 s1 = true → is_sep3 s2 = true →
      date_form (d ++ s1 :: m ++ s2 :: y)
        (y ++ u "-" ++ padStart2 m ++ u "-" ++ padStart2 d)
  | form_dmy2 (d m y : str) (s1 s2 : N) :
      forallb is_digit d = true → (1 ≤ length d ≤ 2)%nat →
      forallb is_digit m = true → (1 ≤ length m ≤ 2)%nat →
      forallb is_digit y = true → length y = 2%nat →
      is_sep3 s1 = true → is_sep3 s2 = true →
      date_form (d ++ s1 :: m ++ s2 :: y)
        ((if 50 <? parseInt y then u "19" ++ y else u "20" ++ y)
           ++ u "-" ++ padStart2 m ++ u "-" ++ padStart2 d)
  | form_d_mon_y4 (d sp1 mon sp2 y month : str) :
      forallb is_digit d = true → (1 ≤ length d ≤ 2)%nat →
      forallb is_space sp1 = true → sp1 ≠ [] →
      month_number (map lower_unit mon) = Some month →
      forallb is_space sp2 = true → sp2 ≠ [] →
      forallb is_digit y = true → length y = 4%nat →
      date_form (d ++ sp1 ++ mon ++ sp2 ++ y)
        (y ++ u "-" ++ month ++ u "-" ++ padStart2 d)
  | form_dmony4 (d mon y month : str) (s1 s2 : N) :
      forallb is_digit d = true → (1 ≤ length d ≤ 2)%nat →
      month_number (map lower_unit mon) = Some month →
      forallb is_digit y = true → length y = 4%nat →
      is_sep2 s1 = true → is_sep2 s2 = true →
      date_form (d ++ s1 :: mon ++ s2 :: y)
        (y ++ u "-" ++ month ++ u "-" ++ padStart2 d)
  | form_dmony2 (d mon y month : str) (s1 s2 : N) :
      forallb is_digit d = true → (1 ≤ length d ≤ 2)%nat →
      month_number (map lower_unit mon) = Some month →
      forallb is_digit y = true → length y = 2%nat →
      is_sep2 s1 = true → is_sep2 s2 = true →
      date_form (d ++ s1 :: mon ++ s2 :: y)
        ((if 50 <? parseInt y then u "19" ++ y else u "20" ++ y)
           ++ u "-" ++ month ++ u "-" ++ padStart2 d)
  | form_iso (y m d : str) :
      forallb is_digit y = true → length y = 4%nat →
      forallb is_digit m = true → length m = 2%nat →
      forallb is_digit d = true → length d = 2%nat →
      date_form (y ++ u "-" ++ m ++ u "-" ++ d) (y ++ u "-" ++ m ++ u "-" ++ d).

(** ** [cleanDescription] *)

(** The six noise patterns, all with the flags [gi]; under [i] the class
    [[A-Z]] is [is_letter]. *)
Definition noise_patterns : list (list atom) :=
  [ [ Lit (u "TO TRANSFER-UPI/"); Rep false is_letter 1 None; Lit (u "/");
      Rep false is_digit 1 None; Lit (u "/") ];
    [ Lit (u "BY TRANSFER-UPI/"); Rep false is_letter 1 None; Lit (u "/");
      Rep false is_digit 1 None; Lit (u "/") ];
    [ Lit (u "UPI/DR/"); Rep false is_digit 1 None; Lit (u "/") ];
    [ Lit (u "UPI/CR/"); Rep false is_digit 1 None; Lit (u "/") ];
    [ Lit (u "/DR/"); Rep false is_digit 1 None; Lit (u "/") ];
    [ Lit (u "/CR/"); Rep false is_digit 1 None; Lit (u "/") ] ].

Definition remove_noise (cleaned : str) : str :=
  fold_left (λ cleaned re, replaceAll true re [] cleaned) noise_patterns cleaned.

(** Whether [atoms] matches somewhere in [s]. *)
Fixpoint occurs (ci : bool) (atoms : list atom) (s : str) : bool :=
  match match_atoms ci atoms s with
  | Some _ => true
  | None => match s with
            | [] => false
            | _ :: r => occurs ci atoms r
            end
  end.

(** No noise pattern matches anywhere in [s]. *)
Definition noise_free (s : str) : bool :=
  forallb (λ re, negb (occurs true re s)) noise_patterns.

(** [cleaned.replace(/\s+/g, ' ')] *)
Definition collapse (cleaned : str) : str :=
  replaceAll false [Rep false is_space 1 None] (u " ") cleaned.

Definition starts_space (s : str) : bool :=
  match s with
  | c :: _ => is_space c
  | [] => false
  end.

(** Every run of white space is one U+0020. *)
Fixpoint collapsed (s : str) : bool :=
  match s with
  | [] => true
  | c :: r =>
      (if is_space c then (c =? 32) && negb (starts_space r) else true)
      && collapsed r
  end.

(** [cleaned.replace(/\s+/g, ' ').trim()] *)
Definition squeeze (cleaned : str) : str := trim (collapse cleaned).

Definition cleanDescription (description : str) : str :=
  match description with
  | [] => []
  | _ :: _ => squeeze (remove_noise description)
  end.

(** ** Notions of the properties *)

(** The inside-quote flag after scanning [s], starting from [inQuote]. *)
Fixpoint quote_state (inQuote : bool) (s : str) : bool :=
  match s with
  | [] => inQuote
  | c :: r => quote_state (if c =? QUOTE then negb inQuote else inQuote) r
  end.

(** A cell as a line holds it: as it is, or between quotes. *)
Definition written (cell : bool * str) : str :=
  if fst cell then QUOTE :: snd cell ++ [QUOTE] else snd cell.

(** A date string of the form YYYY-MM-DD. *)
Definition iso_shaped (r : str) : Prop :=
  ∃ y m d, r = y ++ 45 :: m ++ 45 :: d
           ∧ forallb is_digit y = true ∧ length y = 4%nat
           ∧ forallb is_digit m = true ∧ length m = 2%nat
           ∧ forallb is_digit d = true ∧ length d = 2%nat.

(** The three month-abbreviation patterns. *)
Definition month_pattern (re : list atom) (ylen : nat) : Prop :=
  ∃ S k K, (∀ c, is_digit c = true → S c = false)
           ∧ (∀ c, S c = true → is_word c = false)
           ∧ (∀ c, is_word c = true → S c = false)
           ∧ (∀ c, S c = true → is_digit c = false)
           ∧ (1 ≤ k)%nat
           ∧ re = [ Rep true is_digit 1 (some 2); Rep false S k K;
                    Rep true is_word 3 (some 3); Rep false S k K;
                    Rep true is_digit ylen (some ylen); Eos ].

(** The units of an amount as a bank prints it: digits, grouping commas
    and currency symbols. *)
Definition is_grouped (c : N) : bool :=
  is_digit c || is_comma c || is_currency c.

(** The text after the integer part: nothing, or a point and digits. *)
Definition fraction_text (frac : option str) : str :=
  match frac with Some f => 46 :: f | None => [] end.

(** The two header rows the parser is written for. *)
Definition standard_headers : list str :=
  [u "Txn Date"; u "Value Date"; u "Description"; u "Ref No./Cheque No.";
   u "Debit"; u "Credit"; u "Balance"].
Definition extended_headers : list str :=
  [u "Date"; u "Details"; u "Ref No/Cheque No"; u "Debit"; u "Credit";
   u "Balance"].

(** Code units of Basic Latin only. *)
Definition is_ascii (s : str) : bool := forallb (λ c, c <? 128) s.

(** ** [escapeRegex] *)

(** The class [[.*+?^${}()|[\]\\]] of the replaced characters. *)
Definition is_special (c : N) : bool :=
  existsb (N.eqb c) (u ".*+?^${}()|[]" ++ [92]).

(** [string.replace(/[.*+?^${}()|[\]\\]/g, '\\$&')]: a backslash goes
    before every character of the class. *)
Definition escapeRegex (s : str) : str :=
  flat_map (λ c, if is_special c then [92; c] else [c]) s.

(** SyntaxCharacter of the pattern grammar. *)
Definition is_syntax (c : N) : bool :=
  existsb (N.eqb c) (u "^$\.*+?()[]{}|").

(** The string that a pattern source matches when it is made of pattern
    characters and of identity escapes of syntax characters only; [None]
    for any other source. *)
Fixpoint literal_source (p : str) : option str :=
  match p with
  | [] => Some []
  | c :: r =>
      if c =? 92 then
        match r with
        | e :: r' => if is_syntax e then cons e <$> literal_source r' else None
        | [] => None
        end
      else if is_syntax c then None else cons c <$> literal_source r
  end.

(** ** The host

    [String.prototype.toLowerCase] is the host's Unicode case conversion;
    [Date.now()] and [Math.random().toString(36)] are read from the host
    at every call of [generateId], the [k]-th call reading [Date_now k]
    and [Math_random36 k]. *)

Section Host.

Variable toLowerCase : str → str.
Variable Date_now : nat → N.
Variable Math_random36 : nat → str.

(** ** Header locator: [findHeaderRow] *)

Definition requiredColumns : list str :=
  [u "date"; u "debit"; u "credit"; u "balance"].
Definition descriptionColumns : list str :=
  [u "description"; u "details"; u "particulars"; u "narration"].

Definition hasDate (columns : list str) : bool :=
  existsb (λ c, includes c (u "date") && negb (includes c (u "statement"))
                && negb (includes c (u "open"))) columns.
Definition hasDebit (columns : list str) : bool :=
  existsb (λ c, existsb (λ req, includes c req) (drop 1 requiredColumns)) columns.
Definition hasDescription (columns : list str) : bool :=
  existsb (λ c, existsb (λ desc, includes c desc) descriptionColumns) columns.

Definition lowered_columns (line : str) : list str :=
  map (λ h, toLowerCase (trim h)) (parseTabSeparatedLine line).

Definition is_header (line : str) : bool :=
  let columns := lowered_columns line in
  hasDate columns && hasDebit columns && hasDescription columns.

Definition headers_of (line : str) : list str :=
  map trim (parseTabSeparatedLine line).

(** The loop [for (i = 0; i < Math.min(lines.length, 50); i++)]: [todo]
    is what is left of the bound, [rest] the lines from index [i] on. *)
Fixpoint fhr_loop (rest : list str) (i : Z) (todo : nat)
    : option (Z * list str) :=
  match todo, rest with
  | S todo', line :: rest' =>
      if is_header line then Some (i, headers_of line)
      else fhr_loop rest' (i + 1)%Z todo'
  | _, _ => None
  end.

(** [None] stands for the TypeError of reading [lines[0].length] on an
    empty array. *)
Definition findHeaderRow (lines : list str) : option (Z * list str) :=
  match fhr_loop lines 0%Z 50 with
  | Some found => Some found
  | None =>
      match lines with
      | line0 :: _ => Some (0%Z, headers_of line0)
      | [] => None
      end
  end.

(** The qualification as the specification words it, with five amount
    substrings. *)
Definition spec_amount_columns : list str :=
  [u "debit"; u "credit"; u "balance"; u "withdrawal"; u "deposit"].
Definition spec_is_header (line : str) : bool :=
  let columns := lowered_columns line in
  hasDate columns
  && existsb (λ c, existsb (λ a, includes c a) spec_amount_columns) columns
  && hasDescription columns.

(** ** Column resolution: [findKey] *)

(** [name] followed by the end of the string or by a unit outside [a-z]. *)
Definition word_at (name s : str) : bool :=
  match lit_at false name s with
  | Some [] => true
  | Some (c :: _) => negb (is_lower c)
  | None => false
  end.

(** [new RegExp(`(^|[^a-z])${escapeRegex(name)}([^a-z]|$)`).test(s)]: the
    escaped name matches itself literally; [boundary] holds at index 0 and
    after a unit outside [a-z]. *)
Fixpoint word_test (name : str) (boundary : bool) (s : str) : bool :=
  (boundary && word_at name s)
  || match s with
     | [] => false
     | c :: r => word_test name (negb (is_lower c)) r
     end.

Definition findKey (headers possibleNames : list str) : option str :=
  match find (λ header,
                existsb (λ name, str_eqb (trim (toLowerCase header))
                                         (toLowerCase name)) possibleNames)
             headers with
  | Some header => Some header
  | None =>
      find (λ header,
              existsb (λ name, word_test (toLowerCase name) true
                                         (trim (toLowerCase header)))
                      possibleNames)
           headers
  end.

(** ** Field normalizer: [normalizeTransaction] *)

Record Transaction := {
  id : str;
  date : option str;
  valueDate : option str;
  description : str;
  reference : str;
  debit : number;
  credit : number;
  balance : number;
  amount : number;
  type : str;
  category : option str;
  subcategory : option str;
  notes : str
}.

(** Decimal digits of a non-negative integer. *)
Fixpoint digits_of_uint (d : Decimal.uint) : str :=
  match d with
  | Decimal.Nil => []
  | Decimal.D0 d => 48 :: digits_of_uint d
  | Decimal.D1 d => 49 :: digits_of_uint d
  | Decimal.D2 d => 50 :: digits_of_uint d
  | Decimal.D3 d => 51 :: digits_of_uint d
  | Decimal.D4 d => 52 :: digits_of_uint d
  | Decimal.D5 d => 53 :: digits_of_uint d
  | Decimal.D6 d => 54 :: digits_of_uint d
  | Decimal.D7 d => 55 :: digits_of_uint d
  | Decimal.D8 d => 56 :: digits_of_uint d
  | Decimal.D9 d => 57 :: digits_of_uint d
  end.

Definition decimal (n : N) : str := digits_of_uint (N.to_uint n).

(** [s.substr(start, len)] *)
Definition substr (start len : nat) (s : str) : str := take len (drop start s).

(** The [k]-th call of [generateId]. *)
Definition generateId (k : nat) : str :=
  u "txn_" ++ decimal (Date_now k) ++ u "_" ++ substr 2 9 (Math_random36 k).

(** [raw[key]]: a [null] key reads the property named "null".  The keys
    read are "null", which [Object.prototype] does not have, and headers
    that [findKey] returned; those were assigned to the row object and are
    its own properties (the one name an assignment does not store,
    "__proto__", holds no word of the name lists). *)
Definition prop (raw : gmap str str) (key : option str) : option str :=
  raw !! default (u "null") key.

Definition dateKey (headers : list str) : option str :=
  findKey headers [u "txn date"; u "transaction date"; u "date"; u "txn_date"].
Definition valueDateKey (headers : list str) : option str :=
  findKey headers [u "value date"; u "value_date"; u "valdate"].
Definition descKey (headers : list str) : option str :=
  findKey headers
    [u "description"; u "particulars"; u "narration"; u "desc"; u "details"].
Definition refKey (headers : list str) : option str :=
  findKey headers
    [u "ref no"; u "ref no."; u "cheque no"; u "cheque no.";
     u "ref no./cheque no."; u "ref no/cheque no"; u "reference"].
Definition debitKey (headers : list str) : option str :=
  findKey headers [u "debit"; u "withdrawal"; u "dr"; u "debit amount"].
Definition creditKey (headers : list str) : option str :=
  findKey headers [u "credit"; u "deposit"; u "cr"; u "credit amount"].
Definition balanceKey (headers : list str) : option str :=
  findKey headers [u "balance"; u "closing balance"; u "available balance"].

(** [calls] is the number of [generateId] calls made so far; [None] is the
    [null] returned for a skipped row. *)
Definition normalizeTransaction (raw : gmap str str) (headers : list str)
    (calls : nat) : option Transaction :=
  let date := default [] (prop raw (dateKey headers)) in
  let description := default [] (prop raw (descKey headers)) in
  match date, description with
  | [], _ | _, [] => None
  | _ :: _, _ :: _ =>
      let debit := parseAmount (prop raw (debitKey headers)) in
      let credit := parseAmount (prop raw (creditKey headers)) in
      let balance := parseAmount (prop raw (balanceKey headers)) in
      Some {| id := generateId calls;
              date := parseDate date;
              valueDate :=
                match prop raw (valueDateKey headers) with
                | Some (c :: r) => parseDate (c :: r)
                | _ => None
                end;
              description := cleanDescription description;
              reference := default [] (prop raw (refKey headers));
              debit := debit;
              credit := credit;
              balance := balance;
              amount := if positive_number credit then credit else SFopp debit;
              type := if positive_number credit then u "credit" else u "debit";
              category := None;
              subcategory := None;
              notes := [] |}
  end.

(** ** [parseTSV] *)

Inductive error :=
  | Error (message : str)
  | TypeError.

Inductive outcome :=
  | Throw (e : error)
  | Return (transactions : list Transaction).

(** [headers.forEach((header, index) => transaction[header] = values[index] || '')] *)
Fixpoint fill (headers : list str) (index : nat) (values : list str)
    (transaction : gmap str str) : gmap str str :=
  match headers with
  | [] => transaction
  | header :: rest =>
      fill rest (S index) values
        (<[header := default [] (values !! index)]> transaction)
  end.

(** [while (values.length < headers.length) values.push('')] *)
Definition pad (headers values : list str) : list str :=
  values ++ replicate (length headers - length values)%nat [].

Definition is_empty (v : str) : bool :=
  match v with [] => true | _ :: _ => false end.

(** The loop over the lines after the header; [calls] counts the ids
    generated so far. *)
Fixpoint rows (headers : list str) (lines : list str)
    (transactions : list Transaction) (calls : nat) : list Transaction :=
  match lines with
  | [] => transactions
  | line :: rest =>
      let values := map trim (parseTabSeparatedLine line) in
      if forallb is_empty values then rows headers rest transactions calls
      else
        let transaction := fill headers 0 (pad headers values) ∅ in
        match normalizeTransaction transaction headers calls with
        | Some normalizedTransaction =>
            rows headers rest (transactions ++ [normalizedTransaction]) (S calls)
        | None => rows headers rest transactions calls
        end
  end.

Definition lines_of (content : str) : list str :=
  split LF (trim (normalizeMultiLineFields content)).

Definition parseTSV (content : str) : outcome :=
  let lines := lines_of content in
  if (length lines <? 2)%nat
  then Throw (Error (u "Invalid TSV file: No data rows found"))
  else
    match findHeaderRow lines with
    | None => Throw TypeError
    | Some (headerIndex, headers) =>
        if (headerIndex =? -1)%Z
        then Throw (Error (u "Could not find header row with transaction columns (Date, Description/Details, Debit, Credit, Balance)"))
        else Return (rows headers (drop (Z.to_nat (headerIndex + 1)) lines) [] 0)
    end.

(** A transaction without its generated id. *)
Definition anonymous (t : Transaction) : Transaction :=
  {| id := []; date := date t; valueDate := valueDate t;
     description := description t; reference := reference t;
     debit := debit t; credit := credit t; balance := balance t;
     amount := amount t; type := type t; category := category t;
     subcategory := subcategory t; notes := notes t |}.

(** Two outcomes that differ at most in the generated ids. *)
Definition same_but_ids (a b : outcome) : Prop :=
  match a, b with
  | Throw e, Throw e' => e = e'
  | Return ts, Return ts' => map anonymous ts = map anonymous ts'
  | _, _ => False
  end.

(** Text of a table: cells joined by tabs, lines by line feeds. *)
Fixpoint join (sep : N) (parts : list str) : str :=
  match parts with
  | [] => []
  | [p] => p
  | p :: rest => p ++ sep :: join sep rest
  end.

Definition tsv (table : list (list str)) : str := join LF (map (join TAB) table).

(** The Basic Latin part of [toLowerCase], the host function on the ASCII
    strings of the examples. *)
Definition asciiLower (s : str) : str := map lower_unit s.

(** The transaction of one data line below [headers], with the id of the
    first call; [None] for a line that is skipped. *)
Definition row (headers : list str) (line : str) : option Transaction :=
  let values := map trim (parseTabSeparatedLine line) in
  if forallb is_empty values then None
  else normalizeTransaction (fill headers 0 (pad headers values) ∅) headers 0.

(** The two passes of [findKey]: whether a header equals one of the names,
    and whether it holds one of them as a word. *)
Definition exact_key (possibleNames : list str) (header : str) : bool :=
  existsb (λ name, str_eqb (trim (toLowerCase header)) (toLowerCase name))
    possibleNames.
Definition word_key (possibleNames : list str) (header : str) : bool :=
  existsb (λ name, word_test (toLowerCase name) true
                     (trim (toLowerCase header)))
    possibleNames.


(* ================================================================= *)
(** * Properties *)

(** ** Facts about [trim] *)

Section Trim.

Lemma dropWhile_snoc p l c :
  dropWhile p (l ++ [c]) =
  match dropWhile p l with
  | [] => if p c then [] else [c]
  | x => x ++ [c]
  end.
Proof.
  induction l as [|a l IH]; simpl.
  - reflexivity.
  - destruct (p a); [exact IH | reflexivity].
Qed.

Lemma dropWhile_idem p s : dropWhile p (dropWhile p s) = dropWhile p s.
Proof.
  induction s as [|a s IH]; simpl; [reflexivity|].
  destruct (p a) eqn:E; [exact IH | simpl; now rewrite E].
Qed.

Lemma dropWhile_elem p s c : c ∈ dropWhile p s → c ∈ s.
Proof.
  induction s as [|a s IH]; simpl; [trivial|].
  destruct (p a); [intros H; right; auto | trivial].
Qed.

Lemma trimEnd_cons c r :
  trimEnd (c :: r) =
  match trimEnd r with
  | [] => if is_space c then [] else [c]
  | x => c :: x
  end.
Proof.
  unfold trimEnd. simpl rev. rewrite dropWhile_snoc.
  destruct (dropWhile is_space (rev r)) as [|a l] eqn:E.
  - simpl. now destruct (is_space c).
  - rewrite rev_app_distr. simpl rev at 1. simpl.
    destruct (rev l ++ [a]) eqn:E'; [|reflexivity].
    now destruct (rev l).
Qed.

Lemma trimEnd_nil : trimEnd [] = [].
Proof. reflexivity. Qed.

Lemma trimEnd_elem s c : c ∈ trimEnd s → c ∈ s.
Proof.
  unfold trimEnd. rewrite !list_elem_of_In, <- in_rev, <- list_elem_of_In.
  intros H%dropWhile_elem. now rewrite list_elem_of_In, <- in_rev in H.
Qed.

Lemma trim_elem s c : c ∈ trim s → c ∈ s.
Proof. intros H%trimEnd_elem. now apply dropWhile_elem in H. Qed.

Lemma trimEnd_idem s : trimEnd (trimEnd s) = trimEnd s.
Proof.
  unfold trimEnd. now rewrite rev_involutive, dropWhile_idem.
Qed.

(** [trimEnd] keeps a first code unit that is not white space. *)
Lemma trimEnd_head c r :
  is_space c = false → ∃ r', trimEnd (c :: r) = c :: r'.
Proof.
  intros Hc. rewrite trimEnd_cons, Hc. destruct (trimEnd r); eauto.
Qed.

Lemma trimStart_head s :
  trimStart s = [] ∨ ∃ c r, trimStart s = c :: r ∧ is_space c = false.
Proof.
  unfold trimStart. induction s as [|a s IH]; simpl; [now left|].
  destruct (is_space a) eqn:E; [exact IH | right; eauto].
Qed.

Lemma trimStart_fixed c r : is_space c = false → trimStart (c :: r) = c :: r.
Proof. intros H. unfold trimStart. simpl. now rewrite H. Qed.

Lemma trim_idem s : trim (trim s) = trim s.
Proof.
  unfold trim. destruct (trimStart_head s) as [E | (c & r & E & Hc)]; rewrite E.
  - reflexivity.
  - destruct (trimEnd_head c r Hc) as [r' E']. rewrite E'.
    rewrite (trimStart_fixed _ _ Hc), <- E'. apply trimEnd_idem.
Qed.

End Trim.

(** ** Facts about the tokenizer *)

Lemma tsl_loop_acc line : ∀ result current q,
  tsl_loop line result current q = result ++ tsl_loop line [] current q.
Proof.
  induction line as [|c line IH]; intros result current q; simpl.
  - reflexivity.
  - destruct (c =? QUOTE); [apply IH|].
    destruct ((c =? TAB) && negb q); [|apply IH].
    rewrite IH, (IH [trim current]). now rewrite <- app_assoc.
Qed.

Lemma tsl_loop_length line : ∀ result current q,
  length (tsl_loop line result current q)
  = (length result + S (field_breaks q line))%nat.
Proof.
  induction line as [|c line IH]; intros result current q; simpl.
  - rewrite length_app. reflexivity.
  - destruct (c =? QUOTE); [apply IH|].
    destruct ((c =? TAB) && negb q); [|apply IH].
    rewrite IH, length_app. simpl. lia.
Qed.

Lemma tsl_loop_fields line : ∀ result current q,
  Forall (λ f, trim f = f ∧ QUOTE ∉ f) result →
  QUOTE ∉ current →
  Forall (λ f, trim f = f ∧ QUOTE ∉ f) (tsl_loop line result current q).
Proof.
  assert (Hpush : ∀ result current,
    Forall (λ f, trim f = f ∧ QUOTE ∉ f) result → QUOTE ∉ current →
    Forall (λ f, trim f = f ∧ QUOTE ∉ f) (result ++ [trim current])).
  { intros result current Hr Hc. apply Forall_app. split; [exact Hr|].
    constructor; [|constructor]. split; [apply trim_idem|].
    intros H%trim_elem. contradiction. }
  induction line as [|c line IH]; intros result current q Hr Hc; simpl.
  - now apply Hpush.
  - destruct (c =? QUOTE) eqn:Eq; [now apply IH|].
    destruct ((c =? TAB) && negb q).
    + apply IH; [now apply Hpush | apply not_elem_of_nil].
    + apply IH; [exact Hr|]. rewrite elem_of_app, list_elem_of_singleton.
      apply N.eqb_neq in Eq. intros [H|H]; [contradiction | congruence].
Qed.

(** Inside quotes everything but a quote accumulates. *)
Lemma tsl_loop_quoted body : ∀ rest result current,
  QUOTE ∉ body →
  tsl_loop (body ++ rest) result current true
  = tsl_loop rest result (current ++ body) true.
Proof.
  induction body as [|c body IH]; intros rest result current Hq; simpl.
  - now rewrite app_nil_r.
  - apply not_elem_of_cons in Hq as [Hc Hq].
    apply not_eq_sym, N.eqb_neq in Hc. rewrite Hc, andb_false_r.
    rewrite IH by exact Hq. now rewrite <- app_assoc.
Qed.

(** Outside quotes everything but a quote or a tab accumulates. *)
Lemma tsl_loop_plain body : ∀ rest result current,
  QUOTE ∉ body → TAB ∉ body →
  tsl_loop (body ++ rest) result current false
  = tsl_loop rest result (current ++ body) false.
Proof.
  induction body as [|c body IH]; intros rest result current Hq Ht; simpl.
  - now rewrite app_nil_r.
  - apply not_elem_of_cons in Hq as [Hc Hq].
    apply not_elem_of_cons in Ht as [Hc' Ht].
    apply not_eq_sym, N.eqb_neq in Hc. apply not_eq_sym, N.eqb_neq in Hc'.
    rewrite Hc, Hc'. simpl. rewrite IH by assumption. now rewrite <- app_assoc.
Qed.

(** Closed decidable side conditions are settled by evaluation. *)
Ltac by_compute :=
  match goal with |- ?P => apply (@bool_decide_unpack P _) end;
  vm_compute; exact I.



(** ** Facts about the pattern matcher *)

Lemma run_le cls max s : (run cls max s ≤ max)%nat ∧ (run cls max s ≤ length s)%nat.
Proof.
  revert s. induction max as [|max IH]; intros [|c s]; simpl; try lia.
  destruct (cls c); simpl; [|lia]. destruct (IH s). lia.
Qed.

Lemma run_app cls max m r :
  forallb cls m = true → (length m ≤ max)%nat →
  (length m = max ∨ match r with [] => True | c :: _ => cls c = false end) →
  run cls max (m ++ r) = length m.
Proof.
  revert max. induction m as [|a m IH]; intros max Hm Hlen Hstop; simpl in *.
  - destruct max; [reflexivity|]. destruct r as [|c r]; [reflexivity|].
    simpl. destruct Hstop as [? | ->]; [lia | reflexivity].
  - apply andb_true_iff in Hm as [Ha Hm]. destruct max as [|max]; [lia|].
    simpl. rewrite Ha. f_equal. apply IH; [exact Hm | lia |].
    destruct Hstop as [?|?]; [left; lia | now right].
Qed.

Lemma run_stop cls max c t : cls c = false → run cls max (c :: t) = O.
Proof. intros H. destruct max; simpl; [reflexivity | now rewrite H]. Qed.

Lemma run_one cls c t : cls c = true → run cls 1 (c :: t) = 1%nat.
Proof. intros H. simpl. now rewrite H. Qed.

(** Below the end of the run every position starts with a unit of the
    class. *)
Lemma run_head cls max s n :
  (n < run cls max s)%nat → ∃ c t, drop n s = c :: t ∧ cls c = true.
Proof.
  revert max n. induction s as [|a s IH]; intros [|max] n; simpl; try lia.
  destruct (cls a) eqn:Ha; [|lia]. destruct n as [|n]; intros Hn.
  - exists a, s. now split.
  - apply (IH max). lia.
Qed.

Lemma backtrack_eq {A} min s (k : str → str → option A) n :
  backtrack min s k n
  = if (n <? min)%nat then None
    else match k (take n s) (drop n s) with
         | Some a => Some a
         | None => match n with
                   | O => None
                   | S n' => backtrack min s k n'
                   end
         end.
Proof. destruct n; reflexivity. Qed.

Lemma backtrack_det {A} min s (k : str → str → option A) n :
  (∀ n', (n' < n)%nat → k (take n' s) (drop n' s) = None) →
  backtrack min s k n
  = if (n <? min)%nat then None else k (take n s) (drop n s).
Proof.
  induction n as [|n IH]; intros Hk; rewrite backtrack_eq.
  - destruct (0 <? min)%nat; [reflexivity|].
    now destruct (k (take 0 s) (drop 0 s)).
  - destruct (S n <? min)%nat; [reflexivity|].
    destruct (k (take (S n) s) (drop (S n) s)); [reflexivity|].
    rewrite IH by (intros; apply Hk; lia).
    destruct (n <? min)%nat; [reflexivity|]. apply Hk. lia.
Qed.

(** A repetition followed by a repetition of a disjoint class that must
    take at least one unit never gives anything back. *)
Lemma match_rep_rep ci cap cls min max cap2 cls2 min2 max2 atoms s :
  (∀ c, cls c = true → cls2 c = false) → (1 ≤ min2)%nat →
  match_atoms ci (Rep cap cls min max :: Rep cap2 cls2 min2 max2 :: atoms) s
  = let n := run cls (default (length s) max) s in
    if (n <? min)%nat then None
    else with_capture cap (take n s)
           (match_atoms ci (Rep cap2 cls2 min2 max2 :: atoms) (drop n s)).
Proof.
  intros Hdisj Hmin2.
  change (match_atoms ci (Rep cap cls min max :: ?a) s)
    with (backtrack min s
            (λ m r, with_capture cap m (match_atoms ci a r))
            (run cls (default (length s) max) s)).
  rewrite backtrack_det; [reflexivity|].
  intros n' Hn'. destruct (run_head _ _ _ _ Hn') as (c & t & -> & Hc).
  simpl. rewrite run_stop by auto. rewrite backtrack_eq.
  destruct min2; [lia | reflexivity].
Qed.

(** The same for a repetition that ends the pattern. *)
Lemma match_rep_eos ci cap cls min max s :
  match_atoms ci [Rep cap cls min max; Eos] s
  = let n := run cls (default (length s) max) s in
    if (n <? min)%nat then None
    else match drop n s with
         | [] => Some (if cap then [take n s] else [], [])
         | _ :: _ => None
         end.
Proof.
  change (match_atoms ci [Rep cap cls min max; Eos] s)
    with (backtrack min s
            (λ m r, with_capture cap m (match_atoms ci [Eos] r))
            (run cls (default (length s) max) s)).
  rewrite backtrack_det.
  - simpl. destruct (_ <? _)%nat; [reflexivity|].
    now destruct (drop _ s).
  - intros n' Hn'. destruct (run_head _ _ _ _ Hn') as (c & t & -> & Hc).
    reflexivity.
Qed.

(** ** Character classes *)

Ltac class_solver :=
  unfold is_word, is_letter, is_upper, is_lower, is_digit, is_sep3, is_sep2,
    is_dash, is_space, is_quote, is_comma, is_currency, QUOTE, APOS in *;
  repeat (match goal with
          | H : context [N.eqb ?a ?b] |- _ => destruct (N.eqb_spec a b)
          | H : context [N.leb ?a ?b] |- _ => destruct (N.leb_spec a b)
          | |- context [N.eqb ?a ?b] => destruct (N.eqb_spec a b)
          | |- context [N.leb ?a ?b] => destruct (N.leb_spec a b)
          end; simpl in *; try discriminate; try lia);
  try reflexivity.

Lemma digit_not_sep3 c : is_digit c = true → is_sep3 c = false.
Proof. intros H. class_solver. Qed.
Lemma sep3_not_digit c : is_sep3 c = true → is_digit c = false.
Proof. intros H. class_solver. Qed.
Lemma digit_not_sep2 c : is_digit c = true → is_sep2 c = false.
Proof. intros H. class_solver. Qed.
Lemma sep2_not_digit c : is_sep2 c = true → is_digit c = false.
Proof. intros H. class_solver. Qed.
Lemma sep2_not_word c : is_sep2 c = true → is_word c = false.
Proof. intros H. class_solver. Qed.
Lemma word_not_sep2 c : is_word c = true → is_sep2 c = false.
Proof. intros H. class_solver. Qed.
Lemma digit_not_space c : is_digit c = true → is_space c = false.
Proof. intros H. class_solver. Qed.
Lemma space_not_digit c : is_space c = true → is_digit c = false.
Proof. intros H. class_solver. Qed.
Lemma space_not_word c : is_space c = true → is_word c = false.
Proof. intros H. class_solver. Qed.
Lemma word_not_space c : is_word c = true → is_space c = false.
Proof. intros H. class_solver. Qed.
Lemma digit_not_dash c : is_digit c = true → is_dash c = false.
Proof. intros H. class_solver. Qed.
Lemma dash_not_digit c : is_dash c = true → is_digit c = false.
Proof. intros H. class_solver. Qed.
Lemma digit_not_quote c : is_digit c = true → is_quote c = false.
Proof. intros H. class_solver. Qed.
Lemma sep2_sep3 c : is_sep2 c = true → is_sep3 c = true.
Proof. intros H. class_solver. Qed.
Lemma sep3_not_space c : is_sep3 c = true → is_space c = false.
Proof. intros H. class_solver. Qed.

Create HintDb classes.
#[local] Hint Resolve digit_not_sep3 sep3_not_digit digit_not_sep2
  sep2_not_digit sep2_not_word word_not_sep2 digit_not_space space_not_digit
  space_not_word word_not_space digit_not_dash dash_not_digit
  digit_not_quote sep2_sep3 sep3_not_space : classes.

(** ** Cleaning a string that needs none *)

Lemma trimEnd_snoc l z : is_space z = false → trimEnd (l ++ [z]) = l ++ [z].
Proof.
  intros Hz. unfold trimEnd. rewrite rev_app_distr. simpl. rewrite Hz.
  simpl. now rewrite rev_involutive.
Qed.

Lemma removeLast_snoc l z : is_quote z = false → removeLast (l ++ [z]) = l ++ [z].
Proof.
  intros Hz. unfold removeLast. rewrite rev_app_distr. simpl. now rewrite Hz.
Qed.

(** A string whose first and last code units are neither white space nor
    quotes is its own cleaned form. *)
Lemma clean_fixed s c z :
  head s = Some c → last s = Some z →
  is_space c = false → is_quote c = false →
  is_space z = false → is_quote z = false →
  trim (stripQuotes (trim s)) = s.
Proof.
  intros Hh Hl Hc Hc' Hz Hz'.
  assert (Htrim : trim s = s).
  { unfold trim. destruct s as [|a t]; [discriminate|]. injection Hh as ->.
    rewrite (trimStart_fixed _ _ Hc).
    apply last_Some in Hl as [l' ->]. now apply trimEnd_snoc. }
  rewrite Htrim. destruct s as [|a t]; [discriminate|]. injection Hh as ->.
  simpl. rewrite Hc'. apply last_Some in Hl as [l' E]. rewrite E.
  rewrite removeLast_snoc by exact Hz'. now rewrite <- E.
Qed.

Lemma parseDate_fixed s c z :
  head s = Some c → last s = Some z →
  is_space c = false → is_quote c = false →
  is_space z = false → is_quote z = false →
  parseDate s = first_match date_formats s.
Proof.
  intros Hh Hl Hc Hc' Hz Hz'. unfold parseDate, date_text.
  rewrite (clean_fixed s c z) by assumption.
  destruct s; [discriminate | reflexivity].
Qed.

(** The ends of a string that starts and ends with runs of digits. *)
Lemma digits_ends d y mid :
  forallb is_digit d = true → forallb is_digit y = true →
  d ≠ [] → y ≠ [] →
  ∃ c z, head (d ++ mid ++ y) = Some c ∧ last (d ++ mid ++ y) = Some z
         ∧ is_digit c = true ∧ is_digit z = true.
Proof.
  intros Hd Hy Hd0 Hy0.
  destruct d as [|c d]; [congruence|].
  destruct (last y) as [z|] eqn:Hz; [|apply last_None in Hz; congruence].
  exists c, z. repeat split.
  - rewrite !app_assoc, last_app, Hz. reflexivity.
  - simpl in Hd. now apply andb_true_iff in Hd as [? _].
  - apply last_Some in Hz as [l ->]. rewrite forallb_app in Hy.
    apply andb_true_iff in Hy as [_ Hy]. simpl in Hy.
    now apply andb_true_iff in Hy as [? _].
Qed.

(** ** Dates *)

Lemma dmy_shape (d : str) s1 m s2 y :
  d ++ s1 :: m ++ s2 :: y = d ++ (s1 :: m ++ [s2]) ++ y.
Proof. simpl. now rewrite <- app_assoc. Qed.

Lemma dmy_fixed d s1 m s2 y :
  forallb is_digit d = true → forallb is_digit y = true →
  d ≠ [] → y ≠ [] →
  parseDate (d ++ s1 :: m ++ s2 :: y)
  = first_match date_formats (d ++ s1 :: m ++ s2 :: y).
Proof.
  intros Hd Hy Hd0 Hy0. rewrite dmy_shape.
  destruct (digits_ends d y (s1 :: m ++ [s2]) Hd Hy Hd0 Hy0)
    as (c & z & Hh & Hl & Hc & Hz).
  apply (parseDate_fixed _ c z); auto with classes.
Qed.

Lemma nonempty_length (s : str) : (1 ≤ length s)%nat → s ≠ [].
Proof. destruct s; simpl; [lia | discriminate]. Qed.

Lemma default_some (n m : nat) : default n (some m) = m.
Proof. reflexivity. Qed.

(** A repetition that must take a unit fails on a unit outside its class. *)
Lemma match_rep_none ci cap cls min max atoms c t :
  cls c = false → (1 ≤ min)%nat →
  match_atoms ci (Rep cap cls min max :: atoms) (c :: t) = None.
Proof.
  intros Hc Hmin. simpl. rewrite run_stop by exact Hc. rewrite backtrack_eq.
  destruct min; [lia | reflexivity].
Qed.

Lemma disjoint_false (A B : N → bool) c :
  (∀ c, A c = true → B c = false) → B c = true → A c = false.
Proof.
  intros H Hc. destruct (A c) eqn:E; [apply H in E; congruence | reflexivity].
Qed.

(** A run of the first class and one separator, before a repetition that
    must take a unit of a third class. *)
Lemma match_prefix A S1 B a1 a2 capB b1 b2 atoms (d rest : str) s1 :
  (∀ c, A c = true → S1 c = false) → (∀ c, S1 c = true → B c = false) →
  forallb A d = true → (a1 ≤ length d ≤ a2)%nat → (1 ≤ b1)%nat →
  S1 s1 = true →
  match_atoms false
    (Rep true A a1 (some a2) :: Rep false S1 1 (some 1)
       :: Rep capB B b1 b2 :: atoms) (d ++ s1 :: rest)
  = with_capture true d (match_atoms false (Rep capB B b1 b2 :: atoms) rest).
Proof.
  intros HAS HSB Hd Hdl Hb1 Hs1.
  rewrite match_rep_rep by (auto; lia). rewrite default_some. cbv zeta.
  rewrite run_app;
    [| assumption | lia | right; simpl; now apply (disjoint_false A S1)].
  replace (length d <? a1)%nat with false by (symmetry; apply Nat.ltb_ge; lia).
  rewrite take_app_length, drop_app_length.
  rewrite match_rep_rep by (auto; lia). rewrite default_some. cbv zeta.
  rewrite (run_one _ _ _ Hs1). cbn [length Nat.ltb Nat.leb].
  change (take 1 (s1 :: ?r)) with [s1]. change (drop 1 (s1 :: ?r)) with r.
  now destruct (match_atoms _ _ rest) as [[? ?]|].
Qed.

(** What a date pattern of five parts does on a string of that shape: only
    the length of the last run decides. *)
Lemma match_five A S1 B S2 C a1 a2 b1 b2 c1 c2 (d m y : str) s1 s2 :
  (∀ c, A c = true → S1 c = false) → (∀ c, S1 c = true → B c = false) →
  (∀ c, B c = true → S2 c = false) → (∀ c, S2 c = true → C c = false) →
  forallb A d = true → (a1 ≤ length d ≤ a2)%nat →
  forallb B m = true → (b1 ≤ length m ≤ b2)%nat →
  forallb C y = true → (length y ≤ c2)%nat →
  (1 ≤ b1)%nat → (1 ≤ c1)%nat →
  S1 s1 = true → S2 s2 = true →
  match_anchored
    [ Rep true A a1 (some a2); Rep false S1 1 (some 1);
      Rep true B b1 (some b2); Rep false S2 1 (some 1);
      Rep true C c1 (some c2); Eos ] (d ++ s1 :: m ++ s2 :: y)
  = if (length y <? c1)%nat then None else Some [d; m; y].
Proof.
  intros HAS HSB HBS HSC Hd Hdl Hm Hml Hy Hyl Hb1 Hc1 Hs1 Hs2.
  unfold match_anchored.
  rewrite match_prefix by assumption. rewrite match_prefix by assumption.
  rewrite match_rep_eos. rewrite default_some. cbv zeta.
  assert (Hrun : run C c2 y = length y).
  { rewrite <- (app_nil_r y) at 1. apply run_app; [assumption | lia | now right]. }
  rewrite Hrun. destruct (length y <? c1)%nat; [reflexivity|].
  rewrite take_ge, drop_ge by lia. reflexivity.
Qed.

(** The same pattern fails when the middle part starts outside its class. *)
Lemma match_five_middle A S1 B S2 C a1 a2 b1 b2 c1 c2 (d : str) s1 c t :
  (∀ c, A c = true → S1 c = false) → (∀ c, S1 c = true → B c = false) →
  forallb A d = true → (a1 ≤ length d ≤ a2)%nat →
  (1 ≤ b1)%nat → S1 s1 = true → B c = false →
  match_anchored
    [ Rep true A a1 (some a2); Rep false S1 1 (some 1);
      Rep true B b1 (some b2); Rep false S2 1 (some 1);
      Rep true C c1 (some c2); Eos ] (d ++ s1 :: c :: t)
  = None.
Proof.
  intros HAS HSB Hd Hdl Hb1 Hs1 Hc. unfold match_anchored.
  rewrite match_prefix by assumption.
  now rewrite match_rep_none.
Qed.

(** A pattern whose separators are white space fails on another
    separator. *)
Lemma match_spaced_none A B C a1 a2 b1 b2 c1 c2 (d rest : str) s1 :
  (∀ c, A c = true → is_space c = false) →
  forallb A d = true → (a1 ≤ length d ≤ a2)%nat →
  A s1 = false → is_space s1 = false →
  match_anchored
    [ Rep true A a1 (some a2); Rep false is_space 1 None;
      Rep true B b1 (some b2); Rep false is_space 1 None;
      Rep true C c1 (some c2); Eos ] (d ++ s1 :: rest)
  = None.
Proof.
  intros HA Hd Hdl HAs1 Hs1. unfold match_anchored.
  rewrite match_rep_rep by (auto; lia). rewrite default_some. cbv zeta.
  rewrite run_app; [| assumption | lia | right; simpl; assumption].
  replace (length d <? a1)%nat with false by (symmetry; apply Nat.ltb_ge; lia).
  rewrite take_app_length, drop_app_length.
  now rewrite match_rep_none.
Qed.

(** C10. [parseDate] checks no calendar range: one or two digits, a
    separator among [/], [-] and [.], one or two digits, a separator of
    the same class and four digits give the year, the month padded to two
    digits and the day padded to two digits, whatever the values of the
    day and month fields (so "32/13/2024" gives "2024-13-32"). *)
Theorem parseDate_no_range_check (d m y : str) (s1 s2 : N) :
  forallb is_digit d = true → (1 ≤ length d ≤ 2)%nat →
  forallb is_digit m = true → (1 ≤ length m ≤ 2)%nat →
  forallb is_digit y = true → length y = 4%nat →
  is_sep3 s1 = true → is_sep3 s2 = true →
  parseDate (d ++ s1 :: m ++ s2 :: y)
  = Some (y ++ u "-" ++ padStart2 m ++ u "-" ++ padStart2 d).
Proof.
  intros Hd Hdl Hm Hml Hy Hyl Hs1 Hs2.
  rewrite dmy_fixed; [| assumption | assumption | apply nonempty_length; lia
                      | apply nonempty_length; lia].
  unfold date_formats. cbn [first_match]. unfold date_dmy4, re_dmy4.
  rewrite match_five; auto with classes; try lia.
  now rewrite Hyl.
Qed.

Lemma parseDate_no_range_check_witness :
  parseDate (u "32/13/2024") = Some (u "2024-13-32").
Proof.
  apply (parseDate_no_range_check (u "32") (u "13") (u "2024") 47 47);
    first [reflexivity | simpl; lia].
Defined.

Lemma letter_word c : is_letter c = true → is_word c = true.
Proof. intros H. unfold is_word. now rewrite H. Qed.
Lemma letter_not_digit c : is_letter c = true → is_digit c = false.
Proof. intros H. class_solver. Qed.
Lemma lower_unit_letter c : is_lower (lower_unit c) = true → is_letter c = true.
Proof.
  unfold lower_unit, is_letter. destruct (is_upper c); [reflexivity|].
  now intros ->.
Qed.

Lemma assoc_In key table v : assoc key table = Some v → In key (map fst table).
Proof.
  induction table as [|[k w] table IH]; simpl; [discriminate|].
  unfold str_eqb. case_bool_decide; [intros _; now left | right; auto].
Qed.

(** A month name known to the table is three letters. *)
Lemma months_letters mon month :
  assoc (map lower_unit mon) months = Some month →
  length mon = 3%nat ∧ forallb is_letter mon = true.
Proof.
  intros H%assoc_In.
  assert (Hkeys : Forall (λ k, length k = 3%nat ∧ forallb is_lower k = true)
                    (map fst months)) by (repeat constructor).
  rewrite Forall_forall in Hkeys. apply list_elem_of_In, Hkeys in H as [Hlen Hlow].
  rewrite length_map in Hlen. split; [exact Hlen|].
  clear Hlen.
  induction mon as [|c mon IH]; simpl in *; [reflexivity|].
  apply andb_true_iff in Hlow as [Hc Hlow].
  now rewrite (lower_unit_letter c Hc), IH.
Qed.

Lemma first_match_app before f after cleaned :
  Forall (λ g, g cleaned = None) before →
  first_match (before ++ f :: after) cleaned
  = match f cleaned with
    | Some r => Some r
    | None => first_match after cleaned
    end.
Proof.
  induction 1 as [|g before Hg _ IH]; simpl; [reflexivity|].
  now rewrite Hg.
Qed.

(** The numeric form with a two-digit year. *)
Lemma parseDate_dmy2 (d m y : str) (s1 s2 : N) :
  forallb is_digit d = true → (1 ≤ length d ≤ 2)%nat →
  forallb is_digit m = true → (1 ≤ length m ≤ 2)%nat →
  forallb is_digit y = true → length y = 2%nat →
  is_sep3 s1 = true → is_sep3 s2 = true →
  parseDate (d ++ s1 :: m ++ s2 :: y)
  = Some ((if 50 <? parseInt y then u "19" ++ y else u "20" ++ y)
            ++ u "-" ++ padStart2 m ++ u "-" ++ padStart2 d).
Proof.
  intros Hd Hdl Hm Hml Hy Hyl Hs1 Hs2.
  rewrite dmy_fixed; [| assumption | assumption | apply nonempty_length; lia
                      | apply nonempty_length; lia].
  unfold date_formats. cbn [first_match].
  unfold date_dmy4, re_dmy4. rewrite match_five; auto with classes; try lia.
  rewrite Hyl. cbn [Nat.ltb Nat.leb].
  unfold date_dmy2, re_dmy2. rewrite match_five; auto with classes; try lia.
  now rewrite Hyl.
Qed.

(** The month-abbreviation form with a two-digit year. *)
Lemma parseDate_dmony2 (d mon y month : str) (s1 s2 : N) :
  forallb is_digit d = true → (1 ≤ length d ≤ 2)%nat →
  assoc (map lower_unit mon) months = Some month →
  forallb is_digit y = true → length y = 2%nat →
  is_sep2 s1 = true → is_sep2 s2 = true →
  parseDate (d ++ s1 :: mon ++ s2 :: y)
  = Some ((if 50 <? parseInt y then u "19" ++ y else u "20" ++ y)
            ++ u "-" ++ month ++ u "-" ++ padStart2 d).
Proof.
  intros Hd Hdl Hmon Hy Hyl Hs1 Hs2.
  destruct (months_letters _ _ Hmon) as [Hlen Hlet].
  assert (Hword : forallb is_word mon = true).
  { clear -Hlet. induction mon as [|c mon IH]; simpl in *; [reflexivity|].
    apply andb_true_iff in Hlet as [Hc Hlet].
    now rewrite (letter_word c Hc), IH. }
  rewrite dmy_fixed; [| assumption | assumption | apply nonempty_length; lia
                      | apply nonempty_length; lia].
  unfold date_formats. cbn [first_match].
  destruct mon as [|a mon']; [discriminate|].
  assert (Ha : is_digit a = false).
  { simpl in Hlet. apply andb_true_iff in Hlet as [Ha _].
    now apply letter_not_digit. }
  unfold date_dmy4, re_dmy4. cbn [app].
  rewrite match_five_middle; auto with classes.
  unfold date_dmy2, re_dmy2.
  rewrite match_five_middle; auto with classes.
  unfold date_mon at 1, re_d_mon_y4.
  rewrite match_spaced_none; auto with classes.
  change (a :: mon' ++ s2 :: y) with ((a :: mon') ++ s2 :: y).
  unfold date_mon at 1, re_dmony4.
  rewrite match_five; auto with classes; try lia.
  rewrite Hyl. cbn [Nat.ltb Nat.leb].
  unfold date_mon, re_dmony2.
  rewrite match_five; auto with classes; try lia.
  rewrite Hyl. cbn [Nat.ltb Nat.leb]. now rewrite Hmon.
Qed.

(** ** Amounts *)

Lemma match_length_single cls s :
  match_length false [Rep false cls 1 (Some 1%nat)] s
  = match s with
    | c :: _ => if cls c then Some 1%nat else None
    | [] => None
    end.
Proof.
  unfold match_length. destruct s as [|c t]; [reflexivity|].
  simpl. destruct (cls c); [|reflexivity].
  simpl. rewrite drop_0. f_equal. lia.
Qed.

Lemma remove_filter cls s : remove cls s = List.filter (λ c, negb (cls c)) s.
Proof.
  unfold remove, replaceAll. induction s as [|c s IH]; [reflexivity|].
  cbn [replace_go List.filter]. rewrite match_length_single.
  destruct (cls c); simpl; now rewrite IH.
Qed.

Lemma remove_elem cls s c : c ∈ remove cls s → c ∈ s ∧ cls c = false.
Proof.
  rewrite remove_filter, !list_elem_of_In, filter_In.
  intros [? H]. split; [assumption|]. now apply negb_true_iff.
Qed.

Lemma amount_text_clean value c :
  c ∈ amount_text value → is_comma c = false ∧ is_currency c = false.
Proof.
  unfold amount_text. intros H%trim_elem.
  apply remove_elem in H as [H Hcur]. now apply remove_elem in H as [_ Hcom].
Qed.

Lemma parseAmount_refines value : parseAmount (Some value) = spec_parseAmount value.
Proof.
  unfold parseAmount, spec_parseAmount, amount_text.
  destruct value as [|c value]; [reflexivity|].
  case_bool_decide as E1; [now rewrite E1|].
  case_bool_decide as E2; [now rewrite E2|]. reflexivity.
Qed.

Lemma parseAmount_not_NaN value : isNaN (parseAmount value) = false.
Proof.
  destruct value as [value|]; [|reflexivity].
  rewrite parseAmount_refines. unfold spec_parseAmount.
  now destruct (parseFloat _).
Qed.

(** C4. [parseAmount] is what the specification describes: the input is
    trimmed, one layer of surrounding quotes is stripped (a quote at each
    end, the quotes inside stay), every comma and
    every currency symbol (U+20B9 and the dollar sign) is removed, the
    remainder goes through [parseFloat], and a NaN is read as 0, so that
    the result is never NaN; empty input gives 0; the four amounts of the
    specification parse as it says. *)
Theorem parseAmount_spec :
  (∀ value, parseAmount (Some value) = spec_parseAmount value)
  ∧ (∀ q q' body, is_quote q = true → is_quote q' = true →
                  stripQuotes (q :: body ++ [q']) = body)
  ∧ (∀ value c, c ∈ amount_text value → c ≠ 44 ∧ c ≠ 8377 ∧ c ≠ 36)
  ∧ (∀ value, trim value = [] → parseAmount (Some value) = zero)
  ∧ (∀ value, parseFloat (amount_text value) = S754_nan →
              parseAmount (Some value) = zero)
  ∧ (∀ value, isNaN (parseAmount value) = false)
  ∧ parseAmount (Some (u "2,83,295.35")) = number_of_decimal false 28329535 (-2)
  ∧ parseAmount (Some []) = zero
  ∧ parseAmount (Some (8377 :: u "1,131.19")) = number_of_decimal false 113119 (-2)
  ∧ parseAmount (Some (u "abc")) = zero.
Proof.
  split; [exact parseAmount_refines|]. split; [|split; [|split; [|split; [|split]]]].
  - intros q q' body Hq Hq'. simpl. rewrite Hq. unfold removeLast.
    rewrite rev_app_distr. simpl. rewrite Hq'. apply rev_involutive.
  - intros value c [Hcom Hcur]%amount_text_clean.
    unfold is_comma, is_currency in *. apply orb_false_iff in Hcur as [H1 H2].
    apply N.eqb_neq in Hcom, H1, H2. auto.
  - intros value E. rewrite parseAmount_refines.
    unfold spec_parseAmount, amount_text. now rewrite E.
  - intros value E. rewrite parseAmount_refines.
    unfold spec_parseAmount. now rewrite E.
  - exact parseAmount_not_NaN.
  - repeat split; vm_compute; reflexivity.
Qed.

Lemma parseAmount_spec_witness :
  parseAmount (Some (u "  ")) = zero ∧ parseAmount (Some (u "n/a")) = zero.
Proof.
  destruct parseAmount_spec as (_ & _ & _ & Hempty & Hnan & _).
  split; [apply Hempty | apply Hnan]; reflexivity.
Defined.

(** ** Descriptions *)

Lemma replace_go_skip m repl k s :
  replace_go m repl k s = replace_go m repl O (drop k s).
Proof.
  revert k. induction s as [|c s IH]; intros [|k]; try reflexivity.
  simpl. apply IH.
Qed.

Lemma replaceAll_absent ci atoms repl s :
  occurs ci atoms s = false → replaceAll ci atoms repl s = s.
Proof.
  unfold replaceAll, match_length.
  induction s as [|c s IH]; [reflexivity|]. simpl.
  destruct (match_atoms ci atoms (c :: s)); [discriminate|].
  intros H. simpl. now rewrite IH.
Qed.

Lemma remove_noise_fixed s : noise_free s = true → remove_noise s = s.
Proof.
  unfold noise_free, remove_noise.
  induction noise_patterns as [|re pats IH]; simpl; [reflexivity|].
  intros [Hre Hpats]%andb_true_iff. apply negb_true_iff in Hre.
  rewrite replaceAll_absent by exact Hre. now apply IH.
Qed.

Lemma drop_run cls s : drop (run cls (length s) s) s = dropWhile cls s.
Proof.
  induction s as [|c s IH]; [reflexivity|]. simpl.
  destruct (cls c); [exact IH | reflexivity].
Qed.

Lemma match_length_spaces s :
  match_length false [Rep false is_space 1 None] s
  = match run is_space (length s) s with
    | O => None
    | S n => Some (S n)
    end.
Proof.
  unfold match_length. cbn [match_atoms default]. rewrite backtrack_eq.
  destruct (run is_space (length s) s) as [|n] eqn:E; [reflexivity|].
  cbn [Nat.ltb Nat.leb with_capture fmap option_fmap option_map snd].
  f_equal. rewrite length_drop. pose proof (run_le is_space (length s) s). lia.
Qed.

Lemma collapse_nil : collapse [] = [].
Proof. reflexivity. Qed.

Lemma collapse_cons c r :
  collapse (c :: r)
  = if is_space c then 32 :: collapse (dropWhile is_space r)
    else c :: collapse r.
Proof.
  unfold collapse, replaceAll. cbn [replace_go].
  rewrite match_length_spaces. cbn [length run].
  destruct (is_space c); [|reflexivity].
  rewrite replace_go_skip, drop_run. reflexivity.
Qed.

Lemma dropWhile_length cls s : (length (dropWhile cls s) ≤ length s)%nat.
Proof.
  induction s as [|c s IH]; simpl; [lia|]. destruct (cls c); simpl; lia.
Qed.

Lemma dropWhile_start s : starts_space (dropWhile is_space s) = false.
Proof.
  induction s as [|c s IH]; simpl; [reflexivity|].
  destruct (is_space c) eqn:E; [exact IH | simpl; exact E].
Qed.

Lemma collapse_start s : starts_space s = false → starts_space (collapse s) = false.
Proof.
  destruct s as [|c r]; [reflexivity|]. simpl. intros H.
  rewrite collapse_cons, H. simpl. exact H.
Qed.

Lemma collapse_collapsed s : collapsed (collapse s) = true.
Proof.
  remember (length s) as n eqn:Hn. assert (Hle : (length s ≤ n)%nat) by lia.
  clear Hn. revert s Hle. induction n as [|n IH]; intros [|c r] Hle;
    try reflexivity; simpl in Hle; [lia|].
  rewrite collapse_cons. destruct (is_space c) eqn:E.
  - cbn [collapsed]. change (is_space 32) with true. cbn [N.eqb Pos.eqb andb].
    rewrite collapse_start by apply dropWhile_start. simpl.
    apply IH. pose proof (dropWhile_length is_space r). lia.
  - cbn [collapsed]. rewrite E. simpl. apply IH. lia.
Qed.

Lemma dropWhile_fixed s : starts_space s = false → dropWhile is_space s = s.
Proof. destruct s as [|c r]; simpl; [reflexivity | now intros ->]. Qed.

Lemma collapse_fixed s : collapsed s = true → collapse s = s.
Proof.
  induction s as [|c r IH]; [reflexivity|]. cbn [collapsed].
  intros [Hc Hr]%andb_true_iff. rewrite collapse_cons.
  destruct (is_space c).
  - apply andb_true_iff in Hc as [Hc Hs]. apply N.eqb_eq in Hc as ->.
    apply negb_true_iff in Hs. rewrite dropWhile_fixed by exact Hs.
    now rewrite IH.
  - now rewrite IH.
Qed.

Lemma collapsed_tail c r : collapsed (c :: r) = true → collapsed r = true.
Proof. cbn [collapsed]. now intros [_ ?]%andb_true_iff. Qed.

Lemma collapsed_trimStart s : collapsed s = true → collapsed (trimStart s) = true.
Proof.
  unfold trimStart. induction s as [|c r IH]; [reflexivity|]. intros H. simpl.
  destruct (is_space c); [apply IH; now apply collapsed_tail in H | exact H].
Qed.

(** [trimEnd] keeps the first code unit of what it leaves. *)
Lemma trimEnd_start r : starts_space r = false → starts_space (trimEnd r) = false.
Proof.
  destruct r as [|a r]; [reflexivity|]. simpl. intros Ha.
  rewrite trimEnd_cons, Ha. now destruct (trimEnd r); simpl.
Qed.

Lemma collapsed_trimEnd s : collapsed s = true → collapsed (trimEnd s) = true.
Proof.
  induction s as [|c r IH]; [reflexivity|]. cbn [collapsed].
  intros [Hc Hr]%andb_true_iff. rewrite trimEnd_cons.
  specialize (IH Hr). destruct (trimEnd r) as [|a x] eqn:E.
  - destruct (is_space c) eqn:Ec; [reflexivity|]. simpl. now rewrite Ec.
  - cbn [collapsed] in *. rewrite IH, andb_true_r.
    destruct (is_space c); [|reflexivity].
    apply andb_true_iff in Hc as [Hc Hs]. rewrite Hc. simpl.
    apply negb_true_iff in Hs. apply trimEnd_start in Hs. rewrite E in Hs.
    simpl in Hs. now rewrite Hs.
Qed.

Lemma squeeze_idem z : squeeze (squeeze z) = squeeze z.
Proof.
  unfold squeeze.
  assert (H : collapsed (trim (collapse z)) = true).
  { apply collapsed_trimEnd, collapsed_trimStart, collapse_collapsed. }
  rewrite (collapse_fixed _ H). apply trim_idem.
Qed.

(** C6, amended. Cleaning a cleaned description changes nothing when the
    cleaned description holds no match of a noise pattern. *)
Theorem cleanDescription_idempotent_when_noise_free x :
  noise_free (cleanDescription x) = true →
  cleanDescription (cleanDescription x) = cleanDescription x.
Proof.
  intros Hfree. destruct x as [|c x]; [reflexivity|].
  unfold cleanDescription at 1.
  destruct (cleanDescription (c :: x)) as [|a y] eqn:E; [reflexivity|].
  rewrite remove_noise_fixed by exact Hfree.
  rewrite <- E. unfold cleanDescription. apply squeeze_idem.
Qed.

Lemma cleanDescription_idempotent_when_noise_free_witness :
  cleanDescription (cleanDescription (u "UPI/DR/123456789/AMAZON  PAY "))
  = cleanDescription (u "UPI/DR/123456789/AMAZON  PAY ").
Proof.
  apply cleanDescription_idempotent_when_noise_free. reflexivity.
Defined.

(** C6 as stated fails: removing one match can bring a new match
    together. *)
Lemma cleanDescription_not_idempotent :
  cleanDescription (u "/DR//DR/1/1/") = u "/DR/1/"
  ∧ cleanDescription (cleanDescription (u "/DR//DR/1/1/")) = []
  ∧ cleanDescription (cleanDescription (u "/DR//DR/1/1/"))
    ≠ cleanDescription (u "/DR//DR/1/1/").
Proof.
  split; [vm_compute; reflexivity|]. split; [vm_compute; reflexivity|].
  vm_compute. discriminate.
Qed.

(** ** Header locator *)

Lemma startsWith_prefix p s : startsWith p s = true ↔ ∃ post, s = p ++ post.
Proof.
  revert s. induction p as [|a p IH]; intros s; simpl.
  - split; [eauto | reflexivity].
  - destruct s as [|b s].
    + split; [discriminate | intros [? ?]; discriminate].
    + rewrite andb_true_iff, N.eqb_eq, IH. split.
      * intros [-> [post ->]]. eauto.
      * intros [post [= -> ->]]. eauto.
Qed.

(** [includes] is the substring test. *)
Lemma includes_substring s p :
  includes s p = true ↔ ∃ pre post, s = pre ++ p ++ post.
Proof.
  induction s as [|c s IH]; simpl; rewrite orb_true_iff, startsWith_prefix.
  - split.
    + intros [[post ->]|?]; [exists [], post; reflexivity | discriminate].
    + intros (pre & post & E). left. destruct pre; [|discriminate].
      simpl in E. eauto.
  - rewrite IH. split.
    + intros [[post ->]|(pre & post & ->)];
        [exists [], post | exists (c :: pre), post]; reflexivity.
    + intros (pre & post & E). destruct pre as [|a pre]; simpl in E.
      * left. eauto.
      * injection E as -> ->. right. eauto.
Qed.

Lemma fhr_loop_found rest : ∀ i todo k line,
  (k < todo)%nat → rest !! k = Some line → is_header line = true →
  (∀ j l, (j < k)%nat → rest !! j = Some l → is_header l = false) →
  fhr_loop rest i todo = Some ((i + Z.of_nat k)%Z, headers_of line).
Proof.
  induction rest as [|l0 rest IH]; intros i todo k line Hk Hline Hh Hfirst.
  - discriminate.
  - destruct todo as [|todo]; [lia|]. destruct k as [|k]; simpl in *.
    + injection Hline as ->. rewrite Hh. do 2 f_equal. lia.
    + rewrite (Hfirst O l0) by (lia || reflexivity).
      rewrite (IH (i + 1)%Z todo k line); [do 2 f_equal; lia | lia | exact Hline
        | exact Hh |].
      intros j l Hj Hl. apply (Hfirst (S j) l); [lia | exact Hl].
Qed.

Lemma fhr_loop_none rest : ∀ i todo,
  (∀ k line, (k < todo)%nat → rest !! k = Some line → is_header line = false) →
  fhr_loop rest i todo = None.
Proof.
  induction rest as [|l0 rest IH]; intros i todo Hnone.
  - now destruct todo.
  - destruct todo as [|todo]; [reflexivity|]. simpl.
    rewrite (Hnone O l0) by (lia || reflexivity).
    apply IH. intros k line Hk Hl. apply (Hnone (S k) line); [lia | exact Hl].
Qed.

Lemma fhr_loop_index rest : ∀ i todo j headers,
  fhr_loop rest i todo = Some (j, headers) → (i ≤ j)%Z.
Proof.
  induction rest as [|l0 rest IH]; intros i todo j headers.
  - now destruct todo.
  - destruct todo as [|todo]; [discriminate|]. simpl.
    destruct (is_header l0).
    + intros [= <- _]. lia.
    + intros H%IH. lia.
Qed.

Lemma findHeaderRow_index lines j headers :
  findHeaderRow lines = Some (j, headers) → (0 ≤ j)%Z.
Proof.
  unfold findHeaderRow. destruct (fhr_loop lines 0 50) as [[i h]|] eqn:E.
  - intros [= <- _]. now apply fhr_loop_index in E.
  - destruct lines; [discriminate|]. intros [= <- _]. lia.
Qed.

Lemma is_header_conditions line :
  is_header line = true ↔
  (∃ c, c ∈ lowered_columns line ∧ includes c (u "date") = true
        ∧ includes c (u "statement") = false ∧ includes c (u "open") = false)
  ∧ (∃ c a, c ∈ lowered_columns line
            ∧ a ∈ [u "debit"; u "credit"; u "balance"] ∧ includes c a = true)
  ∧ (∃ c d, c ∈ lowered_columns line
            ∧ d ∈ [u "description"; u "details"; u "particulars"; u "narration"]
            ∧ includes c d = true).
Proof.
  unfold is_header, hasDate, hasDebit, hasDescription.
  rewrite !andb_true_iff, !existsb_exists.
  setoid_rewrite list_elem_of_In.
  setoid_rewrite andb_true_iff. setoid_rewrite andb_true_iff.
  setoid_rewrite negb_true_iff. setoid_rewrite existsb_exists.
  change (drop 1 requiredColumns) with [u "debit"; u "credit"; u "balance"].
  change descriptionColumns
    with [u "description"; u "details"; u "particulars"; u "narration"].
  split.
  - intros [[(c & ? & [? ?] & ?) (c2 & ? & a & ? & ?)] (c3 & ? & d & ? & ?)].
    repeat split; [exists c | exists c2, a | exists c3, d]; auto.
  - intros [(c & ? & ? & ? & ?) [(c2 & a & ? & ? & ?) (c3 & d & ? & ? & ?)]].
    repeat split; [exists c | exists c2 | exists c3]; eauto 6.
Qed.

Lemma split_nonempty sep s : split sep s ≠ [].
Proof.
  destruct s as [|c r]; simpl; [discriminate|].
  destruct (c =? sep); [discriminate|]. now destruct (split sep r).
Qed.

(** C1, amended. On a non-empty list of lines the locator returns the first
    line, among the first 50, whose lower-cased trimmed tokens have a token
    that contains "date" but neither "statement" nor "open", a token that
    contains "debit", "credit" or "balance", and a token that contains one
    of "description", "details", "particulars", "narration", with the
    trimmed tokens of that line; when no such line is there it returns
    line 0 and its trimmed tokens, without an error; the lines of a
    document are never empty, so the locator raises no error on them. *)
Theorem findHeaderRow_spec (lines : list str) line0 rest :
  lines = line0 :: rest →
  (∀ line, is_header line = true ↔
     (∃ c, c ∈ lowered_columns line ∧ includes c (u "date") = true
           ∧ includes c (u "statement") = false ∧ includes c (u "open") = false)
     ∧ (∃ c a, c ∈ lowered_columns line
               ∧ a ∈ [u "debit"; u "credit"; u "balance"] ∧ includes c a = true)
     ∧ (∃ c d, c ∈ lowered_columns line
               ∧ d ∈ [u "description"; u "details"; u "particulars"; u "narration"]
               ∧ includes c d = true))
  ∧ (∀ i line, (i < 50)%nat → lines !! i = Some line → is_header line = true →
       (∀ j l, (j < i)%nat → lines !! j = Some l → is_header l = false) →
       findHeaderRow lines = Some (Z.of_nat i, headers_of line))
  ∧ ((∀ i line, (i < 50)%nat → lines !! i = Some line → is_header line = false) →
     findHeaderRow lines = Some (0%Z, headers_of line0))
  ∧ (∀ content, ∃ found, findHeaderRow (lines_of content) = Some found).
Proof.
  intros ->. split; [exact is_header_conditions|]. split; [|split].
  - intros i line Hi Hline Hh Hfirst. unfold findHeaderRow.
    now rewrite (fhr_loop_found _ 0%Z 50 i line).
  - intros Hnone. unfold findHeaderRow. now rewrite fhr_loop_none.
  - intros content. unfold findHeaderRow, lines_of.
    destruct (fhr_loop _ _ _); [eauto|].
    pose proof (split_nonempty LF (trim (normalizeMultiLineFields content))).
    destruct (split _ _); [congruence | eauto].
Qed.

(** ** [parseTSV] *)

(** With two lines or more it returns a sequence. *)
Lemma parseTSV_returns content :
  (2 ≤ length (lines_of content))%nat →
  ∃ headerIndex headers,
    findHeaderRow (lines_of content) = Some (headerIndex, headers)
    ∧ (0 ≤ headerIndex)%Z
    ∧ parseTSV content
      = Return (rows headers
                  (drop (Z.to_nat (headerIndex + 1)) (lines_of content)) [] 0).
Proof.
  intros H. unfold parseTSV.
  apply Nat.ltb_ge in H as H'. rewrite H'.
  destruct (findHeaderRow (lines_of content)) as [[i h]|] eqn:E.
  - pose proof (findHeaderRow_index _ _ _ E) as Hi. exists i, h.
    destruct (Z.eqb_spec i (-1)); [lia | auto].
  - unfold findHeaderRow in E. destruct (fhr_loop _ _ _); [discriminate|].
    destruct (lines_of content); [simpl in H; lia | discriminate].
Qed.

(** C8. When the trimmed normalized text has fewer than two lines,
    [parseTSV] throws and returns no sequence; with two lines or more it
    returns one. *)
Theorem parseTSV_too_few_lines content :
  ((length (lines_of content) < 2)%nat →
   parseTSV content = Throw (Error (u "Invalid TSV file: No data rows found")))
  ∧ ((2 ≤ length (lines_of content))%nat →
     ∃ transactions, parseTSV content = Return transactions).
Proof.
  split.
  - intros H. unfold parseTSV. apply Nat.ltb_lt in H. now rewrite H.
  - intros H. destruct (parseTSV_returns content H) as (i & h & _ & _ & ->).
    eauto.
Qed.

(** ** The sign of a parsed number *)

Lemma shr_1_nonneg mrs : (0 ≤ shr_m mrs)%Z → (0 ≤ shr_m (shr_1 mrs))%Z.
Proof. destruct mrs as [[|[p|p|]|p] r s]; simpl; lia. Qed.

Lemma iter_pos_preserves {A} (P : A → Prop) (f : A → A) :
  (∀ x, P x → P (f x)) → ∀ p x, P x → P (SpecFloat.iter_pos f p x).
Proof.
  intros Hf. induction p as [p IH|p IH|]; intros x Hx; simpl; auto.
Qed.

Lemma shr_fexp_nonneg m e l :
  (0 ≤ m)%Z → (0 ≤ shr_m (fst (shr_fexp prec emax m e l)))%Z.
Proof.
  intros Hm. unfold shr_fexp, shr.
  assert (H0 : (0 ≤ shr_m (shr_record_of_loc m l))%Z)
    by (destruct l as [|[]]; exact Hm).
  destruct (_ - e)%Z; simpl; try exact H0.
  now apply (iter_pos_preserves (λ mrs, (0 ≤ shr_m mrs)%Z) shr_1 shr_1_nonneg).
Qed.

Lemma round_nearest_even_nonneg mx lx :
  (0 ≤ mx)%Z → (0 ≤ round_nearest_even mx lx)%Z.
Proof.
  intros H. destruct lx as [|[]]; simpl; try destruct (Z.even mx); lia.
Qed.

Lemma binary_round_aux_signed sx mx ex lx :
  (0 ≤ mx)%Z → signed sx (binary_round_aux prec emax sx mx ex lx).
Proof.
  intros Hm. unfold binary_round_aux.
  pose proof (shr_fexp_nonneg mx ex lx Hm) as H1.
  destruct (shr_fexp prec emax mx ex lx) as [mrs' e']. simpl in H1.
  pose proof (shr_fexp_nonneg _ e' loc_Exact
                (round_nearest_even_nonneg _ (loc_of_shr_record mrs') H1)) as H2.
  destruct (shr_fexp prec emax _ e' loc_Exact) as [mrs'' e'']. simpl in H2.
  destruct (shr_m mrs''); simpl; [reflexivity | | lia].
  now destruct (_ <=? _)%Z.
Qed.

Lemma number_of_decimal_signed neg m e : signed neg (number_of_decimal neg m e).
Proof.
  unfold number_of_decimal. destruct m as [|p]; [reflexivity|].
  destruct (0 <=? e)%Z eqn:He.
  - unfold binary_round. destruct (shl_align _ _ _) as [mz ez].
    now apply binary_round_aux_signed.
  - unfold SFdiv_core_binary.
    set (m' := match _ with Zpos _ => _ | Z0 => _ | Zneg _ => _ end).
    assert (Hm' : (0 ≤ m')%Z).
    { subst m'. destruct (_ - _)%Z; try lia. apply Z.shiftl_nonneg. lia. }
    assert (Hd : (0 < 10 ^ (- e))%Z) by (apply Z.pow_pos_nonneg; lia).
    pose proof (Z.div_pos m' _ Hm' Hd) as Hq. unfold Z.div in Hq.
    destruct (Z.div_eucl m' (10 ^ (- e))) as [q r].
    now apply binary_round_aux_signed.
Qed.

Lemma signed_nonnegative x : signed false x → nonnegative x = true.
Proof. destruct x as [s|s| |s m e]; simpl; try tauto; now intros ->. Qed.

Lemma read_sign_minus t r : read_sign t = (true, r) → t = 45 :: r.
Proof.
  destruct t as [|c t]; simpl; [discriminate|].
  destruct (N.eqb_spec c 45) as [->|_]; [now intros [= ->]|].
  now destruct (c =? 43).
Qed.

(** [parseFloat] gives a negative number only for a text that starts,
    after its white space, with a minus sign. *)
Lemma parseFloat_sign s :
  nonnegative (parseFloat s) = false →
  isNaN (parseFloat s) = true ∨ ∃ r, trimStart s = 45 :: r.
Proof.
  unfold parseFloat. destruct (read_sign (trimStart s)) as [[|] t1] eqn:E.
  - intros _. right. exists t1. now apply read_sign_minus.
  - destruct (startsWith _ t1); [discriminate|].
    destruct (span is_digit t1) as [int t2].
    destruct (read_fraction int t2) as [frac t3].
    intros H. left.
    destruct int, frac; try reflexivity;
      now rewrite signed_nonnegative in H by apply number_of_decimal_signed.
Qed.

Lemma trimStart_trim s : trimStart (trim s) = trim s.
Proof.
  unfold trim. destruct (trimStart_head s) as [E | (c & r & E & Hc)]; rewrite E.
  - reflexivity.
  - destruct (trimEnd_head c r Hc) as [r' ->]. now apply trimStart_fixed.
Qed.

(** [parseAmount] gives a negative number only when the cleaned text of
    the cell starts with a minus sign. *)
Lemma parseAmount_sign value :
  nonnegative (parseAmount value) = false →
  ∃ cell r, value = Some cell ∧ amount_text cell = 45 :: r.
Proof.
  destruct value as [cell|]; [|discriminate].
  rewrite parseAmount_refines. unfold spec_parseAmount. intros H.
  exists cell. destruct (isNaN (parseFloat (amount_text cell))) eqn:En;
    [discriminate|].
  apply parseFloat_sign in H as [H | [r H]]; [congruence|].
  exists r. split; [reflexivity|].
  unfold amount_text in *. now rewrite trimStart_trim in H.
Qed.

(** ** Field normalizer *)

Lemma parseDate_nil : parseDate [] = None.
Proof. reflexivity. Qed.

Lemma normalizeTransaction_None raw headers calls :
  normalizeTransaction raw headers calls = None ↔
  default [] (prop raw (dateKey headers)) = []
  ∨ default [] (prop raw (descKey headers)) = [].
Proof.
  unfold normalizeTransaction.
  destruct (default [] (prop raw (dateKey headers)));
    destruct (default [] (prop raw (descKey headers)));
    split; auto; try discriminate; intros [?|?]; discriminate.
Qed.

Lemma normalizeTransaction_fields raw headers calls t :
  normalizeTransaction raw headers calls = Some t →
  id t = generateId calls
  ∧ date t = parseDate (default [] (prop raw (dateKey headers)))
  ∧ valueDate t = parseDate (default [] (prop raw (valueDateKey headers)))
  ∧ description t = cleanDescription (default [] (prop raw (descKey headers)))
  ∧ debit t = parseAmount (prop raw (debitKey headers))
  ∧ credit t = parseAmount (prop raw (creditKey headers))
  ∧ balance t = parseAmount (prop raw (balanceKey headers)).
Proof.
  unfold normalizeTransaction.
  destruct (default [] (prop raw (dateKey headers))); [discriminate|].
  destruct (default [] (prop raw (descKey headers))); [discriminate|].
  intros H. apply (inj Some) in H. rewrite <- H.
  cbn [id date valueDate description debit credit balance].
  repeat split.
  now destruct (prop raw (valueDateKey headers)) as [[|? ?]|].
Qed.

Lemma parseAmount_unparseable cell :
  parseFloat (amount_text cell) = S754_nan → parseAmount (Some cell) = zero.
Proof.
  intros E. rewrite parseAmount_refines. unfold spec_parseAmount. now rewrite E.
Qed.

(** C2. [normalizeTransaction] returns [null] exactly when the resolved
    date string or the resolved description string is empty; otherwise a
    transaction is emitted, in which a date that does not parse is absent,
    a value date that does not parse is absent, and a debit, credit or
    balance cell that does not parse is 0; a row for which it returns
    [null] adds nothing to the transactions and the loop goes on. *)
Theorem normalizeTransaction_rejection (raw : gmap str str)
    (headers : list str) (calls : nat) :
  let dateStr := default [] (prop raw (dateKey headers)) in
  let descStr := default [] (prop raw (descKey headers)) in
  (normalizeTransaction raw headers calls = None ↔ dateStr = [] ∨ descStr = [])
  ∧ (dateStr ≠ [] → descStr ≠ [] →
     ∃ t, normalizeTransaction raw headers calls = Some t
          ∧ date t = parseDate dateStr
          ∧ (parseDate dateStr = None → date t = None)
          ∧ (parseDate (default [] (prop raw (valueDateKey headers))) = None →
             valueDate t = None)
          ∧ (∀ cell, prop raw (debitKey headers) = Some cell →
                     parseFloat (amount_text cell) = S754_nan → debit t = zero)
          ∧ (∀ cell, prop raw (creditKey headers) = Some cell →
                     parseFloat (amount_text cell) = S754_nan → credit t = zero)
          ∧ (∀ cell, prop raw (balanceKey headers) = Some cell →
                     parseFloat (amount_text cell) = S754_nan → balance t = zero))
  ∧ (∀ line rest transactions,
       forallb is_empty (map trim (parseTabSeparatedLine line)) = false →
       raw = fill headers 0
               (pad headers (map trim (parseTabSeparatedLine line))) ∅ →
       normalizeTransaction raw headers calls = None →
       rows headers (line :: rest) transactions calls
       = rows headers rest transactions calls).
Proof.
  cbv zeta. split; [apply normalizeTransaction_None|]. split;
    [|intros line rest transactions Hne -> Hnone; cbn [rows];
      now rewrite Hne, Hnone].
  intros Hdate Hdesc.
  destruct (normalizeTransaction raw headers calls) as [t|] eqn:E.
  - destruct (normalizeTransaction_fields _ _ _ _ E)
      as (_ & Hd & Hv & _ & Hdeb & Hcre & Hbal).
    exists t. repeat split; try congruence.
    + intros cell Hc Hn. rewrite Hdeb, Hc. now apply parseAmount_unparseable.
    + intros cell Hc Hn. rewrite Hcre, Hc. now apply parseAmount_unparseable.
    + intros cell Hc Hn. rewrite Hbal, Hc. now apply parseAmount_unparseable.
  - apply normalizeTransaction_None in E as [?|?]; contradiction.
Qed.

(** Every transaction of the loop was there before or comes out of
    [normalizeTransaction]. *)
Lemma rows_elem headers lines : ∀ transactions calls t,
  t ∈ rows headers lines transactions calls →
  t ∈ transactions ∨ ∃ raw k, normalizeTransaction raw headers k = Some t.
Proof.
  induction lines as [|line lines IH]; intros transactions calls t; simpl.
  - auto.
  - destruct (forallb is_empty _); [apply IH|].
    destruct (normalizeTransaction _ headers calls) as [nt|] eqn:E; [|apply IH].
    intros [H|H]%IH; [|now right].
    apply elem_of_app in H as [H|H]; [now left|].
    apply list_elem_of_singleton in H as ->. right. eauto.
Qed.

Lemma parseTSV_elem content transactions t :
  parseTSV content = Return transactions → t ∈ transactions →
  ∃ raw headers k, normalizeTransaction raw headers k = Some t.
Proof.
  unfold parseTSV. destruct (_ <? _)%nat; [discriminate|].
  destruct (findHeaderRow _) as [[i h]|]; [|discriminate].
  destruct (i =? -1)%Z; [discriminate|]. intros [= <-] Ht.
  apply rows_elem in Ht as [Ht | (raw & k & Ht)].
  - now apply not_elem_of_nil in Ht.
  - eauto.
Qed.

(** Every transaction of the loop was there before or is the transaction
    of one of the lines. *)
Lemma rows_elem_line headers lines : ∀ transactions calls t,
  t ∈ rows headers lines transactions calls →
  t ∈ transactions
  ∨ ∃ line k, line ∈ lines
      ∧ normalizeTransaction
          (fill headers 0
             (pad headers (map trim (parseTabSeparatedLine line))) ∅)
          headers k = Some t.
Proof.
  induction lines as [|line lines IH]; intros transactions calls t; simpl.
  - auto.
  - assert (Hnext : ∀ ts k, t ∈ rows headers lines ts k →
              t ∈ ts ∨ ∃ line0 k0, line0 ∈ line :: lines
                ∧ normalizeTransaction
                    (fill headers 0
                       (pad headers (map trim (parseTabSeparatedLine line0))) ∅)
                    headers k0 = Some t).
    { intros ts k [H | (l & k0 & Hl & H)]%IH; [now left | right].
      exists l, k0. split; [now right | exact H]. }
    destruct (forallb is_empty _); [apply Hnext|].
    destruct (normalizeTransaction _ headers calls) as [nt|] eqn:E;
      [|apply Hnext].
    intros [H|H]%Hnext; [|now right].
    apply elem_of_app in H as [H|H]; [now left|].
    apply list_elem_of_singleton in H as ->. right.
    exists line, calls. split; [now left | exact E].
Qed.

Lemma parseTSV_elem_line content transactions t :
  parseTSV content = Return transactions → t ∈ transactions →
  ∃ headerIndex headers line k,
    findHeaderRow (lines_of content) = Some (headerIndex, headers)
    ∧ line ∈ drop (Z.to_nat (headerIndex + 1)) (lines_of content)
    ∧ normalizeTransaction
        (fill headers 0
           (pad headers (map trim (parseTabSeparatedLine line))) ∅)
        headers k = Some t.
Proof.
  unfold parseTSV. destruct (_ <? _)%nat; [discriminate|].
  destruct (findHeaderRow _) as [[i h]|]; [|discriminate].
  destruct (i =? -1)%Z; [discriminate|]. intros [= <-] Ht.
  apply rows_elem_line in Ht as [Ht | (line & k & Hl & Ht)].
  - now apply not_elem_of_nil in Ht.
  - exists i, h, line, k. auto.
Qed.

(** C9, amended. Every transaction of the parser is the transaction of one
    of the lines below the header row; its debit is the parsed debit cell
    of that line and is non-negative unless the cleaned text of that cell
    starts with a minus sign, and so is its credit with the credit cell. *)
Theorem parseTSV_amount_signs content transactions t :
  parseTSV content = Return transactions → t ∈ transactions →
  ∃ headerIndex headers line calls,
    findHeaderRow (lines_of content) = Some (headerIndex, headers)
    ∧ line ∈ drop (Z.to_nat (headerIndex + 1)) (lines_of content)
    ∧ let raw := fill headers 0
                   (pad headers (map trim (parseTabSeparatedLine line))) ∅ in
      normalizeTransaction raw headers calls = Some t
      ∧ debit t = parseAmount (prop raw (debitKey headers))
      ∧ credit t = parseAmount (prop raw (creditKey headers))
      ∧ (nonnegative (debit t) = true
         ∨ ∃ cell r, prop raw (debitKey headers) = Some cell
                     ∧ debit t = parseAmount (Some cell)
                     ∧ amount_text cell = 45 :: r)
      ∧ (nonnegative (credit t) = true
         ∨ ∃ cell r, prop raw (creditKey headers) = Some cell
                     ∧ credit t = parseAmount (Some cell)
                     ∧ amount_text cell = 45 :: r).
Proof.
  intros Hp Ht.
  destruct (parseTSV_elem_line _ _ _ Hp Ht) as (i & headers & line & k & Hf & Hl & E).
  exists i, headers, line, k. split; [exact Hf|]. split; [exact Hl|].
  cbv zeta. split; [exact E|].
  destruct (normalizeTransaction_fields
              _ _ _ _ E) as (_ & _ & _ & _ & Hdeb & Hcre & _).
  split; [exact Hdeb|]. split; [exact Hcre|]. split.
  - destruct (nonnegative (debit t)) eqn:Hn; [now left | right].
    rewrite Hdeb in Hn. apply parseAmount_sign in Hn as (cell & r & Hc & Hr).
    exists cell, r. split; [exact Hc|]. split; [now rewrite Hdeb, Hc | exact Hr].
  - destruct (nonnegative (credit t)) eqn:Hn; [now left | right].
    rewrite Hcre in Hn. apply parseAmount_sign in Hn as (cell & r & Hc & Hr).
    exists cell, r. split; [exact Hc|]. split; [now rewrite Hcre, Hc | exact Hr].
Qed.

(** ** Line normalizer *)

Lemma nmlf_loop_length s : ∀ q, length (nmlf_loop s q) = length s.
Proof.
  induction s as [|c s IH]; intros q; simpl; [reflexivity|].
  destruct (c =? QUOTE); [|destruct ((c =? LF) && q)]; simpl; now rewrite IH.
Qed.

Lemma nmlf_loop_units s : ∀ q i c,
  nmlf_loop s q !! i = Some c →
  s !! i = Some c ∨ (s !! i = Some LF ∧ c = 32).
Proof.
  induction s as [|a s IH]; intros q i c; simpl; [discriminate|].
  destruct (a =? QUOTE).
  - destruct i as [|i]; simpl; [intros [= <-]; auto | apply IH].
  - destruct (N.eqb_spec a LF) as [->|Ha]; [destruct q|]; simpl;
      (destruct i as [|i]; simpl; [intros [= <-]; auto | apply IH]).
Qed.

Lemma nmlf_loop_idem s : ∀ q, nmlf_loop (nmlf_loop s q) q = nmlf_loop s q.
Proof.
  induction s as [|a s IH]; intros q; simpl; [reflexivity|].
  destruct (N.eqb_spec a QUOTE) as [->|Ha].
  - simpl. now rewrite IH.
  - destruct (N.eqb_spec a LF) as [->|Hl]; simpl.
    + destruct q; simpl; now rewrite IH.
    + apply N.eqb_neq in Ha, Hl. rewrite Ha, Hl. simpl. now rewrite IH.
Qed.

Lemma nmlf_loop_plain s : QUOTE ∉ s → nmlf_loop s false = s.
Proof.
  induction s as [|a s IH]; [reflexivity|].
  intros [Ha Hs]%not_elem_of_cons. simpl.
  apply not_eq_sym, N.eqb_neq in Ha. rewrite Ha, andb_false_r.
  now rewrite IH.
Qed.

(** X1. The normalizer keeps the length of the text and changes nothing
    but line feeds, which become spaces; a text without quotes is left as
    it is; normalizing twice is normalizing once. *)
Theorem normalizeMultiLineFields_shape content :
  length (normalizeMultiLineFields content) = length content
  ∧ (∀ i c, normalizeMultiLineFields content !! i = Some c →
            content !! i = Some c ∨ (content !! i = Some LF ∧ c = 32))
  ∧ (QUOTE ∉ content → normalizeMultiLineFields content = content)
  ∧ normalizeMultiLineFields (normalizeMultiLineFields content)
    = normalizeMultiLineFields content.
Proof.
  unfold normalizeMultiLineFields. repeat split.
  - apply nmlf_loop_length.
  - apply nmlf_loop_units.
  - apply nmlf_loop_plain.
  - apply nmlf_loop_idem.
Qed.

Lemma normalizeMultiLineFields_shape_witness :
  normalizeMultiLineFields (u "Date" ++ LF :: u "1/1/2024")
  = u "Date" ++ LF :: u "1/1/2024".
Proof.
  apply normalizeMultiLineFields_shape. by_compute.
Defined.

Lemma nmlf_loop_line_feeds s : ∀ q pre post,
  nmlf_loop s q = pre ++ LF :: post → quote_state q pre = false.
Proof.
  induction s as [|a s IH]; intros q pre post; simpl.
  - now destruct pre.
  - destruct (N.eqb_spec a QUOTE) as [->|Ha].
    + destruct pre as [|b pre]; simpl; [discriminate|].
      intros [= <- H]. now apply IH in H.
    + destruct (N.eqb_spec a LF) as [->|Hl]; simpl.
      * destruct q; simpl.
        -- destruct pre as [|b pre]; simpl; [discriminate|].
           intros [= <- H]. now apply IH in H.
        -- destruct pre as [|b pre]; simpl; [reflexivity|].
           intros [= <- H]. now apply IH in H.
      * destruct pre as [|b pre]; simpl; [congruence|].
        intros [= <- H]. apply N.eqb_neq in Ha. rewrite Ha. now apply IH in H.
Qed.

Lemma nmlf_loop_kept s : ∀ q pre post,
  s = pre ++ LF :: post → quote_state q pre = false →
  ∃ pre' post', nmlf_loop s q = pre' ++ LF :: post' ∧ length pre' = length pre.
Proof.
  intros q pre. revert s q. induction pre as [|b pre IH]; intros s q post -> Hq.
  - simpl in Hq. subst q. simpl. exists [], (nmlf_loop post false). now split.
  - simpl in Hq.
    destruct (IH _ _ post eq_refl Hq) as (pre' & post' & E' & Hl).
    simpl. destruct (b =? QUOTE).
    + exists (b :: pre'), post'. rewrite E'. simpl. now rewrite Hl.
    + destruct ((b =? LF) && q).
      * exists (32 :: pre'), post'. rewrite E'. simpl. now rewrite Hl.
      * exists (b :: pre'), post'. rewrite E'. simpl. now rewrite Hl.
Qed.

(** X2. Every line feed that the normalizer leaves is outside quotes (an
    even number of quote characters comes before it), and every line feed
    outside quotes is left where it was. *)
Theorem normalizeMultiLineFields_line_feeds content :
  (∀ pre post, normalizeMultiLineFields content = pre ++ LF :: post →
               quote_state false pre = false)
  ∧ (∀ pre post, content = pre ++ LF :: post → quote_state false pre = false →
       ∃ pre' post', normalizeMultiLineFields content = pre' ++ LF :: post'
                     ∧ length pre' = length pre).
Proof.
  split; [apply nmlf_loop_line_feeds | apply nmlf_loop_kept].
Qed.

Lemma normalizeMultiLineFields_line_feeds_witness :
  quote_state false (u "a") = false
  ∧ ∃ pre' post', normalizeMultiLineFields (u "a" ++ LF :: u "b")
                  = pre' ++ LF :: post' ∧ length pre' = 1%nat.
Proof.
  split.
  - apply (proj1 (normalizeMultiLineFields_line_feeds (u "a" ++ LF :: u "b"))
             (u "a") (u "b")). reflexivity.
  - apply (proj2 (normalizeMultiLineFields_line_feeds (u "a" ++ LF :: u "b"))
             (u "a") (u "b")); reflexivity.
Defined.

(** ** Tokenizer and [join] *)

Lemma tsl_loop_retrim line :
  map trim (parseTabSeparatedLine line) = parseTabSeparatedLine line.
Proof.
  assert (H : Forall (λ f, trim f = f ∧ QUOTE ∉ f) (parseTabSeparatedLine line)).
  { apply tsl_loop_fields; [constructor | apply not_elem_of_nil]. }
  induction H as [|f fs [Hf _] _ IH]; simpl; [reflexivity|].
  now rewrite Hf, IH.
Qed.

(** The loop over a written cell leaves the cell as the current field. *)
Lemma tsl_loop_written cell rest :
  QUOTE ∉ snd cell → (fst cell = false → TAB ∉ snd cell) →
  tsl_loop (written cell ++ rest) [] [] false
  = tsl_loop rest [] (snd cell) false.
Proof.
  destruct cell as [[|] body]; unfold written; simpl; intros Hq Ht.
  - rewrite <- app_assoc. rewrite tsl_loop_quoted by exact Hq. reflexivity.
  - now rewrite tsl_loop_plain by auto.
Qed.

Lemma parseTabSeparatedLine_last cell :
  QUOTE ∉ snd cell → (fst cell = false → TAB ∉ snd cell) →
  parseTabSeparatedLine (written cell) = [trim (snd cell)].
Proof.
  intros Hq Ht. unfold parseTabSeparatedLine.
  rewrite <- (app_nil_r (written cell)). now rewrite tsl_loop_written.
Qed.

Lemma parseTabSeparatedLine_cons cell rest :
  QUOTE ∉ snd cell → (fst cell = false → TAB ∉ snd cell) →
  parseTabSeparatedLine (written cell ++ TAB :: rest)
  = trim (snd cell) :: parseTabSeparatedLine rest.
Proof.
  intros Hq Ht. unfold parseTabSeparatedLine.
  rewrite tsl_loop_written by assumption. simpl. now rewrite tsl_loop_acc.
Qed.

Lemma parseTabSeparatedLine_cells (cells : list (bool * str)) :
  cells ≠ [] →
  Forall (λ cell, (QUOTE ∉ snd cell) ∧ (fst cell = false → TAB ∉ snd cell)) cells →
  parseTabSeparatedLine (join TAB (map written cells))
  = map (λ cell, trim (snd cell)) cells.
Proof.
  intros Hne Hcells.
  induction Hcells as [|cell cells [Hq Ht] Hcells IH]; [congruence|].
  destruct cells as [|cell2 cells].
  - simpl. now apply parseTabSeparatedLine_last.
  - change (join TAB (map written (cell :: cell2 :: cells)))
      with (written cell ++ TAB :: join TAB (map written (cell2 :: cells))).
    rewrite parseTabSeparatedLine_cons by assumption.
    rewrite IH by discriminate. reflexivity.
Qed.

(** X3. A row written as cells joined by tabs, each cell free of quotes
    and either free of tabs or written between quotes, reads back as its
    trimmed cells; and trimming the fields of any line again, as
    [parseTSV] and [findHeaderRow] do, changes nothing. *)
Theorem parseTabSeparatedLine_join (cells : list (bool * str)) :
  cells ≠ [] →
  Forall (λ cell, (QUOTE ∉ snd cell) ∧ (fst cell = false → TAB ∉ snd cell)) cells →
  parseTabSeparatedLine (join TAB (map written cells))
  = map (λ cell, trim (snd cell)) cells
  ∧ (∀ line, map trim (parseTabSeparatedLine line) = parseTabSeparatedLine line).
Proof.
  intros Hne Hcells. split; [|apply tsl_loop_retrim].
  now apply parseTabSeparatedLine_cells.
Qed.

Lemma parseTabSeparatedLine_join_witness :
  parseTabSeparatedLine
    (u " 01/04/2024" ++ TAB :: (QUOTE :: (u "Rent" ++ TAB :: u "May ") ++ [QUOTE])
       ++ TAB :: u "")
  = [u "01/04/2024"; u "Rent" ++ TAB :: u "May"; u ""].
Proof.
  apply (parseTabSeparatedLine_join
           [(false, u " 01/04/2024"); (true, u "Rent" ++ TAB :: u "May ");
            (false, u "")]); [discriminate|].
  repeat constructor; try by_compute; discriminate.
Defined.

(** ** More on the pattern matcher *)

Lemma run_take cls max s : forallb cls (take (run cls max s) s) = true.
Proof.
  revert s. induction max as [|max IH]; intros [|c s]; simpl; try reflexivity.
  destruct (cls c) eqn:E; simpl; [|reflexivity]. now rewrite E, IH.
Qed.

(** What a successful match of a repetition before a disjoint repetition
    says of the string. *)
Lemma match_rep_rep_inv ci cap cls min max cap2 cls2 min2 max2 atoms s caps r' :
  (∀ c, cls c = true → cls2 c = false) → (1 ≤ min2)%nat →
  match_atoms ci (Rep cap cls min max :: Rep cap2 cls2 min2 max2 :: atoms) s
  = Some (caps, r') →
  ∃ m rest caps',
    s = m ++ rest ∧ forallb cls m = true ∧ (min ≤ length m)%nat
    ∧ (length m ≤ default (length s) max)%nat
    ∧ match_atoms ci (Rep cap2 cls2 min2 max2 :: atoms) rest = Some (caps', r')
    ∧ caps = (if cap then m :: caps' else caps').
Proof.
  intros Hdisj Hmin2. rewrite match_rep_rep by assumption. cbv zeta.
  set (n := run cls (default (length s) max) s).
  destruct (n <? min)%nat eqn:Hn; [discriminate|].
  destruct (match_atoms ci _ (drop n s)) as [[caps' r'']|] eqn:E; [|discriminate].
  simpl. intros [= <- <-]. exists (take n s), (drop n s), caps'.
  pose proof (run_le cls (default (length s) max) s) as [H1 H2]. fold n in H1, H2.
  apply Nat.ltb_ge in Hn.
  repeat split; auto.
  - now rewrite take_drop.
  - apply run_take.
  - rewrite length_take. lia.
  - rewrite length_take. lia.
Qed.

Lemma match_rep_eos_inv ci cap cls min max s caps r' :
  match_atoms ci [Rep cap cls min max; Eos] s = Some (caps, r') →
  forallb cls s = true ∧ (min ≤ length s)%nat
  ∧ (length s ≤ default (length s) max)%nat
  ∧ caps = (if cap then [s] else []) ∧ r' = [].
Proof.
  rewrite match_rep_eos. cbv zeta.
  set (n := run cls (default (length s) max) s).
  destruct (n <? min)%nat eqn:Hn; [discriminate|].
  destruct (drop n s) eqn:E; [|discriminate].
  pose proof (run_le cls (default (length s) max) s) as [H1 H2]. fold n in H1, H2.
  apply drop_nil_inv in E. assert (n = length s) as Hlen by lia.
  pose proof (run_take cls (default (length s) max) s) as Ht. fold n in Ht.
  rewrite Hlen, take_ge in Ht by lia. rewrite Hlen, take_ge by lia.
  intros [= <- <-]. apply Nat.ltb_ge in Hn. repeat split; auto; lia.
Qed.

(** What a date pattern of five parts says of a string it matches: the
    three captures are runs of their classes, within their bounds. *)
Lemma match_five_inv A S1 B S2 C a1 a2 k1 K1 b1 b2 k2 K2 c1 c2 s caps :
  (∀ c, A c = true → S1 c = false) → (∀ c, S1 c = true → B c = false) →
  (∀ c, B c = true → S2 c = false) → (∀ c, S2 c = true → C c = false) →
  (1 ≤ k1)%nat → (1 ≤ b1)%nat → (1 ≤ k2)%nat → (1 ≤ c1)%nat →
  match_anchored
    [ Rep true A a1 (some a2); Rep false S1 k1 K1;
      Rep true B b1 (some b2); Rep false S2 k2 K2;
      Rep true C c1 (some c2); Eos ] s = Some caps →
  ∃ d sp1 m sp2 y,
    caps = [d; m; y] ∧ s = d ++ sp1 ++ m ++ sp2 ++ y
    ∧ forallb A d = true ∧ (a1 ≤ length d ≤ a2)%nat
    ∧ forallb S1 sp1 = true ∧ (k1 ≤ length sp1)%nat
    ∧ (length sp1 ≤ default (length (sp1 ++ m ++ sp2 ++ y)) K1)%nat
    ∧ forallb B m = true ∧ (b1 ≤ length m ≤ b2)%nat
    ∧ forallb S2 sp2 = true ∧ (k2 ≤ length sp2)%nat
    ∧ (length sp2 ≤ default (length (sp2 ++ y)) K2)%nat
    ∧ forallb C y = true ∧ (c1 ≤ length y ≤ c2)%nat.
Proof.
  intros HAS HSB HBS HSC Hk1 Hb1 Hk2 Hc1. unfold match_anchored.
  destruct (match_atoms _ _ s) as [[caps0 r0]|] eqn:E; [|discriminate].
  simpl. intros [= <-].
  apply match_rep_rep_inv in E as (d & t1 & caps1 & -> & Hd & Hd1 & Hd2 & E & ->);
    [|assumption|assumption].
  apply match_rep_rep_inv in E as (sp1 & t2 & caps2 & -> & Hp & Hp1 & Hp2 & E & ->);
    [|assumption|assumption].
  apply match_rep_rep_inv in E as (m & t3 & caps3 & -> & Hm & Hm1 & Hm2 & E & ->);
    [|assumption|assumption].
  apply match_rep_rep_inv in E as (sp2 & y & caps4 & -> & Hq & Hq1 & Hq2 & E & ->);
    [|assumption|assumption].
  apply match_rep_eos_inv in E as (Hy & Hy1 & Hy2 & -> & ->).
  rewrite default_some in *.
  exists d, sp1, m, sp2, y. repeat split; auto.
Qed.

(** A repetition that fails right after the run of the first class. *)
Lemma match_second_none capA A a1 a2 capS S1 k1 K1 atoms (d : str) c rest :
  (∀ c, A c = true → S1 c = false) → (1 ≤ k1)%nat →
  forallb A d = true → (length d ≤ a2)%nat →
  (length d = a2 ∨ A c = false) → S1 c = false →
  match_atoms false (Rep capA A a1 (some a2) :: Rep capS S1 k1 K1 :: atoms)
    (d ++ c :: rest) = None.
Proof.
  intros HAS Hk1 Hd Hlen Hstop Hc.
  rewrite match_rep_rep by assumption. rewrite default_some. cbv zeta.
  rewrite run_app; [| assumption | assumption
                    | destruct Hstop; [now left | now right]].
  destruct (_ <? _)%nat; [reflexivity|].
  rewrite drop_app_length. now rewrite match_rep_none.
Qed.

(** A run of the first class and a run of separators, before a repetition
    that must take a unit of a third class. *)
Lemma match_prefix_run A S1 B a1 a2 k1 K1 capB b1 b2 atoms (d sp rest : str) :
  (∀ c, A c = true → S1 c = false) → (∀ c, S1 c = true → B c = false) →
  forallb A d = true → (a1 ≤ length d ≤ a2)%nat →
  forallb S1 sp = true → (1 ≤ k1)%nat → (k1 ≤ length sp)%nat →
  (length sp ≤ default (length (sp ++ rest)) K1)%nat →
  (length sp = default (length (sp ++ rest)) K1
   ∨ match rest with [] => True | c :: _ => S1 c = false end) →
  (1 ≤ b1)%nat →
  match_atoms false
    (Rep true A a1 (some a2) :: Rep false S1 k1 K1 :: Rep capB B b1 b2 :: atoms)
    (d ++ sp ++ rest)
  = with_capture true d (match_atoms false (Rep capB B b1 b2 :: atoms) rest).
Proof.
  intros HAS HSB Hd Hdl Hsp Hk1 Hspl Hmax Hstop Hb1.
  destruct sp as [|s1 sp']; [simpl in Hspl; lia|].
  assert (Hs1 : S1 s1 = true) by (simpl in Hsp; now apply andb_true_iff in Hsp).
  rewrite match_rep_rep by assumption. rewrite default_some. cbv zeta.
  rewrite run_app;
    [| assumption | lia | right; simpl; now apply (disjoint_false A S1)].
  replace (length d <? a1)%nat with false by (symmetry; apply Nat.ltb_ge; lia).
  rewrite take_app_length, drop_app_length.
  rewrite match_rep_rep by assumption. cbv zeta.
  rewrite run_app by assumption.
  replace (length (s1 :: sp') <? k1)%nat with false
    by (symmetry; apply Nat.ltb_ge; lia).
  rewrite take_app_length, drop_app_length.
  now destruct (match_atoms _ _ rest) as [[? ?]|].
Qed.

Lemma forallb_head (cls : N → bool) (s : str) :
  forallb cls s = true → match s with [] => True | c :: _ => cls c = true end.
Proof. destruct s; simpl; [trivial | now intros [? _]%andb_true_iff]. Qed.

(** The five-part pattern on a string of that shape, with runs of
    separators. *)
Lemma match_five_runs A S1 B S2 C a1 a2 k1 K1 b1 b2 k2 K2 c1 c2
    (d sp1 m sp2 y : str) :
  (∀ c, A c = true → S1 c = false) → (∀ c, S1 c = true → B c = false) →
  (∀ c, B c = true → S2 c = false) → (∀ c, S2 c = true → C c = false) →
  forallb A d = true → (a1 ≤ length d ≤ a2)%nat →
  forallb S1 sp1 = true → (1 ≤ k1)%nat → (k1 ≤ length sp1)%nat →
  (length sp1 ≤ default (length (sp1 ++ m ++ sp2 ++ y)) K1)%nat →
  forallb B m = true → (1 ≤ b1)%nat → (b1 ≤ length m ≤ b2)%nat →
  forallb S2 sp2 = true → (1 ≤ k2)%nat → (k2 ≤ length sp2)%nat →
  (length sp2 ≤ default (length (sp2 ++ y)) K2)%nat →
  forallb C y = true → (1 ≤ c1)%nat → (c1 ≤ length y ≤ c2)%nat →
  match_anchored
    [ Rep true A a1 (some a2); Rep false S1 k1 K1;
      Rep true B b1 (some b2); Rep false S2 k2 K2;
      Rep true C c1 (some c2); Eos ] (d ++ sp1 ++ m ++ sp2 ++ y)
  = Some [d; m; y].
Proof.
  intros HAS HSB HBS HSC Hd Hdl Hp1 Hk1 Hp1l Hp1m Hm Hb1 Hml
    Hp2 Hk2 Hp2l Hp2m Hy Hc1 Hyl.
  unfold match_anchored.
  rewrite match_prefix_run; try assumption.
  2:{ right. destruct m as [|c m']; [simpl in Hml; lia|]. simpl.
      apply (disjoint_false S1 B); [assumption|].
      simpl in Hm. now apply andb_true_iff in Hm. }
  rewrite match_prefix_run; try assumption.
  2:{ right. destruct y as [|c y']; [simpl in Hyl; lia|].
      apply (disjoint_false S2 C); [assumption|].
      simpl in Hy. now apply andb_true_iff in Hy. }
  rewrite match_rep_eos. rewrite default_some. cbv zeta.
  assert (Hrun : run C c2 y = length y).
  { rewrite <- (app_nil_r y) at 1. apply run_app; [assumption | lia | now right]. }
  rewrite Hrun.
  replace (length y <? c1)%nat with false by (symmetry; apply Nat.ltb_ge; lia).
  rewrite take_ge, drop_ge by lia. reflexivity.
Qed.

(** ** More on dates *)

Lemma parseDate_ends (d mid y : str) :
  forallb is_digit d = true → forallb is_digit y = true → d ≠ [] → y ≠ [] →
  parseDate (d ++ mid ++ y) = first_match date_formats (d ++ mid ++ y).
Proof.
  intros Hd Hy Hd0 Hy0.
  destruct (digits_ends d y mid Hd Hy Hd0 Hy0) as (c & z & Hh & Hl & Hc & Hz).
  apply (parseDate_fixed _ c z); auto with classes.
Qed.

Lemma letters_words (s : str) : forallb is_letter s = true → forallb is_word s = true.
Proof.
  induction s as [|c s IH]; simpl; [reflexivity|].
  intros [Hc Hs]%andb_true_iff. now rewrite (letter_word c Hc), IH.
Qed.

Lemma assoc_value key table v : assoc key table = Some v → In v (map snd table).
Proof.
  induction table as [|[k w] table IH]; simpl; [discriminate|].
  unfold str_eqb. case_bool_decide; [intros [= ->]; now left | right; auto].
Qed.

Lemma months_values key month :
  assoc key months = Some month →
  forallb is_digit month = true ∧ length month = 2%nat.
Proof.
  intros H%assoc_value.
  assert (Hv : Forall (λ v, forallb is_digit v = true ∧ length v = 2%nat)
                 (map snd months)) by (repeat constructor).
  rewrite Forall_forall in Hv. now apply list_elem_of_In, Hv in H.
Qed.

Lemma space_not_sep3 c : is_space c = true → is_sep3 c = false.
Proof. intros H. class_solver. Qed.

(** The form D-MMM-YYYY or D/MMM/YYYY. *)
Lemma parseDate_dmony4 (d mon y month : str) (s1 s2 : N) :
  forallb is_digit d = true → (1 ≤ length d ≤ 2)%nat →
  assoc (map lower_unit mon) months = Some month →
  forallb is_digit y = true → length y = 4%nat →
  is_sep2 s1 = true → is_sep2 s2 = true →
  parseDate (d ++ s1 :: mon ++ s2 :: y)
  = Some (y ++ u "-" ++ month ++ u "-" ++ padStart2 d).
Proof.
  intros Hd Hdl Hmon Hy Hyl Hs1 Hs2.
  destruct (months_letters _ _ Hmon) as [Hlen Hlet].
  pose proof (letters_words _ Hlet) as Hword.
  rewrite dmy_fixed; [| assumption | assumption | apply nonempty_length; lia
                      | apply nonempty_length; lia].
  unfold date_formats. cbn [first_match].
  destruct mon as [|a mon']; [discriminate|].
  assert (Ha : is_digit a = false).
  { simpl in Hlet. apply andb_true_iff in Hlet as [Ha _].
    now apply letter_not_digit. }
  unfold date_dmy4, re_dmy4. cbn [app].
  rewrite match_five_middle; auto with classes.
  unfold date_dmy2, re_dmy2.
  rewrite match_five_middle; auto with classes.
  unfold date_mon at 1, re_d_mon_y4.
  rewrite match_spaced_none; auto with classes.
  change (a :: mon' ++ s2 :: y) with ((a :: mon') ++ s2 :: y).
  unfold date_mon at 1, re_dmony4.
  rewrite match_five; auto with classes; try lia.
  rewrite Hyl. cbn [Nat.ltb Nat.leb]. now rewrite Hmon.
Qed.

(** The form D MMM YYYY, with runs of white space between the parts. *)
Lemma parseDate_d_mon_y4 (d sp1 mon sp2 y month : str) :
  forallb is_digit d = true → (1 ≤ length d ≤ 2)%nat →
  forallb is_space sp1 = true → sp1 ≠ [] →
  assoc (map lower_unit mon) months = Some month →
  forallb is_space sp2 = true → sp2 ≠ [] →
  forallb is_digit y = true → length y = 4%nat →
  parseDate (d ++ sp1 ++ mon ++ sp2 ++ y)
  = Some (y ++ u "-" ++ month ++ u "-" ++ padStart2 d).
Proof.
  intros Hd Hdl Hp1 Hp10 Hmon Hp2 Hp20 Hy Hyl.
  destruct (months_letters _ _ Hmon) as [Hlen Hlet].
  pose proof (letters_words _ Hlet) as Hword.
  replace (d ++ sp1 ++ mon ++ sp2 ++ y) with (d ++ (sp1 ++ mon ++ sp2) ++ y)
    by (now rewrite <- !app_assoc).
  rewrite parseDate_ends; [| assumption | assumption | apply nonempty_length; lia
                           | apply nonempty_length; lia].
  replace (d ++ (sp1 ++ mon ++ sp2) ++ y) with (d ++ sp1 ++ mon ++ sp2 ++ y)
    by (now rewrite <- !app_assoc).
  unfold date_formats. cbn [first_match].
  destruct sp1 as [|c1 sp1']; [congruence|].
  assert (Hc1 : is_space c1 = true)
    by (simpl in Hp1; now apply andb_true_iff in Hp1).
  unfold date_dmy4, re_dmy4, match_anchored. cbn [app].
  rewrite match_second_none; auto using space_not_digit, space_not_sep3
    with classes; try lia.
  unfold date_dmy2, re_dmy2, match_anchored.
  rewrite match_second_none; auto using space_not_digit, space_not_sep3
    with classes; try lia.
  change (d ++ c1 :: sp1' ++ mon ++ sp2 ++ y)
    with (d ++ (c1 :: sp1') ++ mon ++ sp2 ++ y).
  unfold date_mon at 1, re_d_mon_y4. cbn [fmap option_fmap option_map].
  rewrite match_five_runs; auto with classes; try lia;
    try (cbn [default]; rewrite ?length_app; simpl; lia);
    try (destruct sp2; [congruence | simpl; lia]).
  cbn [length]. now rewrite Hmon.
Qed.

(** X4. The month-abbreviation forms with a four-digit year: one or two
    digits, a month name of the table in any case and four digits,
    separated by [-] or [/] or by runs of white space, give the year, the
    number of the month and the day padded to two digits. *)
Theorem parseDate_month_names (d mon y month : str) :
  forallb is_digit d = true → (1 ≤ length d ≤ 2)%nat →
  assoc (map lower_unit mon) months = Some month →
  forallb is_digit y = true → length y = 4%nat →
  (∀ s1 s2, is_sep2 s1 = true → is_sep2 s2 = true →
     parseDate (d ++ s1 :: mon ++ s2 :: y)
     = Some (y ++ u "-" ++ month ++ u "-" ++ padStart2 d))
  ∧ (∀ sp1 sp2, forallb is_space sp1 = true → sp1 ≠ [] →
       forallb is_space sp2 = true → sp2 ≠ [] →
       parseDate (d ++ sp1 ++ mon ++ sp2 ++ y)
       = Some (y ++ u "-" ++ month ++ u "-" ++ padStart2 d)).
Proof.
  intros Hd Hdl Hmon Hy Hyl. split.
  - intros s1 s2 Hs1 Hs2. now apply parseDate_dmony4.
  - intros sp1 sp2 Hp1 Hp10 Hp2 Hp20. now apply parseDate_d_mon_y4.
Qed.

Lemma parseDate_month_names_witness :
  parseDate (u "3/DEC/1999") = Some (u "1999-12-03")
  ∧ parseDate (u "01  Jan 2024") = Some (u "2024-01-01").
Proof.
  destruct (parseDate_month_names (u "3") (u "DEC") (u "1999") (u "12"))
    as [H1 _]; try first [reflexivity | simpl; lia].
  destruct (parseDate_month_names (u "01") (u "Jan") (u "2024") (u "01"))
    as [_ H2]; try first [reflexivity | simpl; lia].
  split.
  - apply (H1 47 47); reflexivity.
  - apply (H2 (u "  ") (u " ")); first [reflexivity | discriminate].
Defined.

Lemma padStart2_digits (x : str) :
  forallb is_digit x = true → (1 ≤ length x ≤ 2)%nat →
  forallb is_digit (padStart2 x) = true ∧ length (padStart2 x) = 2%nat.
Proof.
  intros Hx Hl. destruct x as [|a [|b [|c x]]]; simpl in Hl; try lia.
  - unfold padStart2. simpl in *. now rewrite Hx.
  - unfold padStart2. simpl in *. now rewrite Hx.
Qed.

Lemma fullYear_digits (y : str) :
  forallb is_digit y = true → length y = 2%nat →
  forallb is_digit (fullYear y) = true ∧ length (fullYear y) = 4%nat.
Proof.
  intros Hy Hl. unfold fullYear.
  destruct (50 <? parseInt y); rewrite forallb_app, length_app, Hy, Hl; now split.
Qed.

Lemma iso_shaped_intro (y m d : str) :
  forallb is_digit y = true → length y = 4%nat →
  forallb is_digit m = true → length m = 2%nat →
  forallb is_digit d = true → length d = 2%nat →
  iso_shaped (iso y m d).
Proof. intros. exists y, m, d. repeat split; assumption. Qed.

Lemma date_dmy4_shape cleaned r : date_dmy4 cleaned = Some r → iso_shaped r.
Proof.
  unfold date_dmy4, re_dmy4.
  destruct (match_anchored _ cleaned) as [caps|] eqn:E; [|discriminate].
  apply match_five_inv in E
    as (d & sp1 & m & sp2 & y & -> & _ & Hd & Hdl & _ & _ & _ & Hm & Hml
        & _ & _ & _ & Hy & Hyl); auto with classes.
  intros [= <-].
  destruct (padStart2_digits d Hd Hdl), (padStart2_digits m Hm Hml).
  apply iso_shaped_intro; auto; lia.
Qed.

Lemma date_dmy2_shape cleaned r : date_dmy2 cleaned = Some r → iso_shaped r.
Proof.
  unfold date_dmy2, re_dmy2.
  destruct (match_anchored _ cleaned) as [caps|] eqn:E; [|discriminate].
  apply match_five_inv in E
    as (d & sp1 & m & sp2 & y & -> & _ & Hd & Hdl & _ & _ & _ & Hm & Hml
        & _ & _ & _ & Hy & Hyl); auto with classes.
  intros [= <-].
  destruct (padStart2_digits d Hd Hdl), (padStart2_digits m Hm Hml).
  destruct (fullYear_digits y Hy); [lia|].
  apply iso_shaped_intro; auto.
Qed.

Lemma date_mon_shape re (full : bool) ylen cleaned r :
  month_pattern re ylen → (1 ≤ ylen)%nat →
  ylen = (if full then 4 else 2)%nat →
  date_mon re full cleaned = Some r → iso_shaped r.
Proof.
  intros (S & k & K & H1 & H2 & H3 & H4 & Hk & ->) Hylen ->.
  unfold date_mon.
  destruct (match_anchored _ cleaned) as [caps|] eqn:E; [|discriminate].
  apply match_five_inv in E
    as (d & sp1 & m & sp2 & y & -> & _ & Hd & Hdl & _ & _ & _ & Hm & Hml
        & _ & _ & _ & Hy & Hyl); auto; try lia.
  destruct (assoc _ months) as [month|] eqn:Em; [|discriminate].
  intros [= <-]. destruct (months_values _ _ Em).
  destruct (padStart2_digits d Hd Hdl).
  destruct full.
  - apply iso_shaped_intro; auto; lia.
  - destruct (fullYear_digits y Hy); [lia|]. apply iso_shaped_intro; auto.
Qed.

Lemma dash_is_45 c : is_dash c = true → c = 45.
Proof. unfold is_dash. apply N.eqb_eq. Qed.

Lemma date_iso_shape cleaned r : date_iso cleaned = Some r → iso_shaped r.
Proof.
  unfold date_iso, re_iso.
  destruct (match_anchored _ cleaned) as [caps|] eqn:E; [|discriminate].
  apply match_five_inv in E
    as (y & sp1 & m & sp2 & d & -> & -> & Hy & Hyl & Hp1 & Hp1l & Hp1m & Hm & Hml
        & Hp2 & Hp2l & Hp2m & Hd & Hdl); auto with classes.
  intros [= <-]. rewrite default_some in *.
  destruct sp1 as [|s1 [|? ?]]; simpl in Hp1l, Hp1m; try lia.
  destruct sp2 as [|s2 [|? ?]]; simpl in Hp2l, Hp2m; try lia.
  simpl in Hp1, Hp2. rewrite andb_true_r in Hp1, Hp2.
  apply dash_is_45 in Hp1 as ->. apply dash_is_45 in Hp2 as ->.
  exists y, m, d. repeat split; auto; lia.
Qed.

(** Every date that [parseDate] returns has the form YYYY-MM-DD. *)
Lemma parseDate_iso_shaped dateStr r : parseDate dateStr = Some r → iso_shaped r.
Proof.
  unfold parseDate. destruct dateStr as [|c0 s0]; [discriminate|].
  destruct (date_text (c0 :: s0)) as [|c cleaned'] eqn:Ec; [discriminate|].
  set (cleaned := c :: cleaned'). unfold date_formats. cbn [first_match].
  destruct (date_dmy4 cleaned) eqn:E1;
    [intros [= <-]; now apply date_dmy4_shape in E1|].
  destruct (date_dmy2 cleaned) eqn:E2;
    [intros [= <-]; now apply date_dmy2_shape in E2|].
  destruct (date_mon re_d_mon_y4 true cleaned) eqn:E3.
  { intros [= <-]. apply (date_mon_shape _ _ 4) in E3; auto.
    exists is_space, 1%nat, None. repeat split; auto with classes. }
  destruct (date_mon re_dmony4 true cleaned) eqn:E4.
  { intros [= <-]. apply (date_mon_shape _ _ 4) in E4; auto.
    exists is_sep2, 1%nat, (some 1). repeat split; auto with classes. }
  destruct (date_mon re_dmony2 false cleaned) eqn:E5.
  { intros [= <-]. apply (date_mon_shape _ _ 2) in E5; auto.
    exists is_sep2, 1%nat, (some 1). repeat split; auto with classes. }
  destruct (date_iso cleaned) eqn:E6; [|discriminate].
  intros [= <-]. now apply date_iso_shape in E6.
Qed.

(** A date of the form YYYY-MM-DD matches none of the first five formats
    and is returned as it is by the sixth. *)
Lemma parseDate_iso (y m d : str) :
  forallb is_digit y = true → length y = 4%nat →
  forallb is_digit m = true → length m = 2%nat →
  forallb is_digit d = true → length d = 2%nat →
  parseDate (y ++ 45 :: m ++ 45 :: d) = Some (y ++ 45 :: m ++ 45 :: d).
Proof.
  intros Hy Hyl Hm Hml Hd Hdl.
  rewrite dmy_fixed; [| assumption | assumption | apply nonempty_length; lia
                      | apply nonempty_length; lia].
  unfold date_formats. cbn [first_match].
  assert (Hiso : date_iso (y ++ 45 :: m ++ 45 :: d)
                 = Some (y ++ 45 :: m ++ 45 :: d)).
  { unfold date_iso, re_iso. rewrite match_five; auto with classes; try lia.
    now rewrite Hdl. }
  destruct y as [|a [|b [|c [|e [|? ?]]]]]; simpl in Hyl; try lia.
  simpl in Hy.
  apply andb_true_iff in Hy as [Ha Hy]. apply andb_true_iff in Hy as [Hb Hy].
  apply andb_true_iff in Hy as [Hc _].
  set (rest := e :: 45 :: m ++ 45 :: d) in *.
  change ([a; b; c; e] ++ 45 :: m ++ 45 :: d) with ([a; b] ++ c :: rest) in *.
  assert (Hab : forallb is_digit [a; b] = true) by (simpl; now rewrite Ha, Hb).
  unfold date_dmy4, re_dmy4, match_anchored.
  rewrite match_second_none; auto with classes.
  unfold date_dmy2, re_dmy2, match_anchored.
  rewrite match_second_none; auto with classes.
  unfold date_mon, re_d_mon_y4, re_dmony4, re_dmony2, match_anchored.
  rewrite !match_second_none; auto with classes.
  cbn [fmap option_fmap option_map]. now rewrite Hiso.
Qed.

(** X5. Every date that [parseDate] returns has the form YYYY-MM-DD (four
    digits, a dash, two digits, a dash, two digits), and parsing it again
    gives it back. *)
Theorem parseDate_shape dateStr r :
  parseDate dateStr = Some r → iso_shaped r ∧ parseDate r = Some r.
Proof.
  intros H%parseDate_iso_shaped. split; [exact H|].
  destruct H as (y & m & d & -> & Hy & Hyl & Hm & Hml & Hd & Hdl).
  now apply parseDate_iso.
Qed.

Lemma parseDate_shape_witness :
  iso_shaped (u "2024-04-01")
  ∧ parseDate (u "2024-04-01") = Some (u "2024-04-01").
Proof. apply (parseDate_shape (u " 1.4.2024 ")). reflexivity. Defined.

Lemma match_first_short capA A a1 a2 capS S1 k1 K1 atoms (d : str) c rest :
  (∀ c, A c = true → S1 c = false) → (1 ≤ k1)%nat →
  forallb A d = true → (length d < a1)%nat → (length d ≤ a2)%nat →
  A c = false →
  match_atoms false (Rep capA A a1 (some a2) :: Rep capS S1 k1 K1 :: atoms)
    (d ++ c :: rest) = None.
Proof.
  intros HAS Hk1 Hd Hlt Hle Hc.
  rewrite match_rep_rep by assumption. rewrite default_some. cbv zeta.
  rewrite run_app; [| assumption | assumption | now right].
  apply Nat.ltb_lt in Hlt. now rewrite Hlt.
Qed.

Lemma run_full cls max (s : str) :
  forallb cls s = true → (max ≤ length s)%nat → run cls max s = max.
Proof.
  revert s. induction max as [|max IH]; intros [|c s]; simpl; try lia;
    try reflexivity.
  intros [Hc Hs]%andb_true_iff Hl. rewrite Hc. f_equal. apply IH; [exact Hs | lia].
Qed.

(** The five-part pattern fails when the last run is too long. *)
Lemma match_five_long A S1 B S2 C a1 a2 b1 b2 c1 c2 (d m y : str) s1 s2 :
  (∀ c, A c = true → S1 c = false) → (∀ c, S1 c = true → B c = false) →
  (∀ c, B c = true → S2 c = false) → (∀ c, S2 c = true → C c = false) →
  forallb A d = true → (a1 ≤ length d ≤ a2)%nat →
  forallb B m = true → (b1 ≤ length m ≤ b2)%nat →
  forallb C y = true → (c2 < length y)%nat →
  (1 ≤ b1)%nat → (1 ≤ c1)%nat →
  S1 s1 = true → S2 s2 = true →
  match_anchored
    [ Rep true A a1 (some a2); Rep false S1 1 (some 1);
      Rep true B b1 (some b2); Rep false S2 1 (some 1);
      Rep true C c1 (some c2); Eos ] (d ++ s1 :: m ++ s2 :: y)
  = None.
Proof.
  intros HAS HSB HBS HSC Hd Hdl Hm Hml Hy Hyl Hb1 Hc1 Hs1 Hs2.
  unfold match_anchored.
  rewrite match_prefix by assumption. rewrite match_prefix by assumption.
  rewrite match_rep_eos. rewrite default_some. cbv zeta.
  rewrite run_full by (assumption || lia).
  destruct (c2 <? c1)%nat; [reflexivity|].
  destruct (drop c2 y) eqn:E; [|reflexivity].
  apply drop_nil_inv in E. lia.
Qed.

(** X6. In the forms D-MMM-YY and D-MMM-YYYY (with [-] or [/]) a name of
    three letters that is not a month of the table gives no date. *)
Theorem parseDate_unknown_month (d mon y : str) (s1 s2 : N) :
  forallb is_digit d = true → (1 ≤ length d ≤ 2)%nat →
  forallb is_letter mon = true → length mon = 3%nat →
  assoc (map lower_unit mon) months = None →
  forallb is_digit y = true → length y = 2%nat ∨ length y = 4%nat →
  is_sep2 s1 = true → is_sep2 s2 = true →
  parseDate (d ++ s1 :: mon ++ s2 :: y) = None.
Proof.
  intros Hd Hdl Hlet Hlen Hmon Hy Hyl Hs1 Hs2.
  pose proof (letters_words _ Hlet) as Hword.
  rewrite dmy_fixed; [| assumption | assumption | apply nonempty_length; lia
                      | apply nonempty_length; lia].
  unfold date_formats. cbn [first_match].
  assert (Hiso : date_iso (d ++ s1 :: mon ++ s2 :: y) = None).
  { unfold date_iso, re_iso, match_anchored.
    rewrite match_first_short; auto with classes; lia. }
  destruct mon as [|a mon']; [discriminate|].
  assert (Ha : is_digit a = false).
  { simpl in Hlet. apply andb_true_iff in Hlet as [Ha _].
    now apply letter_not_digit. }
  unfold date_dmy4, re_dmy4. cbn [app] in *.
  rewrite match_five_middle; auto with classes.
  unfold date_dmy2, re_dmy2.
  rewrite match_five_middle; auto with classes.
  unfold date_mon at 1, re_d_mon_y4.
  rewrite match_spaced_none; auto with classes.
  change (a :: mon' ++ s2 :: y) with ((a :: mon') ++ s2 :: y) in *.
  unfold date_mon, re_dmony4, re_dmony2.
  destruct Hyl as [Hyl | Hyl].
  - rewrite !match_five; auto with classes; try lia.
    rewrite Hyl. cbn [Nat.ltb Nat.leb]. now rewrite Hmon, Hiso.
  - rewrite match_five; auto with classes; try lia.
    rewrite match_five_long; auto with classes; try lia.
    rewrite Hyl. cbn [Nat.ltb Nat.leb]. now rewrite Hmon, Hiso.
Qed.

Lemma parseDate_unknown_month_witness : parseDate (u "01-Foo-2024") = None.
Proof.
  apply (parseDate_unknown_month (u "01") (u "Foo") (u "2024") 45 45);
    first [reflexivity | simpl; lia | (right; reflexivity)].
Defined.

(** ** The six date forms *)

(** The table of the code gives every month abbreviation its number. *)
Lemma months_number key : assoc key months = month_number key.
Proof.
  unfold month_number, english_months, months.
  cbn [assoc month_from].
  repeat (destruct (str_eqb _ key); [reflexivity|]).
  reflexivity.
Qed.

(** The numeric form with a four-digit year. *)
Lemma parseDate_dmy4 (d m y : str) (s1 s2 : N) :
  forallb is_digit d = true → (1 ≤ length d ≤ 2)%nat →
  forallb is_digit m = true → (1 ≤ length m ≤ 2)%nat →
  forallb is_digit y = true → length y = 4%nat →
  is_sep3 s1 = true → is_sep3 s2 = true →
  parseDate (d ++ s1 :: m ++ s2 :: y)
  = Some (y ++ u "-" ++ padStart2 m ++ u "-" ++ padStart2 d).
Proof.
  intros Hd Hdl Hm Hml Hy Hyl Hs1 Hs2.
  rewrite dmy_fixed; [| assumption | assumption | apply nonempty_length; lia
                      | apply nonempty_length; lia].
  unfold date_formats. cbn [first_match]. unfold date_dmy4, re_dmy4.
  rewrite match_five; auto with classes; try lia.
  now rewrite Hyl.
Qed.

(** A text of one of the six forms parses to its date. *)
Lemma date_form_parse cleaned r : date_form cleaned r → parseDate cleaned = Some r.
Proof.
  intros [d m y s1 s2 | d m y s1 s2 | d sp1 mon sp2 y month
         | d mon y month s1 s2 | d mon y month s1 s2 | y m d].
  - now apply parseDate_dmy4.
  - now apply parseDate_dmy2.
  - intros. apply parseDate_d_mon_y4; auto; now rewrite months_number.
  - intros. apply parseDate_dmony4; auto; now rewrite months_number.
  - intros. apply parseDate_dmony2; auto; now rewrite months_number.
  - now apply parseDate_iso.
Qed.

(** A text of one of the six forms starts and ends with a digit. *)
Lemma date_form_ends cleaned r :
  date_form cleaned r →
  ∃ c z, head cleaned = Some c ∧ last cleaned = Some z
         ∧ is_digit c = true ∧ is_digit z = true.
Proof.
  intros [d m y s1 s2 Hd Hdl _ _ Hy Hyl | d m y s1 s2 Hd Hdl _ _ Hy Hyl
         | d sp1 mon sp2 y month Hd Hdl _ _ _ _ _ Hy Hyl
         | d mon y month s1 s2 Hd Hdl _ Hy Hyl
         | d mon y month s1 s2 Hd Hdl _ Hy Hyl
         | y m d Hy Hyl _ _ Hd Hdl]; intros.
  - rewrite dmy_shape. apply digits_ends; auto; apply nonempty_length; lia.
  - rewrite dmy_shape. apply digits_ends; auto; apply nonempty_length; lia.
  - replace (d ++ sp1 ++ mon ++ sp2 ++ y) with (d ++ (sp1 ++ mon ++ sp2) ++ y)
      by now rewrite <- !app_assoc.
    apply digits_ends; auto; apply nonempty_length; lia.
  - rewrite dmy_shape. apply digits_ends; auto; apply nonempty_length; lia.
  - rewrite dmy_shape. apply digits_ends; auto; apply nonempty_length; lia.
  - change (y ++ u "-" ++ m ++ u "-" ++ d) with (y ++ 45 :: m ++ 45 :: d).
    rewrite dmy_shape. apply digits_ends; auto; apply nonempty_length; lia.
Qed.

(** A single unit of a class. *)
Lemma single_unit (cls : N → bool) (sp : str) :
  forallb cls sp = true → (1 ≤ length sp)%nat → (length sp ≤ 1)%nat →
  ∃ c, sp = [c] ∧ cls c = true.
Proof.
  destruct sp as [|c [|? ?]]; simpl; try lia. intros H _ _.
  exists c. split; [reflexivity|]. now rewrite andb_true_r in H.
Qed.

Lemma date_dmy4_form cleaned r : date_dmy4 cleaned = Some r → date_form cleaned r.
Proof.
  unfold date_dmy4, re_dmy4.
  destruct (match_anchored _ cleaned) as [caps|] eqn:E; [|discriminate].
  apply match_five_inv in E
    as (d & sp1 & m & sp2 & y & -> & -> & Hd & Hdl & Hp1 & Hp1l & Hp1m & Hm & Hml
        & Hp2 & Hp2l & Hp2m & Hy & Hyl); auto with classes.
  intros [= <-]. rewrite default_some in *.
  destruct (single_unit _ _ Hp1 Hp1l Hp1m) as (s1 & -> & Hs1).
  destruct (single_unit _ _ Hp2 Hp2l Hp2m) as (s2 & -> & Hs2).
  apply form_dmy4; auto; lia.
Qed.

Lemma date_dmy2_form cleaned r : date_dmy2 cleaned = Some r → date_form cleaned r.
Proof.
  unfold date_dmy2, re_dmy2.
  destruct (match_anchored _ cleaned) as [caps|] eqn:E; [|discriminate].
  apply match_five_inv in E
    as (d & sp1 & m & sp2 & y & -> & -> & Hd & Hdl & Hp1 & Hp1l & Hp1m & Hm & Hml
        & Hp2 & Hp2l & Hp2m & Hy & Hyl); auto with classes.
  intros [= <-]. rewrite default_some in *.
  destruct (single_unit _ _ Hp1 Hp1l Hp1m) as (s1 & -> & Hs1).
  destruct (single_unit _ _ Hp2 Hp2l Hp2m) as (s2 & -> & Hs2).
  apply form_dmy2; auto; lia.
Qed.

Lemma date_d_mon_y4_form cleaned r :
  date_mon re_d_mon_y4 true cleaned = Some r → date_form cleaned r.
Proof.
  unfold date_mon, re_d_mon_y4.
  destruct (match_anchored _ cleaned) as [caps|] eqn:E; [|discriminate].
  apply match_five_inv in E
    as (d & sp1 & m & sp2 & y & -> & -> & Hd & Hdl & Hp1 & Hp1l & _ & Hm & Hml
        & Hp2 & Hp2l & _ & Hy & Hyl); auto with classes.
  destruct (assoc _ months) as [month|] eqn:Em; [|discriminate].
  intros [= <-]. rewrite months_number in Em.
  apply form_d_mon_y4; auto; try lia; apply nonempty_length; lia.
Qed.

Lemma date_dmony4_form cleaned r :
  date_mon re_dmony4 true cleaned = Some r → date_form cleaned r.
Proof.
  unfold date_mon, re_dmony4.
  destruct (match_anchored _ cleaned) as [caps|] eqn:E; [|discriminate].
  apply match_five_inv in E
    as (d & sp1 & m & sp2 & y & -> & -> & Hd & Hdl & Hp1 & Hp1l & Hp1m & Hm & Hml
        & Hp2 & Hp2l & Hp2m & Hy & Hyl); auto with classes.
  destruct (assoc _ months) as [month|] eqn:Em; [|discriminate].
  intros [= <-]. rewrite months_number in Em. rewrite default_some in *.
  destruct (single_unit _ _ Hp1 Hp1l Hp1m) as (s1 & -> & Hs1).
  destruct (single_unit _ _ Hp2 Hp2l Hp2m) as (s2 & -> & Hs2).
  apply form_dmony4; auto; lia.
Qed.

Lemma date_dmony2_form cleaned r :
  date_mon re_dmony2 false cleaned = Some r → date_form cleaned r.
Proof.
  unfold date_mon, re_dmony2.
  destruct (match_anchored _ cleaned) as [caps|] eqn:E; [|discriminate].
  apply match_five_inv in E
    as (d & sp1 & m & sp2 & y & -> & -> & Hd & Hdl & Hp1 & Hp1l & Hp1m & Hm & Hml
        & Hp2 & Hp2l & Hp2m & Hy & Hyl); auto with classes.
  destruct (assoc _ months) as [month|] eqn:Em; [|discriminate].
  intros [= <-]. rewrite months_number in Em. rewrite default_some in *.
  destruct (single_unit _ _ Hp1 Hp1l Hp1m) as (s1 & -> & Hs1).
  destruct (single_unit _ _ Hp2 Hp2l Hp2m) as (s2 & -> & Hs2).
  apply form_dmony2; auto; lia.
Qed.

Lemma date_iso_form cleaned r : date_iso cleaned = Some r → date_form cleaned r.
Proof.
  unfold date_iso, re_iso.
  destruct (match_anchored _ cleaned) as [caps|] eqn:E; [|discriminate].
  apply match_five_inv in E
    as (y & sp1 & m & sp2 & d & -> & -> & Hy & Hyl & Hp1 & Hp1l & Hp1m & Hm & Hml
        & Hp2 & Hp2l & Hp2m & Hd & Hdl); auto with classes.
  intros [= <-]. rewrite default_some in *.
  destruct (single_unit _ _ Hp1 Hp1l Hp1m) as (s1 & -> & Hs1).
  destruct (single_unit _ _ Hp2 Hp2l Hp2m) as (s2 & -> & Hs2).
  apply dash_is_45 in Hs1 as ->. apply dash_is_45 in Hs2 as ->.
  apply form_iso; auto; lia.
Qed.

(** What [parseDate] accepts and what it returns. *)
Lemma parseDate_forms s r :
  parseDate s = Some r ↔ s ≠ [] ∧ date_form (date_text s) r.
Proof.
  split.
  - unfold parseDate. destruct s as [|c0 s0]; [discriminate|].
    destruct (date_text (c0 :: s0)) as [|c cleaned'] eqn:Ec; [discriminate|].
    set (cleaned := c :: cleaned'). unfold date_formats. cbn [first_match].
    intros H. split; [discriminate|]. revert H.
    destruct (date_dmy4 cleaned) eqn:E1;
      [intros [= <-]; now apply date_dmy4_form|].
    destruct (date_dmy2 cleaned) eqn:E2;
      [intros [= <-]; now apply date_dmy2_form|].
    destruct (date_mon re_d_mon_y4 true cleaned) eqn:E3;
      [intros [= <-]; now apply date_d_mon_y4_form|].
    destruct (date_mon re_dmony4 true cleaned) eqn:E4;
      [intros [= <-]; now apply date_dmony4_form|].
    destruct (date_mon re_dmony2 false cleaned) eqn:E5;
      [intros [= <-]; now apply date_dmony2_form|].
    destruct (date_iso cleaned) eqn:E6; [|discriminate].
    intros [= <-]. now apply date_iso_form.
  - intros [Hs Hf].
    destruct (date_form_ends _ _ Hf) as (c & z & Hh & Hl & Hc & Hz).
    apply date_form_parse in Hf.
    rewrite (parseDate_fixed _ c z) in Hf; auto with classes.
    unfold parseDate. destruct s as [|c0 s0]; [congruence|].
    destruct (date_text (c0 :: s0)); [discriminate | exact Hf].
Qed.

(** C3. [parseDate] tries the six formats in the order of the
    specification and the first that matches gives the result; when none
    matches the result is absent; in the numeric and the month-abbreviation
    forms with a two-digit year the year is 19YY when YY > 50 and 20YY
    otherwise; the three dates of the specification parse as it says.
    What the formats accept and return: [parseDate] gives a date exactly
    when the input is not empty and its trimmed and unquoted text has one
    of the six forms of the specification, and the date is then the one
    the form stands for; no other input gives a date; the table of the
    code gives January to December the numbers 01 to 12; and each of the
    forms D/M/YYYY, D MMM YYYY, D-MMM-YYYY and YYYY-MM-DD parses as the
    specification says. *)
Theorem parseDate_spec :
  date_formats
  = [ date_dmy4; date_dmy2; date_mon re_d_mon_y4 true;
      date_mon re_dmony4 true; date_mon re_dmony2 false; date_iso ]
  ∧ (∀ s before f after r,
       s ≠ [] → date_text s ≠ [] → date_formats = before ++ f :: after →
       Forall (λ g, g (date_text s) = None) before →
       f (date_text s) = Some r → parseDate s = Some r)
  ∧ (∀ s, Forall (λ g, g (date_text s) = None) date_formats →
          parseDate s = None)
  ∧ (∀ (d m y : str) (s1 s2 : N),
       forallb is_digit d = true → (1 ≤ length d ≤ 2)%nat →
       forallb is_digit m = true → (1 ≤ length m ≤ 2)%nat →
       forallb is_digit y = true → length y = 2%nat →
       is_sep3 s1 = true → is_sep3 s2 = true →
       parseDate (d ++ s1 :: m ++ s2 :: y)
       = Some ((if 50 <? parseInt y then u "19" ++ y else u "20" ++ y)
                 ++ u "-" ++ padStart2 m ++ u "-" ++ padStart2 d))
  ∧ (∀ (d mon y month : str) (s1 s2 : N),
       forallb is_digit d = true → (1 ≤ length d ≤ 2)%nat →
       assoc (map lower_unit mon) months = Some month →
       forallb is_digit y = true → length y = 2%nat →
       is_sep2 s1 = true → is_sep2 s2 = true →
       parseDate (d ++ s1 :: mon ++ s2 :: y)
       = Some ((if 50 <? parseInt y then u "19" ++ y else u "20" ++ y)
                 ++ u "-" ++ month ++ u "-" ++ padStart2 d))
  ∧ parseDate (u "01/04/2024") = Some (u "2024-04-01")
  ∧ parseDate (u "01-Jan-24") = Some (u "2024-01-01")
  ∧ parseDate (u "15/03/99") = Some (u "1999-03-15")
  ∧ (∀ s r, parseDate s = Some r ↔ s ≠ [] ∧ date_form (date_text s) r)
  ∧ (∀ s, (∀ r, ¬ date_form (date_text s) r) → parseDate s = None)
  ∧ (∀ key, assoc key months = month_number key)
  ∧ (∀ (d m y : str) (s1 s2 : N),
       forallb is_digit d = true → (1 ≤ length d ≤ 2)%nat →
       forallb is_digit m = true → (1 ≤ length m ≤ 2)%nat →
       forallb is_digit y = true → length y = 4%nat →
       is_sep3 s1 = true → is_sep3 s2 = true →
       parseDate (d ++ s1 :: m ++ s2 :: y)
       = Some (y ++ u "-" ++ padStart2 m ++ u "-" ++ padStart2 d))
  ∧ (∀ (d sp1 mon sp2 y month : str),
       forallb is_digit d = true → (1 ≤ length d ≤ 2)%nat →
       forallb is_space sp1 = true → sp1 ≠ [] →
       month_number (map lower_unit mon) = Some month →
       forallb is_space sp2 = true → sp2 ≠ [] →
       forallb is_digit y = true → length y = 4%nat →
       parseDate (d ++ sp1 ++ mon ++ sp2 ++ y)
       = Some (y ++ u "-" ++ month ++ u "-" ++ padStart2 d))
  ∧ (∀ (d mon y month : str) (s1 s2 : N),
       forallb is_digit d = true → (1 ≤ length d ≤ 2)%nat →
       month_number (map lower_unit mon) = Some month →
       forallb is_digit y = true → length y = 4%nat →
       is_sep2 s1 = true → is_sep2 s2 = true →
       parseDate (d ++ s1 :: mon ++ s2 :: y)
       = Some (y ++ u "-" ++ month ++ u "-" ++ padStart2 d))
  ∧ (∀ (y m d : str),
       forallb is_digit y = true → length y = 4%nat →
       forallb is_digit m = true → length m = 2%nat →
       forallb is_digit d = true → length d = 2%nat →
       parseDate (y ++ u "-" ++ m ++ u "-" ++ d)
       = Some (y ++ u "-" ++ m ++ u "-" ++ d)).
Proof.
  split; [reflexivity|].
  split; [|split; [|split; [|split; [|split; [|split; [|split]]]]]].
  - intros s before f after r Hs Hc Hf Hnone Hr. unfold parseDate.
    destruct s; [congruence|]. destruct (date_text _) eqn:E; [congruence|].
    rewrite Hf, first_match_app by exact Hnone. now rewrite Hr.
  - intros s Hnone. unfold parseDate. destruct s; [reflexivity|].
    destruct (date_text _); [reflexivity|].
    induction Hnone as [|g fs Hg _ IH]; simpl; [reflexivity|]. now rewrite Hg.
  - apply parseDate_dmy2.
  - apply parseDate_dmony2.
  - vm_compute; reflexivity.
  - vm_compute; reflexivity.
  - vm_compute; reflexivity.
  - split; [exact parseDate_forms|].
    split; [|split; [exact months_number|split; [|split; [|split]]]].
    + intros s Hnone. destruct (parseDate s) as [r|] eqn:E; [|reflexivity].
      apply parseDate_forms in E as [_ E]. now apply Hnone in E.
    + apply parseDate_dmy4.
    + intros d sp1 mon sp2 y month Hd Hdl Hp1 Hp10 Hmon Hp2 Hp20 Hy Hyl.
      rewrite <- months_number in Hmon. now apply parseDate_d_mon_y4.
    + intros d mon y month s1 s2 Hd Hdl Hmon Hy Hyl Hs1 Hs2.
      rewrite <- months_number in Hmon. now apply parseDate_dmony4.
    + apply parseDate_iso.
Qed.

Lemma parseDate_spec_witness :
  parseDate (u "15/03/99") = Some (u "1999-03-15")
  ∧ parseDate (u "7-feb-50") = Some (u "2050-02-07")
  ∧ parseDate (u "garbage") = None
  ∧ parseDate (u "2024-04-01") = Some (u "2024-04-01")
  ∧ parseDate (u "3 DEC  1999") = Some (u "1999-12-03")
  ∧ parseDate (u "1.4.2024") = Some (u "2024-04-01")
  ∧ date_form (u "01-Jan-2024") (u "2024-01-01").
Proof.
  destruct parseDate_spec
    as (_ & _ & Hnone & Hnum & Hmon & _ & _ & _ & Hforms & _ & _ & Hdmy4
        & Hspaced & _ & Hiso).
  split; [|split; [|split; [|split; [|split; [|split]]]]].
  - apply (Hnum (u "15") (u "03") (u "99") 47 47);
      first [reflexivity | simpl; lia].
  - apply (Hmon (u "7") (u "feb") (u "50") (u "02") 45 45);
      first [reflexivity | simpl; lia].
  - apply Hnone. repeat constructor.
  - apply (Hiso (u "2024") (u "04") (u "01")); reflexivity.
  - apply (Hspaced (u "3") (u " ") (u "DEC") (u "  ") (u "1999") (u "12"));
      first [reflexivity | discriminate | simpl; lia].
  - apply (Hdmy4 (u "1") (u "4") (u "2024") 46 46);
      first [reflexivity | simpl; lia].
  - apply (proj1 (Hforms (u " 01-Jan-2024 ") (u "2024-01-01")) eq_refl).
Defined.

(** ** Amounts with grouping commas *)

Lemma forallb_all (p : N → bool) (s : str) :
  forallb p s = true ↔ Forall (λ c, p c = true) s.
Proof.
  induction s as [|c s IH]; simpl.
  - split; [constructor | reflexivity].
  - rewrite andb_true_iff, IH, Forall_cons. reflexivity.
Qed.

Lemma Forall_ends (P : N → Prop) (s : str) c z :
  Forall P s → head s = Some c → last s = Some z → P c ∧ P z.
Proof.
  intros H Hc Hz. rewrite Forall_forall in H. split; apply H.
  - destruct s; [discriminate|]. injection Hc as ->. now left.
  - apply last_Some in Hz as [l' ->]. apply elem_of_app. right. now left.
Qed.

Lemma trim_plain s : Forall (λ c, is_space c = false) s → trim s = s.
Proof.
  intros H. destruct s as [|c s]; [reflexivity|].
  destruct (last (c :: s)) as [z|] eqn:Hl; [|now apply last_None in Hl].
  destruct (Forall_ends _ _ c z H eq_refl Hl) as [Hc Hz].
  unfold trim. rewrite (trimStart_fixed _ _ Hc).
  apply last_Some in Hl as [l' ->]. now apply trimEnd_snoc.
Qed.

Lemma stripQuotes_plain s :
  Forall (λ c, is_quote c = false) s → stripQuotes s = s.
Proof.
  intros H. destruct s as [|c s]; [reflexivity|].
  destruct (last (c :: s)) as [z|] eqn:Hl; [|now apply last_None in Hl].
  destruct (Forall_ends _ _ c z H eq_refl Hl) as [Hc Hz].
  simpl. rewrite Hc. apply last_Some in Hl as [l' ->].
  now apply removeLast_snoc.
Qed.

Lemma filter_all (p : N → bool) (s : str) :
  Forall (λ c, p c = true) s → List.filter p s = s.
Proof.
  induction 1 as [|c s Hc Hs IH]; simpl; [reflexivity|].
  now rewrite Hc, IH.
Qed.

Lemma filter_grouped g :
  forallb is_grouped g = true →
  List.filter (λ c, negb (is_currency c))
    (List.filter (λ c, negb (is_comma c)) g)
  = List.filter is_digit g.
Proof.
  induction g as [|c g IH]; simpl; [reflexivity|].
  intros [Hc Hg]%andb_true_iff. unfold is_grouped in Hc.
  destruct (is_digit c) eqn:Hd.
  - replace (is_comma c) with false by (clear -Hd; class_solver).
    simpl. replace (is_currency c) with false by (clear -Hd; class_solver).
    simpl. now rewrite IH.
  - destruct (is_comma c) eqn:Hcom; simpl; [now apply IH|].
    simpl in Hc. rewrite Hc. simpl. now apply IH.
Qed.

Lemma filter_digits (s : str) : forallb is_digit (List.filter is_digit s) = true.
Proof.
  induction s as [|c s IH]; simpl; [reflexivity|].
  destruct (is_digit c) eqn:E; simpl; [now rewrite E|exact IH].
Qed.

(** The units of a decimal literal without sign and exponent. *)
Lemma literal_unit c :
  is_grouped c = true ∨ c = 46 → is_space c = false ∧ is_quote c = false.
Proof.
  unfold is_grouped. intros [H | ->]; [|repeat split].
  split; clear -H; class_solver.
Qed.

Lemma digit_unit c :
  is_digit c = true →
  is_grouped c = true ∧ is_comma c = false ∧ is_currency c = false
  ∧ (c =? 45) = false ∧ (c =? 43) = false ∧ (c =? 73) = false.
Proof. unfold is_grouped. intros H. repeat split; clear -H; class_solver. Qed.

Lemma span_digits ds rest :
  forallb is_digit ds = true →
  match rest with [] => True | c :: _ => is_digit c = false end →
  span is_digit (ds ++ rest) = (ds, rest).
Proof.
  intros Hd Hr. unfold span.
  rewrite run_app; [| exact Hd | rewrite length_app; lia | now right].
  now rewrite take_app_length, drop_app_length.
Qed.

(** [parseFloat] on digits, with or without a fraction. *)
Lemma parseFloat_digits ds (frac : option str) :
  forallb is_digit ds = true → ds ≠ [] →
  forallb is_digit (default [] frac) = true →
  parseFloat (ds ++ fraction_text frac)
  = number_of_decimal false (digits_value (ds ++ default [] frac))
      (- Z.of_nat (length (default [] frac))).
Proof.
  intros Hd Hne Hf. destruct ds as [|c ds]; [congruence|].
  assert (Hc : is_digit c = true) by (simpl in Hd; now apply andb_true_iff in Hd).
  destruct (digit_unit c Hc) as (Hg & _ & _ & H45 & H43 & H73).
  destruct (literal_unit c (or_introl Hg)) as (Hs & _).
  unfold parseFloat. cbn [app]. rewrite (trimStart_fixed _ _ Hs).
  cbn [read_sign]. rewrite H45, H43.
  change (startsWith (u "Infinity") (c :: ?t)) with
    ((73 =? c) && startsWith (u "nfinity") t).
  rewrite N.eqb_sym, H73. cbn [andb].
  change (c :: ds ++ ?r) with ((c :: ds) ++ r).
  rewrite span_digits; [| exact Hd | now destruct frac].
  destruct frac as [f|]; cbn [default fraction_text] in *.
  - cbn [read_fraction]. change (46 =? 46) with true. cbv iota.
    rewrite <- (app_nil_r f) at 1. rewrite span_digits by (exact Hf || exact I).
    cbn [app]. destruct f; reflexivity.
  - cbn [read_fraction length]. rewrite app_nil_r. reflexivity.
Qed.

Lemma amount_text_grouped g (frac : option str) :
  forallb is_grouped g = true →
  forallb is_digit (default [] frac) = true →
  amount_text (g ++ fraction_text frac)
  = List.filter is_digit g ++ fraction_text frac.
Proof.
  intros Hg Hf.
  assert (Htail : Forall (λ c, is_digit c = true ∨ c = 46) (fraction_text frac)).
  { destruct frac as [f|]; [|constructor]. simpl in *.
    constructor; [now right|]. apply forallb_all in Hf.
    eapply Forall_impl; [exact Hf | now left]. }
  assert (Hall : Forall (λ c, is_grouped c = true ∨ c = 46)
                   (g ++ fraction_text frac)).
  { apply Forall_app. split.
    - apply forallb_all in Hg. eapply Forall_impl; [exact Hg | now left].
    - eapply Forall_impl; [exact Htail|]. intros c [H | ->]; [left | now right].
      now apply digit_unit. }
  unfold amount_text.
  rewrite (trim_plain (g ++ fraction_text frac))
    by (eapply Forall_impl; [exact Hall | intros c H; now apply literal_unit]).
  rewrite stripQuotes_plain
    by (eapply Forall_impl; [exact Hall | intros c H; now apply literal_unit]).
  rewrite !remove_filter, !List.filter_app, (filter_grouped g Hg).
  assert (Hkeep : ∀ p : N → bool,
            (∀ c, is_digit c = true ∨ c = 46 → p c = true) →
            List.filter p (fraction_text frac) = fraction_text frac).
  { intros p Hp. apply filter_all. eapply Forall_impl; [exact Htail | exact Hp]. }
  rewrite (Hkeep (λ c, negb (is_comma c)))
    by (intros c [H | ->]; [apply negb_true_iff; now apply digit_unit
                           | reflexivity]).
  rewrite (Hkeep (λ c, negb (is_currency c)))
    by (intros c [H | ->]; [apply negb_true_iff; now apply digit_unit
                           | reflexivity]).
  apply trim_plain. apply Forall_app. split.
  - pose proof (filter_digits g) as H. apply forallb_all in H.
    eapply Forall_impl; [exact H|]. intros c Hc.
    apply literal_unit. left. now apply digit_unit.
  - eapply Forall_impl; [exact Htail|]. intros c [H | ->].
    + apply literal_unit. left. now apply digit_unit.
    + now apply literal_unit; right.
Qed.

Lemma parseAmount_literal g (frac : option str) :
  forallb is_grouped g = true → List.filter is_digit g ≠ [] →
  forallb is_digit (default [] frac) = true →
  parseAmount (Some (g ++ fraction_text frac))
  = number_of_decimal false
      (digits_value (List.filter is_digit g ++ default [] frac))
      (- Z.of_nat (length (default [] frac))).
Proof.
  intros Hg Hne Hf. rewrite parseAmount_refines. unfold spec_parseAmount.
  rewrite amount_text_grouped by assumption.
  rewrite parseFloat_digits by (assumption || apply filter_digits).
  pose proof (number_of_decimal_signed false
                (digits_value (List.filter is_digit g ++ default [] frac))
                (- Z.of_nat (length (default [] frac)))) as Hs.
  now destruct (number_of_decimal _ _ _).
Qed.

(** X7. An amount written with digits, grouping commas and currency
    symbols, alone or followed by a point and fraction digits, parses to
    the Number nearest to the decimal value of its digits: the commas and
    the symbols count for nothing wherever they stand, as in 2,83,295.35
    and 283,295.35. *)
Theorem parseAmount_grouped (g : str) :
  forallb is_grouped g = true → List.filter is_digit g ≠ [] →
  parseAmount (Some g)
  = number_of_decimal false (digits_value (List.filter is_digit g)) 0
  ∧ (∀ frac, forallb is_digit frac = true →
       parseAmount (Some (g ++ 46 :: frac))
       = number_of_decimal false
           (digits_value (List.filter is_digit g ++ frac))
           (- Z.of_nat (length frac))).
Proof.
  intros Hg Hne. split.
  - pose proof (parseAmount_literal g None Hg Hne eq_refl) as H.
    cbn [fraction_text default length] in H. now rewrite !app_nil_r in H.
  - intros frac Hf. exact (parseAmount_literal g (Some frac) Hg Hne Hf).
Qed.

Lemma parseAmount_grouped_witness :
  parseAmount (Some (u "2,83,295.35")) = number_of_decimal false 28329535 (-2)
  ∧ parseAmount (Some (u "283,295.35")) = number_of_decimal false 28329535 (-2)
  ∧ parseAmount (Some (36 :: u "1,131")) = number_of_decimal false 1131 0.
Proof.
  split; [|split].
  - apply (proj2 (parseAmount_grouped (u "2,83,295") eq_refl
                    ltac:(discriminate)) (u "35") eq_refl).
  - apply (proj2 (parseAmount_grouped (u "283,295") eq_refl
                    ltac:(discriminate)) (u "35") eq_refl).
  - apply (proj1 (parseAmount_grouped (36 :: u "1,131") eq_refl
                    ltac:(discriminate))).
Defined.

(** ** The normal form of a cleaned description *)

Lemma replace_go_length m repl skip s :
  (length repl ≤ 1)%nat → (length (replace_go m repl skip s) ≤ length s)%nat.
Proof.
  intros Hr. revert skip. induction s as [|c s IH]; intros skip; simpl; [lia|].
  destruct skip as [|k].
  - destruct (m (c :: s)) as [[|n]|]; simpl; try (specialize (IH O); lia).
    rewrite length_app. specialize (IH n). lia.
  - specialize (IH k). lia.
Qed.

Lemma trimEnd_length s : (length (trimEnd s) ≤ length s)%nat.
Proof.
  unfold trimEnd. rewrite length_rev.
  pose proof (dropWhile_length is_space (rev s)) as H.
  now rewrite length_rev in H.
Qed.

Lemma trim_length s : (length (trim s) ≤ length s)%nat.
Proof.
  unfold trim, trimStart. pose proof (trimEnd_length (dropWhile is_space s)).
  pose proof (dropWhile_length is_space s). lia.
Qed.

Lemma squeeze_length s : (length (squeeze s) ≤ length s)%nat.
Proof.
  unfold squeeze, collapse, replaceAll.
  pose proof (trim_length
                (replace_go (match_length false [Rep false is_space 1 None])
                   (u " ") 0 s)).
  pose proof (replace_go_length (match_length false [Rep false is_space 1 None])
                (u " ") 0 s).
  simpl in *. lia.
Qed.

Lemma erase_length ci atoms s :
  (length (replaceAll ci atoms [] s) ≤ length s)%nat.
Proof. apply replace_go_length. simpl. lia. Qed.

Lemma erase_all_length (pats : list (list atom)) : ∀ s,
  (length (fold_left (λ cleaned re, replaceAll true re [] cleaned) pats s)
   ≤ length s)%nat.
Proof.
  induction pats as [|re pats IH]; intros s; simpl; [lia|].
  specialize (IH (replaceAll true re [] s)).
  pose proof (erase_length true re s). lia.
Qed.

Lemma squeeze_collapsed s : collapsed (squeeze s) = true.
Proof. apply collapsed_trimEnd, collapsed_trimStart, collapse_collapsed. Qed.

Lemma squeeze_fixed s : squeeze s = s ↔ collapsed s = true ∧ trim s = s.
Proof.
  split.
  - intros E. split.
    + rewrite <- E. apply squeeze_collapsed.
    + rewrite <- E at 1 2. unfold squeeze. apply trim_idem.
  - intros [Hc Ht]. unfold squeeze. now rewrite collapse_fixed.
Qed.

Lemma cleanDescription_collapsed x : collapsed (cleanDescription x) = true.
Proof. destruct x; [reflexivity | apply squeeze_collapsed]. Qed.

Lemma cleanDescription_trimmed x : trim (cleanDescription x) = cleanDescription x.
Proof. destruct x; [reflexivity | apply trim_idem]. Qed.

Lemma cleanDescription_length x : (length (cleanDescription x) ≤ length x)%nat.
Proof.
  destruct x as [|c x]; [reflexivity|]. unfold cleanDescription, remove_noise.
  pose proof (squeeze_length
                (fold_left (λ cleaned re, replaceAll true re [] cleaned)
                   noise_patterns (c :: x))).
  pose proof (erase_all_length noise_patterns (c :: x)). lia.
Qed.

(** In a collapsed string a white-space unit is U+0020 and is followed by
    a unit that is no white space. *)
Lemma collapsed_spaces s : collapsed s = true →
  ∀ pre c post, s = pre ++ c :: post → is_space c = true →
    c = 32 ∧ starts_space post = false.
Proof.
  intros Hs pre. revert s Hs. induction pre as [|a pre IH]; intros s Hs c post ->.
  - simpl in Hs. intros Hc. rewrite Hc in Hs.
    apply andb_true_iff in Hs as [Hs _]. apply andb_true_iff in Hs as [H1 H2].
    apply N.eqb_eq in H1. now apply negb_true_iff in H2.
  - apply (IH (pre ++ c :: post)); [|reflexivity].
    now apply collapsed_tail in Hs.
Qed.

(** X8. A cleaned description is in normal form: it is not longer than
    the description, it has no white space at either end, and every
    white-space unit in it is a single U+0020 between two other units. *)
Theorem cleanDescription_normal_form x :
  (length (cleanDescription x) ≤ length x)%nat
  ∧ trim (cleanDescription x) = cleanDescription x
  ∧ (∀ pre c post, cleanDescription x = pre ++ c :: post → is_space c = true →
       c = 32 ∧ pre ≠ [] ∧ post ≠ [] ∧ starts_space post = false).
Proof.
  split; [apply cleanDescription_length|].
  split; [apply cleanDescription_trimmed|].
  intros pre c post E Hc.
  destruct (collapsed_spaces _ (cleanDescription_collapsed x) pre c post E Hc)
    as [-> Hp].
  pose proof (cleanDescription_trimmed x) as Ht. rewrite E in Ht.
  repeat split; [| |exact Hp].
  - intros ->. simpl in Ht. unfold trim, trimStart in Ht.
    simpl in Ht. fold (trimStart post) in Ht. fold (trim post) in Ht.
    pose proof (trim_length post) as Hl. rewrite Ht in Hl. simpl in Hl. lia.
  - intros ->. unfold trim in Ht.
    assert (H : trimEnd (trimEnd (trimStart (pre ++ [32])))
                = trimEnd (pre ++ [32])) by now rewrite Ht.
    rewrite trimEnd_idem, Ht in H. unfold trimEnd in H.
    rewrite rev_app_distr in H. simpl in H.
    apply (f_equal (@length N)) in H.
    rewrite length_app, length_rev in H.
    pose proof (dropWhile_length is_space (rev pre)) as Hl.
    rewrite length_rev in Hl. simpl in H. lia.
Qed.

Lemma cleanDescription_normal_form_witness :
  (32 : N) = 32 ∧ u "a" ≠ [] ∧ u "b" ≠ [] ∧ starts_space (u "b") = false.
Proof.
  apply (proj2 (proj2 (cleanDescription_normal_form (u " a   b ")))
           (u "a") 32 (u "b")); reflexivity.
Defined.

(** ** The descriptions that cleaning leaves as they are *)

Lemma lit_at_length ci cs s r :
  lit_at ci cs s = Some r → length s = (length cs + length r)%nat.
Proof.
  revert s. induction cs as [|a cs IH]; intros [|b s]; simpl;
    try discriminate; try (now intros [= <-]).
  destruct (unit_eqb ci a b); [|discriminate]. intros H%IH. lia.
Qed.

Lemma backtrack_some {A} min s (k : str → str → option A) n a :
  backtrack min s k n = Some a → ∃ n', k (take n' s) (drop n' s) = Some a.
Proof.
  induction n as [|n IH]; rewrite backtrack_eq.
  - destruct (_ <? _)%nat; [discriminate|].
    destruct (k _ _) eqn:E; [|discriminate]. intros [= <-]. eauto.
  - destruct (_ <? _)%nat; [discriminate|].
    destruct (k _ _) eqn:E; [intros [= <-]; eauto | exact IH].
Qed.

(** What is left after a match is not longer than the text. *)
Lemma match_atoms_length ci atoms : ∀ s caps r,
  match_atoms ci atoms s = Some (caps, r) → (length r ≤ length s)%nat.
Proof.
  induction atoms as [|a atoms IH]; intros s caps r; simpl.
  - now intros [= _ <-].
  - destruct a as [cs|capture cls min max|].
    + destruct (lit_at ci cs s) as [r0|] eqn:E; [|discriminate].
      intros H%IH. apply lit_at_length in E. lia.
    + intros (n & H)%backtrack_some.
      destruct (match_atoms ci atoms (drop n s)) as [[caps0 r0]|] eqn:E;
        [|discriminate].
      simpl in H. injection H as _ <-. apply IH in E.
      rewrite length_drop in E. lia.
    + destruct s; [apply IH | discriminate].
Qed.

(** A pattern that starts with a literal matches no empty string. *)
Lemma match_length_literal ci a cs atoms s n :
  match_length ci (Lit (a :: cs) :: atoms) s = Some n → (1 ≤ n)%nat.
Proof.
  unfold match_length.
  destruct (match_atoms ci (Lit (a :: cs) :: atoms) s) as [[caps r]|] eqn:E;
    [|discriminate].
  simpl. intros [= <-]. cbn [match_atoms] in E.
  destruct (lit_at ci (a :: cs) s) as [r0|] eqn:El; [|discriminate].
  apply lit_at_length in El. apply match_atoms_length in E. simpl in El. lia.
Qed.

Lemma occurs_match_length ci atoms s :
  occurs ci atoms s = true →
  ∃ pre post, s = pre ++ post ∧ is_Some (match_length ci atoms post).
Proof.
  induction s as [|c s IH]; simpl.
  - destruct (match_atoms ci atoms []) eqn:E; [|discriminate].
    intros _. exists [], []. split; [reflexivity|].
    unfold match_length. now rewrite E.
  - destruct (match_atoms ci atoms (c :: s)) eqn:E.
    + intros _. exists [], (c :: s). split; [reflexivity|].
      unfold match_length. now rewrite E.
    + intros (pre & post & -> & H)%IH. now exists (c :: pre), post.
Qed.

(** Erasing the matches of a pattern that matches no empty string keeps
    the length only when there is no match. *)
Lemma erase_same_length ci atoms s :
  (∀ t n, match_length ci atoms t = Some n → (1 ≤ n)%nat) →
  length (replaceAll ci atoms [] s) = length s → occurs ci atoms s = false.
Proof.
  intros Hpos. unfold replaceAll.
  induction s as [|c s IH]; simpl.
  - intros _. destruct (match_atoms ci atoms []) eqn:E; [|reflexivity].
    assert (H : match_length ci atoms [] = Some O)
      by (unfold match_length; rewrite E; destruct p; reflexivity).
    apply Hpos in H. lia.
  - destruct (match_length ci atoms (c :: s)) as [[|n]|] eqn:E.
    + apply Hpos in E. lia.
    + simpl. intros H.
      pose proof (replace_go_length (match_length ci atoms) [] n s) as Hl.
      simpl in Hl. lia.
    + simpl. intros [= H]. unfold match_length in E.
      destruct (match_atoms ci atoms (c :: s)); [discriminate|]. now apply IH.
Qed.

Lemma erase_all_same_length (pats : list (list atom)) :
  Forall (λ re, ∀ t n, match_length true re t = Some n → (1 ≤ n)%nat) pats →
  ∀ s,
  length (fold_left (λ cleaned re, replaceAll true re [] cleaned) pats s)
  = length s →
  forallb (λ re, negb (occurs true re s)) pats = true.
Proof.
  induction 1 as [|re pats Hre Hpats IH]; intros s; simpl; [reflexivity|].
  intros E.
  pose proof (erase_all_length pats (replaceAll true re [] s)) as H1.
  pose proof (erase_length true re s) as H2.
  assert (Ho : occurs true re s = false)
    by (apply erase_same_length; [exact Hre | lia]).
  rewrite Ho. simpl. rewrite replaceAll_absent in E by exact Ho. now apply IH.
Qed.

Lemma noise_patterns_literal :
  Forall (λ re, ∀ t n, match_length true re t = Some n → (1 ≤ n)%nat)
    noise_patterns.
Proof.
  unfold noise_patterns.
  repeat (apply Forall_cons; split;
          [intros t n; apply match_length_literal|]).
  apply Forall_nil. exact I.
Qed.

(** X9. The descriptions that cleaning leaves as they are, are those in
    which no noise pattern occurs, every run of white space is one U+0020,
    and no white space stands at either end. *)
Theorem cleanDescription_fixed_points x :
  cleanDescription x = x
  ↔ noise_free x = true ∧ collapsed x = true ∧ trim x = x.
Proof.
  destruct x as [|c x]; [now split|].
  unfold cleanDescription. split.
  - intros E.
    assert (Hn : noise_free (c :: x) = true).
    { apply erase_all_same_length; [exact noise_patterns_literal|].
      fold (remove_noise (c :: x)).
      pose proof (squeeze_length (remove_noise (c :: x))) as H1.
      pose proof (erase_all_length noise_patterns (c :: x)) as H2.
      fold (remove_noise (c :: x)) in H2. rewrite E in H1. lia. }
    rewrite remove_noise_fixed in E by exact Hn.
    split; [exact Hn | now apply squeeze_fixed].
  - intros (Hn & Hc & Ht). rewrite remove_noise_fixed by exact Hn.
    now apply squeeze_fixed.
Qed.

Lemma cleanDescription_fixed_points_witness :
  cleanDescription (u "AMAZON PAY") = u "AMAZON PAY".
Proof.
  apply (proj2 (cleanDescription_fixed_points (u "AMAZON PAY"))).
  repeat split; reflexivity.
Defined.

(** ** Escaping a name for a pattern *)

Lemma special_syntax c : is_special c = is_syntax c.
Proof.
  unfold is_special, is_syntax.
  match goal with
  | |- existsb _ ?a = existsb _ ?b =>
      let a' := eval vm_compute in a in
      let b' := eval vm_compute in b in
      change a with a'; change b with b'
  end.
  cbn [existsb].
  repeat match goal with
         | |- context [c =? ?k] => destruct (N.eqb_spec c k); [subst; reflexivity|]
         end.
  reflexivity.
Qed.

Lemma special_not_backslash c : is_special c = false → (c =? 92) = false.
Proof.
  intros H. destruct (N.eqb_spec c 92) as [->|]; [discriminate | reflexivity].
Qed.

(** X10. The escaped name is a pattern source made of pattern characters
    and identity escapes only, and the string it matches is the name
    itself: this is why the pattern that [findKey] builds around it looks
    for the name as it is written; a name without a character of the
    class is left as it is. *)
Theorem escapeRegex_literal (s : str) :
  literal_source (escapeRegex s) = Some s
  ∧ (forallb (λ c, negb (is_special c)) s = true → escapeRegex s = s).
Proof.
  split.
  - induction s as [|c s IH]; [reflexivity|].
    unfold escapeRegex in *. cbn [flat_map].
    destruct (is_special c) eqn:E.
    + cbn [app literal_source]. change (92 =? 92) with true. cbv iota.
      rewrite <- special_syntax, E, IH. reflexivity.
    + cbn [app literal_source]. rewrite (special_not_backslash c E).
      rewrite <- special_syntax, E, IH. reflexivity.
  - induction s as [|c s IH]; [reflexivity|]. simpl.
    intros [Hc Hs]%andb_true_iff. apply negb_true_iff in Hc.
    unfold escapeRegex in *. cbn [flat_map]. rewrite Hc. simpl.
    now rewrite IH.
Qed.

Lemma escapeRegex_literal_witness : escapeRegex (u "ref no") = u "ref no".
Proof. apply (proj2 (escapeRegex_literal (u "ref no"))). reflexivity. Defined.

(** ** The lines of a document *)

Lemma split_plain sep (s : str) : sep ∉ s → split sep s = [s].
Proof.
  induction s as [|c s IH]; [reflexivity|]. intros [Hc Hs]%not_elem_of_cons.
  simpl. destruct (N.eqb_spec c sep) as [->|_]; [congruence|].
  now rewrite IH.
Qed.

Lemma split_app sep (p : str) rest :
  sep ∉ p → split sep (p ++ sep :: rest) = p :: split sep rest.
Proof.
  induction p as [|c p IH]; simpl.
  - intros _. now rewrite N.eqb_refl.
  - intros [Hc Hp]%not_elem_of_cons.
    destruct (N.eqb_spec c sep) as [->|_]; [congruence|].
    now rewrite IH.
Qed.

Lemma split_join sep (parts : list str) :
  parts ≠ [] → Forall (λ p, sep ∉ p) parts → split sep (join sep parts) = parts.
Proof.
  intros Hne Hparts.
  induction Hparts as [|p parts Hp Hparts IH]; [congruence|].
  destruct parts as [|q parts].
  - simpl. now apply split_plain.
  - change (join sep (p :: q :: parts)) with (p ++ sep :: join sep (q :: parts)).
    rewrite split_app by exact Hp. now rewrite IH.
Qed.

Lemma join_elem sep (parts : list str) c :
  c ∈ join sep parts → c = sep ∨ ∃ p, p ∈ parts ∧ c ∈ p.
Proof.
  induction parts as [|p parts IH]; simpl.
  - intros H. now apply not_elem_of_nil in H.
  - destruct parts as [|q parts].
    + intros H. right. exists p. split; [now left | exact H].
    + intros [H | H]%elem_of_app.
      * right. exists p. split; [now left | exact H].
      * apply elem_of_cons in H as [-> | H]; [now left|].
        apply IH in H as [-> | (p' & Hp' & Hc)]; [now left|].
        right. exists p'. split; [now right | exact Hc].
Qed.

(** X14. A text made of lines joined by line feeds, the lines free of
    line feeds and quotes, with no white space at its start or end, gives
    back these lines: they are what [parseTSV] works on. *)
Theorem lines_of_join (lines : list str) :
  lines ≠ [] → Forall (λ l, (LF ∉ l) ∧ (QUOTE ∉ l)) lines →
  trim (join LF lines) = join LF lines →
  lines_of (join LF lines) = lines.
Proof.
  intros Hne Hlines Htrim. unfold lines_of, normalizeMultiLineFields.
  rewrite nmlf_loop_plain.
  - rewrite Htrim. apply split_join; [exact Hne|].
    eapply Forall_impl; [exact Hlines | now intros l [? _]].
  - intros [H | (l & Hl & Hq)]%join_elem; [discriminate|].
    rewrite Forall_forall in Hlines. now apply Hlines in Hl as [_ ?].
Qed.

Lemma lines_of_join_witness :
  lines_of (u "Date" ++ TAB :: u "Details" ++ LF :: u "01/04/2024" ++ TAB :: u "Rent")
  = [u "Date" ++ TAB :: u "Details"; u "01/04/2024" ++ TAB :: u "Rent"].
Proof.
  apply (lines_of_join [u "Date" ++ TAB :: u "Details";
                        u "01/04/2024" ++ TAB :: u "Rent"]);
    [discriminate | repeat constructor; by_compute | reflexivity].
Defined.

(** ** The row object *)

Lemma fill_lookup_notin headers : ∀ index values (m : gmap str str) h,
  h ∉ headers → fill headers index values m !! h = m !! h.
Proof.
  induction headers as [|h0 headers IH]; intros index values m h Hh; simpl.
  - reflexivity.
  - apply not_elem_of_cons in Hh as [Hne Hh].
    rewrite IH by exact Hh. now apply lookup_insert_ne.
Qed.

Lemma fill_lookup_last headers : ∀ index values (m : gmap str str) k h,
  headers !! k = Some h → (∀ j, (k < j)%nat → headers !! j ≠ Some h) →
  fill headers index values m !! h
  = Some (default [] (values !! (index + k)%nat)).
Proof.
  induction headers as [|h0 headers IH]; intros index values m k h Hk Hlast.
  - discriminate.
  - simpl. destruct k as [|k]; simpl in Hk.
    + injection Hk as ->. rewrite fill_lookup_notin.
      * rewrite lookup_insert_eq. now rewrite Nat.add_0_r.
      * intros (j & Hj)%list_elem_of_lookup.
        apply (Hlast (S j)); [lia | exact Hj].
    + rewrite (IH (S index) values _ k h Hk).
      * do 3 f_equal. lia.
      * intros j Hj. apply (Hlast (S j)). lia.
Qed.

Lemma fill_ext headers : ∀ index v1 v2 (m : gmap str str),
  (∀ k, (k < length headers)%nat →
        default [] (v1 !! (index + k)%nat) = default [] (v2 !! (index + k)%nat)) →
  fill headers index v1 m = fill headers index v2 m.
Proof.
  induction headers as [|h0 headers IH]; intros index v1 v2 m H; simpl.
  - reflexivity.
  - specialize (H O) as H0. rewrite Nat.add_0_r in H0.
    rewrite H0 by (simpl; lia). apply IH.
    intros k Hk. replace (S index + k)%nat with (index + S k)%nat by lia.
    apply H. simpl. lia.
Qed.

Lemma pad_lookup headers values k :
  default [] (pad headers values !! k) = default [] (values !! k).
Proof.
  unfold pad. destruct (decide (k < length values)%nat) as [Hk|Hk].
  - now rewrite lookup_app_l.
  - rewrite lookup_app_r by lia. rewrite (lookup_ge_None_2 values) by lia.
    destruct (replicate _ _ !! _) eqn:E; [|reflexivity].
    now apply lookup_replicate in E as [-> _].
Qed.

(** X16. The own properties of the row object built from a header row and
    the values of a line: there is none under a name that is no header; a
    header (other than "__proto__", which an assignment does not store)
    holds the value at the index of its last occurrence, or the empty
    string when the line has no value there, so of two columns with the
    same name the right one wins and surplus values are dropped; the
    padding of short lines changes nothing. *)
Theorem fill_row (headers values : list str) :
  (∀ h, h ∉ headers → fill headers 0 (pad headers values) ∅ !! h = None)
  ∧ (∀ k h, h ≠ u "__proto__" → headers !! k = Some h →
            (∀ j, (k < j)%nat → headers !! j ≠ Some h) →
            fill headers 0 (pad headers values) ∅ !! h
            = Some (default [] (values !! k)))
  ∧ fill headers 0 (pad headers values) ∅ = fill headers 0 values ∅.
Proof.
  split; [|split].
  - intros h Hh. now rewrite fill_lookup_notin.
  - intros k h _ Hk Hlast. rewrite (fill_lookup_last _ _ _ _ k h Hk Hlast).
    simpl. now rewrite pad_lookup.
  - apply fill_ext. intros k _. apply pad_lookup.
Qed.

Lemma fill_row_witness :
  fill [u "Date"; u "Date"] 0 (pad [u "Date"; u "Date"] [u "a"; u "b"; u "c"]) ∅
    !! u "Date" = Some (u "b").
Proof.
  apply (proj1 (proj2 (fill_row [u "Date"; u "Date"] [u "a"; u "b"; u "c"]))
           1%nat (u "Date")); [discriminate | reflexivity |].
  intros [|[|j]] Hj; [lia | lia | discriminate].
Defined.

(** ** The loop over the data lines *)

Lemma rows_acc headers lines : ∀ acc calls,
  rows headers lines acc calls = acc ++ rows headers lines [] calls.
Proof.
  induction lines as [|line lines IH]; intros acc calls; simpl.
  - now rewrite app_nil_r.
  - destruct (forallb is_empty _); [apply IH|].
    destruct (normalizeTransaction _ headers calls) as [t|]; [|apply IH].
    rewrite IH. rewrite (IH [t]). now rewrite <- app_assoc.
Qed.

Lemma rows_ids headers lines : ∀ calls k t,
  rows headers lines [] calls !! k = Some t → id t = generateId (calls + k).
Proof.
  induction lines as [|line lines IH]; intros calls k t; simpl.
  - discriminate.
  - destruct (forallb is_empty _); [apply IH|].
    destruct (normalizeTransaction _ headers calls) as [nt|] eqn:E; [|apply IH].
    rewrite rows_acc. destruct k as [|k]; simpl.
    + intros [= <-]. rewrite Nat.add_0_r.
      now apply normalizeTransaction_fields in E as [E _].
    + intros H%IH. rewrite H. f_equal. lia.
Qed.

Lemma normalizeTransaction_calls raw headers calls :
  anonymous <$> normalizeTransaction raw headers calls
  = anonymous <$> normalizeTransaction raw headers 0.
Proof.
  unfold normalizeTransaction.
  destruct (default [] (prop raw (dateKey headers))); [reflexivity|].
  destruct (default [] (prop raw (descKey headers))); reflexivity.
Qed.

Lemma rows_row headers lines : ∀ calls,
  map anonymous (rows headers lines [] calls)
  = omap (λ line, anonymous <$> row headers line) lines.
Proof.
  induction lines as [|line lines IH]; intros calls; simpl.
  - reflexivity.
  - unfold row. cbv zeta. destruct (forallb is_empty _); [apply IH|].
    pose proof (normalizeTransaction_calls
                  (fill headers 0
                     (pad headers (map trim (parseTabSeparatedLine line))) ∅)
                  headers calls) as Hc.
    destruct (normalizeTransaction _ headers calls) as [t|];
      destruct (normalizeTransaction _ headers 0) as [t0|];
      try discriminate; cbn [fmap option_fmap option_map] in Hc |- *.
    + apply (inj Some) in Hc. rewrite rows_acc. cbn [map app].
      now rewrite IH, Hc.
    + apply IH.
Qed.

Lemma fill_pad headers values :
  fill headers 0 (pad headers values) ∅ = fill headers 0 values ∅.
Proof. apply fill_ext. intros k _. apply pad_lookup. Qed.

Lemma fill_lookup_nodup headers values k h :
  NoDup headers → headers !! k = Some h →
  fill headers 0 values ∅ !! h = Some (default [] (values !! k)).
Proof.
  intros Hnd Hk. rewrite (fill_lookup_last headers 0 values ∅ k h Hk).
  - reflexivity.
  - intros j Hj Hh. pose proof (NoDup_lookup _ _ _ _ Hnd Hk Hh). lia.
Qed.

(** ** Column resolution *)

Lemma lit_at_exact cs s r : lit_at false cs s = Some r ↔ s = cs ++ r.
Proof.
  revert s. induction cs as [|a cs IH]; intros [|b s]; simpl.
  - split; congruence.
  - split; congruence.
  - split; discriminate.
  - destruct (N.eqb_spec a b) as [->|Hne].
    + rewrite IH. split; [now intros -> | now intros [= ->]].
    + split; [discriminate | intros [= ? _]; congruence].
Qed.

(** [word_at]: the name stands at the head and what follows it, if
    anything, is no lower-case letter. *)
Lemma word_at_spec name s :
  word_at name s = true
  ↔ ∃ post, s = name ++ post ∧ ∀ c, head post = Some c → is_lower c = false.
Proof.
  unfold word_at. destruct (lit_at false name s) as [r|] eqn:E.
  - apply lit_at_exact in E as ->. split.
    + intros H. exists r. split; [reflexivity|]. destruct r as [|c r].
      * discriminate.
      * intros ? [= <-]. now apply negb_true_iff in H.
    + intros (post & ->%app_inv_head & H). destruct post as [|c post].
      * reflexivity.
      * apply negb_true_iff. now apply H.
  - split; [discriminate|]. intros (post & -> & _).
    assert (H : lit_at false name (name ++ post) = Some post)
      by now apply lit_at_exact.
    congruence.
Qed.

Lemma word_test_spec name s : ∀ boundary,
  word_test name boundary s = true
  ↔ ∃ pre post, s = pre ++ name ++ post
      ∧ match last pre with
        | Some c => is_lower c = false
        | None => boundary = true
        end
      ∧ ∀ c, head post = Some c → is_lower c = false.
Proof.
  induction s as [|a s IH]; intros boundary.
  - cbn [word_test]. rewrite orb_false_r, andb_true_iff, word_at_spec. split.
    + intros [-> (post & E & H)]. now exists [], post.
    + intros (pre & post & E & Hb & H).
      destruct pre as [|? ?]; [|discriminate]. split; [exact Hb | now exists post].
  - cbn [word_test]. rewrite orb_true_iff, andb_true_iff, word_at_spec, IH.
    split.
    + intros [[-> (post & E & H)] | (pre & post & E & Hb & H)].
      * now exists [], post.
      * exists (a :: pre), post. rewrite E. split; [reflexivity|].
        split; [|exact H]. destruct pre as [|b pre].
        -- simpl in *. now apply negb_true_iff in Hb.
        -- change (last (a :: b :: pre)) with (last (b :: pre)).
           destruct (last (b :: pre)) eqn:El; [exact Hb|].
           now apply last_None in El.
    + intros (pre & post & E & Hb & H). destruct pre as [|b pre].
      * left. split; [exact Hb | now exists post].
      * right. injection E as <- E. exists pre, post.
        split; [exact E|]. split; [|exact H].
        destruct pre as [|b' pre].
        -- simpl in *. now apply negb_true_iff.
        -- change (last (a :: b' :: pre)) with (last (b' :: pre)) in Hb.
           destruct (last (b' :: pre)) eqn:El; [exact Hb|].
           now apply last_None in El.
Qed.

Lemma last_elem (s : str) c : last s = Some c → c ∈ s.
Proof.
  intros H. apply last_Some in H as [l' ->]. apply elem_of_app. right.
  now apply list_elem_of_singleton.
Qed.

(** X11. The word-boundary test of [findKey] holds exactly when the name
    occurs in the header with no lower-case letter right before it and
    none right after it; so in a header made of lower-case letters only
    the name matches the whole header or nothing, and a shorter name such
    as "cr" does not match "description". *)
Theorem word_test_boundaries (name s : str) :
  (word_test name true s = true
   ↔ ∃ pre post, s = pre ++ name ++ post
       ∧ (∀ c, last pre = Some c → is_lower c = false)
       ∧ (∀ c, head post = Some c → is_lower c = false))
  ∧ (forallb is_lower s = true → word_test name true s = str_eqb name s).
Proof.
  assert (Hspec : word_test name true s = true
                  ↔ ∃ pre post, s = pre ++ name ++ post
                      ∧ (∀ c, last pre = Some c → is_lower c = false)
                      ∧ (∀ c, head post = Some c → is_lower c = false)).
  { rewrite word_test_spec. split.
    - intros (pre & post & E & Hb & H). exists pre, post.
      split; [exact E|]. split; [|exact H].
      intros c Hc. now rewrite Hc in Hb.
    - intros (pre & post & E & Hb & H). exists pre, post.
      split; [exact E|]. split; [|exact H].
      destruct (last pre); [now apply Hb | reflexivity]. }
  split; [exact Hspec|].
  intros Hlow. unfold str_eqb.
  case_eq (word_test name true s); intros Hw.
  - apply Hspec in Hw as (pre & post & -> & Hb & H).
    rewrite !forallb_app in Hlow.
    apply andb_true_iff in Hlow as [Hpre Hlow].
    apply andb_true_iff in Hlow as [_ Hpost].
    assert (pre = []) as ->.
    { destruct (last pre) as [c|] eqn:E; [|now apply last_None in E].
      specialize (Hb c eq_refl). apply last_elem in E.
      rewrite forallb_forall in Hpre. apply list_elem_of_In in E.
      apply Hpre in E. congruence. }
    assert (post = []) as ->.
    { destruct post as [|c post]; [reflexivity|].
      specialize (H c eq_refl). simpl in Hpost. now rewrite H in Hpost. }
    symmetry. apply bool_decide_eq_true. simpl. now rewrite app_nil_r.
  - symmetry. apply bool_decide_eq_false. intros <-.
    assert (word_test name true name = true); [|congruence].
    apply word_test_spec. exists [], []. simpl. rewrite app_nil_r. now split.
Qed.

Lemma word_test_boundaries_witness :
  word_test (u "cr") true (u "description") = false.
Proof.
  exact (proj2 (word_test_boundaries (u "cr") (u "description")) eq_refl).
Defined.

Lemma word_test_self name : word_test name true name = true.
Proof.
  apply word_test_spec. exists [], []. simpl. rewrite app_nil_r. now split.
Qed.

(** ** [findKey] *)

Lemma exact_word possibleNames header :
  exact_key possibleNames header = true → word_key possibleNames header = true.
Proof.
  unfold exact_key, word_key. rewrite !existsb_exists.
  intros (name & Hin & H). exists name. split; [exact Hin|].
  unfold str_eqb in H. apply bool_decide_eq_true in H. rewrite H.
  apply word_test_self.
Qed.

Lemma findKey_passes headers possibleNames :
  findKey headers possibleNames
  = match find (exact_key possibleNames) headers with
    | Some header => Some header
    | None => find (word_key possibleNames) headers
    end.
Proof. reflexivity. Qed.

Lemma find_first {A} (p : A → bool) (l : list A) x :
  find p l = Some x
  ↔ ∃ pre post, l = pre ++ x :: post ∧ p x = true
                ∧ Forall (λ y, p y = false) pre.
Proof.
  induction l as [|a l IH]; simpl.
  - split; [discriminate|]. intros (pre & post & E & _). now destruct pre.
  - destruct (p a) eqn:Ha.
    + split.
      * intros [= ->]. exists [], l. repeat split; auto.
      * intros (pre & post & E & Hx & Hpre). destruct pre as [|b pre].
        -- now injection E as ->.
        -- injection E as -> _. apply Forall_cons in Hpre as [Hb _]. congruence.
    + rewrite IH. split.
      * intros (pre & post & -> & Hx & Hpre). exists (a :: pre), post.
        repeat split; auto.
      * intros (pre & post & E & Hx & Hpre). destruct pre as [|b pre].
        -- injection E as -> _. congruence.
        -- injection E as -> ->. apply Forall_cons in Hpre as [_ Hpre].
           now exists pre, post.
Qed.

Lemma find_none {A} (p : A → bool) (l : list A) :
  find p l = None ↔ Forall (λ y, p y = false) l.
Proof.
  induction l as [|a l IH]; simpl.
  - split; [constructor | reflexivity].
  - destruct (p a) eqn:Ha.
    + split; [discriminate|]. intros [Hb _]%Forall_cons. congruence.
    + rewrite IH. split; [now constructor | now intros [_ ?]%Forall_cons].
Qed.

(** X12. [findKey] returns the first header that equals one of the names
    (after lower-casing and trimming) when there is one, even when a
    header to its left holds a name as a word; otherwise the first header
    that holds a name as a word; and [null] exactly when no header holds a
    name as a word. *)
Theorem findKey_spec (headers possibleNames : list str) :
  (∀ pre h post, headers = pre ++ h :: post →
     exact_key possibleNames h = true →
     Forall (λ h', exact_key possibleNames h' = false) pre →
     findKey headers possibleNames = Some h)
  ∧ (∀ pre h post, headers = pre ++ h :: post →
       word_key possibleNames h = true →
       Forall (λ h', word_key possibleNames h' = false) pre →
       Forall (λ h', exact_key possibleNames h' = false) headers →
       findKey headers possibleNames = Some h)
  ∧ (findKey headers possibleNames = None
     ↔ Forall (λ h', word_key possibleNames h' = false) headers)
  ∧ (∀ h, findKey headers possibleNames = Some h →
          h ∈ headers ∧ word_key possibleNames h = true).
Proof.
  rewrite findKey_passes.
  split; [|split; [|split]].
  - intros pre h post E Hh Hpre.
    assert (H : find (exact_key possibleNames) headers = Some h)
      by (apply find_first; now exists pre, post).
    now rewrite H.
  - intros pre h post E Hh Hpre Hex.
    apply find_none in Hex. rewrite Hex.
    apply find_first. now exists pre, post.
  - destruct (find (exact_key possibleNames) headers) as [h|] eqn:E.
    + split; [discriminate|]. intros Hall.
      apply find_first in E as (pre & post & -> & Hh & _).
      apply exact_word in Hh. apply Forall_app in Hall as [_ Hall].
      apply Forall_cons in Hall as [Hall _]. congruence.
    + apply find_none.
  - intros h. destruct (find (exact_key possibleNames) headers) as [h'|] eqn:E.
    + intros [= ->]. apply find_first in E as (pre & post & -> & Hh & _).
      split; [|now apply exact_word]. apply elem_of_app. right. now left.
    + intros (pre & post & -> & Hh & _)%find_first.
      split; [|exact Hh]. apply elem_of_app. right. now left.
Qed.

(** ** Generated ids *)

Lemma digits_of_uint_digits d : forallb is_digit (digits_of_uint d) = true.
Proof. induction d; simpl; auto. Qed.

Lemma digits_of_uint_inj d d' :
  digits_of_uint d = digits_of_uint d' → d = d'.
Proof.
  revert d'. induction d; intros d'; destruct d'; simpl; intros H;
    try discriminate; try reflexivity; injection H as H; f_equal; now apply IHd.
Qed.

Lemma decimal_inj n n' : decimal n = decimal n' → n = n'.
Proof.
  intros H%digits_of_uint_inj. now apply DecimalN.Unsigned.to_uint_inj.
Qed.

(** Two runs of digits, each followed by a unit that is no digit. *)
Lemma digits_then_inj (a b : str) x y r r' :
  forallb is_digit a = true → forallb is_digit b = true →
  is_digit x = false → is_digit y = false →
  a ++ x :: r = b ++ y :: r' → a = b ∧ x :: r = y :: r'.
Proof.
  intros Ha Hb Hx Hy. revert b Hb.
  induction a as [|c a IH]; intros [|e b] Hb; simpl in *.
  - auto.
  - intros [= -> _]. apply andb_true_iff in Hb as [Hb _]. congruence.
  - intros [= -> _]. apply andb_true_iff in Ha as [Ha _]. congruence.
  - apply andb_true_iff in Ha as [_ Ha]. apply andb_true_iff in Hb as [_ Hb].
    intros [= -> H]. apply IH in H as [-> H]; auto.
Qed.

Lemma generateId_inj k k' :
  generateId k = generateId k'
  ↔ Date_now k = Date_now k'
    ∧ substr 2 9 (Math_random36 k) = substr 2 9 (Math_random36 k').
Proof.
  unfold generateId. split.
  - intros H%app_inv_head. change (u "_" ++ ?r) with (95 :: r) in H.
    apply digits_then_inj in H as [H1 H2];
      try apply digits_of_uint_digits; try reflexivity.
    split; [now apply decimal_inj | now injection H2].
  - now intros [-> ->].
Qed.

(** ** The ids of the transactions *)

Lemma parseTSV_rows content transactions :
  parseTSV content = Return transactions →
  ∃ headerIndex headers,
    findHeaderRow (lines_of content) = Some (headerIndex, headers)
    ∧ (0 ≤ headerIndex)%Z
    ∧ transactions
      = rows headers (drop (Z.to_nat (headerIndex + 1)) (lines_of content)) [] 0.
Proof.
  intros H. destruct (Nat.ltb_spec (length (lines_of content)) 2) as [Hl|Hl].
  - unfold parseTSV in H. apply Nat.ltb_lt in Hl. now rewrite Hl in H.
  - destruct (parseTSV_returns content Hl)
      as (i & h & E & Hi & Hp).
    exists i, h. split; [exact E|]. split; [exact Hi|]. congruence.
Qed.

(** X17. The transaction at index [k] of the result carries the id of the
    [k]-th call of [generateId] (a skipped row takes no id), which is
    "txn_", the clock reading in decimal, "_" and at most nine units of
    the random text; two transactions have the same id exactly when both
    the clock readings and the random parts of their calls agree. *)
Theorem parseTSV_ids content transactions :
  parseTSV content = Return transactions →
  (∀ k t, transactions !! k = Some t →
     id t = u "txn_" ++ decimal (Date_now k) ++ u "_"
            ++ take 9 (drop 2 (Math_random36 k)))
  ∧ (∀ j k t t', transactions !! j = Some t → transactions !! k = Some t' →
       (id t = id t'
        ↔ Date_now j = Date_now k
          ∧ take 9 (drop 2 (Math_random36 j))
            = take 9 (drop 2 (Math_random36 k)))).
Proof.
  intros (i & h & _ & _ & ->)%parseTSV_rows.
  split.
  - intros k t Ht. now apply rows_ids in Ht.
  - intros j k t t' Ht Ht'. apply rows_ids in Ht, Ht'. rewrite Ht, Ht'.
    apply generateId_inj.
Qed.

(** X18. But for the ids, the transactions are those of the data lines
    taken one by one, in the order of the lines: a line adds its
    transaction or nothing, whatever the other lines hold. *)
Theorem parseTSV_by_line content transactions :
  parseTSV content = Return transactions →
  ∃ headerIndex headers,
    findHeaderRow (lines_of content) = Some (headerIndex, headers)
    ∧ map anonymous transactions
      = omap (λ line, anonymous <$> row headers line)
          (drop (Z.to_nat (headerIndex + 1)) (lines_of content)).
Proof.
  intros (i & h & E & _ & ->)%parseTSV_rows.
  exists i, h. split; [exact E | apply rows_row].
Qed.

(** ** What every transaction satisfies *)

Lemma normalizeTransaction_derived raw headers calls t :
  normalizeTransaction raw headers calls = Some t →
  amount t = (if positive_number (credit t) then credit t else SFopp (debit t))
  ∧ type t = (if positive_number (credit t) then u "credit" else u "debit")
  ∧ category t = None ∧ subcategory t = None ∧ notes t = [].
Proof.
  unfold normalizeTransaction.
  destruct (default [] (prop raw (dateKey headers))); [discriminate|].
  destruct (default [] (prop raw (descKey headers))); [discriminate|].
  intros H. apply (inj Some) in H. rewrite <- H.
  cbn [amount type category subcategory notes credit debit].
  repeat split.
Qed.

Lemma isNaN_SFopp x : isNaN (SFopp x) = isNaN x.
Proof. now destruct x. Qed.

(** X19. Every transaction of the parser is a credit with the credit as
    amount when the credit is above 0, and a debit with the negated debit
    as amount otherwise; none of its four numbers is NaN; its category and
    subcategory are absent and its notes empty; its date and its value
    date are absent or of the form YYYY-MM-DD; its description has no
    white space at either end and only single U+0020 inside. *)
Theorem parseTSV_transaction content transactions t :
  parseTSV content = Return transactions → t ∈ transactions →
  (type t = u "credit" ∧ positive_number (credit t) = true
     ∧ amount t = credit t
   ∨ type t = u "debit" ∧ positive_number (credit t) = false
     ∧ amount t = SFopp (debit t))
  ∧ isNaN (debit t) = false ∧ isNaN (credit t) = false
  ∧ isNaN (balance t) = false ∧ isNaN (amount t) = false
  ∧ category t = None ∧ subcategory t = None ∧ notes t = []
  ∧ (∀ r, date t = Some r → iso_shaped r)
  ∧ (∀ r, valueDate t = Some r → iso_shaped r)
  ∧ trim (description t) = description t
  ∧ collapsed (description t) = true.
Proof.
  intros Hp Ht.
  destruct (parseTSV_elem _ _ _ Hp Ht)
    as (raw & headers & k & E).
  destruct (normalizeTransaction_fields
              _ _ _ _ E) as (_ & Hd & Hv & Hdesc & Hdeb & Hcre & Hbal).
  destruct (normalizeTransaction_derived _ _ _ _ E)
    as (Ham & Hty & Hcat & Hsub & Hnotes).
  assert (Hn1 : isNaN (debit t) = false)
    by (rewrite Hdeb; apply parseAmount_not_NaN).
  assert (Hn2 : isNaN (credit t) = false)
    by (rewrite Hcre; apply parseAmount_not_NaN).
  split; [|split; [exact Hn1 | split; [exact Hn2 | split; [|split]]]].
  - rewrite Ham, Hty. destruct (positive_number (credit t)); auto.
  - rewrite Hbal. apply parseAmount_not_NaN.
  - rewrite Ham. destruct (positive_number (credit t)); [exact Hn2|].
    now rewrite isNaN_SFopp.
  - repeat split; try assumption.
    + intros r Hr. rewrite Hd in Hr. now apply parseDate_iso_shaped in Hr.
    + intros r Hr. rewrite Hv in Hr. now apply parseDate_iso_shaped in Hr.
    + rewrite Hdesc. apply cleanDescription_trimmed.
    + rewrite Hdesc. apply cleanDescription_collapsed.
Qed.

(** ** What the header locator returns *)

Lemma fhr_loop_sound rest : ∀ i todo j headers,
  fhr_loop rest i todo = Some (j, headers) →
  ∃ k line, j = (i + Z.of_nat k)%Z ∧ (k < todo)%nat
            ∧ rest !! k = Some line ∧ is_header line = true
            ∧ headers = headers_of line
            ∧ ∀ k' l, (k' < k)%nat → rest !! k' = Some l → is_header l = false.
Proof.
  induction rest as [|l0 rest IH]; intros i todo j headers.
  - now destruct todo.
  - destruct todo as [|todo]; [discriminate|]. simpl.
    destruct (is_header l0) eqn:E0.
    + intros [= <- <-]. exists O, l0.
      split; [lia|]. split; [lia|]. split; [reflexivity|].
      split; [exact E0|]. split; [reflexivity|]. intros k' l Hk. lia.
    + intros (k & line & -> & Hk & Hl & Hh & Hhs & Hfirst)%IH.
      exists (S k), line. repeat split; try assumption; try lia.
      intros [|k'] l Hk' Hl'; simpl in Hl'; [congruence|].
      apply (Hfirst k'); [lia | exact Hl'].
Qed.

Lemma fhr_loop_none_inv rest : ∀ i todo,
  fhr_loop rest i todo = None →
  ∀ k line, (k < todo)%nat → rest !! k = Some line → is_header line = false.
Proof.
  induction rest as [|l0 rest IH]; intros i todo H k line Hk Hl.
  - discriminate.
  - destruct todo as [|todo]; [lia|]. simpl in H.
    destruct (is_header l0) eqn:E0; [discriminate|].
    destruct k as [|k]; simpl in Hl; [congruence|].
    apply (IH _ _ H k); [lia | exact Hl].
Qed.

Lemma headers_of_nonempty line : headers_of line ≠ [].
Proof.
  unfold headers_of, parseTabSeparatedLine.
  intros H%(f_equal (@length str)). rewrite length_map, tsl_loop_length in H.
  simpl in H. lia.
Qed.

(** X13. What the header locator returns is a line among the first 50
    with its trimmed tokens, at least one; no line above it qualifies;
    and the line qualifies itself, unless it is line 0 and none of the
    first 50 lines qualifies. *)
Theorem findHeaderRow_sound lines headerIndex headers :
  findHeaderRow lines = Some (headerIndex, headers) →
  ∃ k line,
    headerIndex = Z.of_nat k ∧ (k < 50)%nat ∧ lines !! k = Some line
    ∧ headers = headers_of line ∧ headers ≠ []
    ∧ (∀ k' l, (k' < k)%nat → lines !! k' = Some l → is_header l = false)
    ∧ (is_header line = true
       ∨ k = O ∧ ∀ k' l, (k' < 50)%nat → lines !! k' = Some l →
                         is_header l = false).
Proof.
  unfold findHeaderRow.
  destruct (fhr_loop lines 0 50) as [[j h]|] eqn:E.
  - intros [= <- <-].
    apply fhr_loop_sound in E as (k & line & -> & Hk & Hl & Hh & -> & Hfirst).
    exists k, line.
    split; [lia|]. split; [exact Hk|]. split; [exact Hl|].
    split; [reflexivity|]. split; [apply headers_of_nonempty|].
    split; [exact Hfirst | now left].
  - destruct lines as [|line0 rest]; [discriminate|]. intros [= <- <-].
    exists O, line0.
    split; [reflexivity|]. split; [lia|]. split; [reflexivity|].
    split; [reflexivity|]. split; [apply headers_of_nonempty|].
    split; [intros k' l Hk'; lia|].
    right. split; [reflexivity|]. exact (fhr_loop_none_inv _ _ _ E).
Qed.

(** ** When [parseTSV] throws *)

Lemma split_length sep s :
  length (split sep s) = S (length (List.filter (N.eqb sep) s)).
Proof.
  induction s as [|c s IH]; simpl; [reflexivity|].
  rewrite (N.eqb_sym sep c). destruct (c =? sep); simpl; [now rewrite IH|].
  destruct (split sep s); simpl in *; lia.
Qed.

Lemma filter_nil_notin sep (s : str) :
  List.filter (N.eqb sep) s = [] ↔ sep ∉ s.
Proof.
  induction s as [|c s IH]; simpl.
  - split; [intros _; apply not_elem_of_nil | reflexivity].
  - rewrite not_elem_of_cons. destruct (N.eqb_spec sep c) as [->|Hne].
    + split; [discriminate | intros [? _]; congruence].
    + rewrite IH. tauto.
Qed.

Lemma lines_of_few content :
  (length (lines_of content) < 2)%nat
  ↔ LF ∉ trim (normalizeMultiLineFields content).
Proof.
  unfold lines_of. rewrite split_length, <- filter_nil_notin.
  destruct (List.filter _ _); simpl; split; intros; try lia; congruence.
Qed.

(** X15. [parseTSV] throws exactly when the normalized text, trimmed, has
    no line feed, and what it throws then is the error "Invalid TSV file:
    No data rows found"; the error about a missing header row is never
    thrown, and no other error is. *)
Theorem parseTSV_throws content :
  (LF ∉ trim (normalizeMultiLineFields content) →
   parseTSV content = Throw (Error (u "Invalid TSV file: No data rows found")))
  ∧ (LF ∈ trim (normalizeMultiLineFields content) →
     ∃ transactions, parseTSV content = Return transactions)
  ∧ (∀ e, parseTSV content = Throw e →
          e = Error (u "Invalid TSV file: No data rows found")
          ∧ LF ∉ trim (normalizeMultiLineFields content)).
Proof.
  assert (Hfew : LF ∉ trim (normalizeMultiLineFields content) →
            parseTSV content
            = Throw (Error (u "Invalid TSV file: No data rows found"))).
  { intros H%lines_of_few. unfold parseTSV.
    apply Nat.ltb_lt in H. now rewrite H. }
  assert (Hmany : LF ∈ trim (normalizeMultiLineFields content) →
            ∃ transactions, parseTSV content = Return transactions).
  { intros H.
    destruct (Nat.ltb_spec (length (lines_of content)) 2) as [Hl|Hl].
    - now apply lines_of_few in Hl.
    - destruct (parseTSV_returns content Hl)
        as (i & h & _ & _ & ->). eauto. }
  split; [exact Hfew | split; [exact Hmany|]].
  intros e He.
  destruct (decide (LF ∈ trim (normalizeMultiLineFields content))) as [Hin|Hout].
  - apply Hmany in Hin as [ts Hts]. congruence.
  - split; [|exact Hout]. rewrite (Hfew Hout) in He. congruence.
Qed.

(** ** The header row and the data lines *)

Lemma rows_none headers lines : ∀ transactions calls,
  dateKey headers = None ∨ descKey headers = None → u "null" ∉ headers →
  rows headers lines transactions calls = transactions.
Proof.
  intros transactions calls Hkey Hnull. revert transactions calls.
  induction lines as [|line lines IH]; intros transactions calls; simpl.
  - reflexivity.
  - destruct (forallb is_empty _); [apply IH|].
    assert (Hn : normalizeTransaction
                   (fill headers 0
                      (pad headers (map trim (parseTabSeparatedLine line))) ∅)
                   headers calls = None).
    { apply normalizeTransaction_None.
      destruct Hkey as [-> | ->]; [left | right]; unfold prop; cbn [default];
        now rewrite fill_lookup_notin, lookup_empty. }
    rewrite Hn. apply IH.
Qed.

(** X21. The lines above the header row are never read as data: when a
    line among the first 50 qualifies and no line above it does, the
    result is made of the lines below it under its trimmed tokens; when
    none of the first 50 lines qualifies, line 0 is the header row and
    every other line is read as data. *)
Theorem parseTSV_header_found content :
  (∀ pre hdr data,
     lines_of content = pre ++ hdr :: data →
     (2 ≤ length (pre ++ hdr :: data))%nat → (length pre < 50)%nat →
     Forall (λ l, is_header l = false) pre → is_header hdr = true →
     parseTSV content = Return (rows (headers_of hdr) data [] 0))
  ∧ (∀ line0 data,
       lines_of content = line0 :: data → data ≠ [] →
       (∀ k l, (k < 50)%nat → (line0 :: data) !! k = Some l →
               is_header l = false) →
       parseTSV content = Return (rows (headers_of line0) data [] 0)).
Proof.
  split.
  - intros pre hdr data Hlines Hlen Hpre Hnone Hhdr.
    unfold parseTSV, findHeaderRow. rewrite Hlines.
    apply Nat.ltb_ge in Hlen. rewrite Hlen.
    rewrite (fhr_loop_found (pre ++ hdr :: data) 0%Z 50 (length pre) hdr).
    + replace (0 + Z.of_nat (length pre))%Z with (Z.of_nat (length pre)) by lia.
      destruct (Z.eqb_spec (Z.of_nat (length pre)) (-1)); [lia|].
      do 2 f_equal.
      replace (Z.to_nat (Z.of_nat (length pre) + 1)) with (S (length pre)) by lia.
      change (pre ++ hdr :: data) with (pre ++ [hdr] ++ data).
      rewrite app_assoc. apply drop_app_length'. rewrite length_app. simpl. lia.
    + exact Hpre.
    + now rewrite lookup_app_r, Nat.sub_diag by lia.
    + exact Hhdr.
    + intros j l Hj Hl. rewrite lookup_app_l in Hl by exact Hj.
      rewrite Forall_forall in Hnone. apply Hnone.
      apply list_elem_of_lookup. eauto.
  - intros line0 data Hlines Hdata Hnone.
    unfold parseTSV, findHeaderRow. rewrite Hlines.
    destruct data as [|l1 data]; [congruence|]. cbn [length Nat.ltb Nat.leb].
    rewrite (fhr_loop_none (line0 :: l1 :: data) 0%Z 50 Hnone).
    reflexivity.
Qed.

(** X22. When the header row has no date column or no description column
    for [findKey] (and no column named "null", which the lookup of an
    absent key would read), every data line is skipped and the result is
    empty; no error is raised.  A row can qualify as header row and still
    have no date column, since the header test looks for substrings and
    [findKey] for words. *)
Theorem parseTSV_no_key content headerIndex headers :
  findHeaderRow (lines_of content) = Some (headerIndex, headers) →
  dateKey headers = None ∨ descKey headers = None → u "null" ∉ headers →
  (2 ≤ length (lines_of content))%nat →
  parseTSV content = Return [].
Proof.
  intros Hf Hkey Hnull Hlen.
  destruct (parseTSV_returns content Hlen)
    as (i & h & Hf' & _ & ->).
  rewrite Hf in Hf'. injection Hf' as <- <-.
  now rewrite rows_none.
Qed.

End Host.

(** ** Examples on a concrete host *)

Lemma findHeaderRow_spec_witness :
  findHeaderRow asciiLower
    [u "Account Statement"; u "Txn Date" ++ TAB :: u "Description" ++ TAB :: u "Debit"]
  = Some (1%Z, [u "Txn Date"; u "Description"; u "Debit"])
  ∧ findHeaderRow asciiLower [u "a"; u "b"] = Some (0%Z, [u "a"]).
Proof.
  split.
  - destruct (findHeaderRow_spec asciiLower
                [u "Account Statement";
                 u "Txn Date" ++ TAB :: u "Description" ++ TAB :: u "Debit"]
                (u "Account Statement")
                [u "Txn Date" ++ TAB :: u "Description" ++ TAB :: u "Debit"]
                eq_refl) as (_ & H & _ & _).
    change (Some (1%Z, [u "Txn Date"; u "Description"; u "Debit"]))
      with (Some (Z.of_nat 1,
                  headers_of (u "Txn Date" ++ TAB :: u "Description"
                                ++ TAB :: u "Debit"))).
    apply H; [lia | reflexivity | reflexivity |].
    intros [|j] l Hj Hl; [|lia]. vm_compute in Hl. injection Hl as <-.
    reflexivity.
  - destruct (findHeaderRow_spec asciiLower [u "a"; u "b"] (u "a") [u "b"]
                eq_refl) as (_ & _ & H & _).
    change [u "a"] with (headers_of (u "a")).
    apply H. intros [|[|i]] line _ Hl; vm_compute in Hl;
      [injection Hl as <-; reflexivity | injection Hl as <-; reflexivity |].
    destruct i; discriminate.
Defined.

(** C1 as stated fails: a line whose only amount column is "Withdrawal"
    meets the three conditions of the specification and is not taken. *)
Lemma findHeaderRow_withdrawal_not_header :
  let line1 := u "Date" ++ TAB :: u "Withdrawal" ++ TAB :: u "Description" in
  spec_is_header asciiLower (u "Foo") = false
  ∧ spec_is_header asciiLower line1 = true
  ∧ findHeaderRow asciiLower [u "Foo"; line1] = Some (0%Z, [u "Foo"])
  ∧ findHeaderRow asciiLower [u "Foo"; line1]
    ≠ Some (1%Z, headers_of line1).
Proof.
  cbv zeta. split; [vm_compute; reflexivity|].
  split; [vm_compute; reflexivity|]. split; [vm_compute; reflexivity|].
  vm_compute. discriminate.
Qed.

Lemma parseTSV_too_few_lines_witness :
  parseTSV asciiLower (λ _, 0) (λ _, []) (u "Date" ++ TAB :: u "Description")
  = Throw (Error (u "Invalid TSV file: No data rows found")).
Proof.
  apply (parseTSV_too_few_lines asciiLower). vm_compute. lia.
Defined.

Lemma normalizeTransaction_rejection_witness :
  ∃ t, normalizeTransaction asciiLower (λ _, 0) (λ _, [])
         (<[u "Debit" := u "n/a"]>
            (<[u "Description" := u "fee"]> (<[u "Date" := u "sometime"]> ∅)))
         [u "Date"; u "Description"; u "Debit"] 0 = Some t
       ∧ date t = None ∧ debit t = zero.
Proof.
  destruct (normalizeTransaction_rejection asciiLower (λ _, 0) (λ _, [])
              (<[u "Debit" := u "n/a"]>
                 (<[u "Description" := u "fee"]> (<[u "Date" := u "sometime"]> ∅)))
              [u "Date"; u "Description"; u "Debit"] 0) as (_ & H & _).
  destruct H as (t & Ht & _ & Hd & _ & Hdeb & _);
    [vm_compute; discriminate | vm_compute; discriminate |].
  exists t. split; [exact Ht|]. split.
  - apply Hd. vm_compute. reflexivity.
  - apply (Hdeb (u "n/a")); vm_compute; reflexivity.
Defined.

(** C9 as stated fails: a debit cell with a minus sign gives a negative
    debit. *)
Lemma parseTSV_negative_debit :
  ∃ t, parseTSV asciiLower (λ _, 0) (λ _, [])
         (tsv [ [u "Date"; u "Description"; u "Debit"];
                [u "01/04/2024"; u "Refund"; u "-500.00"] ]) = Return [t]
       ∧ debit t = number_of_decimal true 500 0
       ∧ nonnegative (debit t) = false.
Proof.
  eexists. split; [vm_compute; reflexivity|]. split; vm_compute; reflexivity.
Qed.

Lemma parseTSV_amount_signs_witness :
  ∃ t, parseTSV asciiLower (λ _, 0) (λ _, [])
         (tsv [ [u "Date"; u "Description"; u "Debit"; u "Credit"];
                [u "01/04/2024"; u "Refund"; u "-500.00"; u "12.50"] ]) = Return [t]
       ∧ (∃ cell r, debit t = parseAmount (Some cell) ∧ amount_text cell = 45 :: r)
       ∧ nonnegative (credit t) = true
       ∧ ∃ headers line,
           headers = [u "Date"; u "Description"; u "Debit"; u "Credit"]
           ∧ line = join TAB [u "01/04/2024"; u "Refund"; u "-500.00"; u "12.50"]
           ∧ prop (fill headers 0
                     (pad headers (map trim (parseTabSeparatedLine line))) ∅)
                  (debitKey asciiLower headers) = Some (u "-500.00").
Proof.
  eexists. split; [vm_compute; reflexivity|].
  match goal with
  | |- (∃ cell r, debit ?t = _ ∧ _) ∧ _ =>
      destruct (parseTSV_amount_signs asciiLower (λ _, 0) (λ _, [])
                  (tsv [ [u "Date"; u "Description"; u "Debit"; u "Credit"];
                         [u "01/04/2024"; u "Refund"; u "-500.00"; u "12.50"] ])
                  [t] t)
        as (i & headers & line & k & Hf & Hl & _ & _ & _ & Hd & Hc);
        [vm_compute; reflexivity | apply list_elem_of_here |]
  end.
  vm_compute in Hf. injection Hf as <- <-.
  vm_compute in Hl. apply list_elem_of_singleton in Hl. subst line.
  split; [|split].
  - destruct Hd as [Hd | (cell & r & _ & Hd & Hr)];
      [vm_compute in Hd; discriminate | eauto].
  - vm_compute. reflexivity.
  - eexists _, _. split; [reflexivity|]. split; [reflexivity|].
    vm_compute. reflexivity.
Defined.

Lemma findKey_spec_witness :
  findKey asciiLower [u "Txn Date"; u "Date"] [u "date"] = Some (u "Date").
Proof.
  apply (proj1 (findKey_spec asciiLower [u "Txn Date"; u "Date"] [u "date"])
           [u "Txn Date"] (u "Date") []); [reflexivity | reflexivity |].
  repeat constructor.
Defined.

Lemma findHeaderRow_sound_witness :
  ∃ k line,
    0%Z = Z.of_nat k ∧ (k < 50)%nat ∧ [u "a"; u "b"] !! k = Some line
    ∧ [u "a"] = headers_of line ∧ [u "a"] ≠ []
    ∧ (∀ k' l, (k' < k)%nat → [u "a"; u "b"] !! k' = Some l →
               is_header asciiLower l = false)
    ∧ (is_header asciiLower line = true
       ∨ k = O ∧ ∀ k' l, (k' < 50)%nat → [u "a"; u "b"] !! k' = Some l →
                         is_header asciiLower l = false).
Proof.
  apply (findHeaderRow_sound asciiLower [u "a"; u "b"] 0%Z [u "a"]).
  reflexivity.
Defined.

Lemma parseTSV_throws_witness :
  parseTSV asciiLower (λ _, 0) (λ _, [])
    (QUOTE :: u "Date" ++ LF :: u "01/04/2024" ++ [QUOTE])
  = Throw (Error (u "Invalid TSV file: No data rows found")).
Proof.
  apply (proj1 (parseTSV_throws asciiLower (λ _, 0) (λ _, [])
                  (QUOTE :: u "Date" ++ LF :: u "01/04/2024" ++ [QUOTE]))).
  match goal with |- ?P => apply (@bool_decide_unpack P _) end.
  vm_compute. exact I.
Defined.

Lemma parseTSV_ids_witness :
  ∃ ts, parseTSV asciiLower (λ k, 1700000000000 + N.of_nat k)
          (λ _, u "0.4fzyo82mvyr")
          (tsv [ [u "Date"; u "Description"]; [u "01/04/2024"; u "Rent"];
                 [u ""; u "skipped"]; [u "02/04/2024"; u "Fee"] ]) = Return ts
        ∧ ∀ k t, ts !! k = Some t →
            id t = u "txn_" ++ decimal (1700000000000 + N.of_nat k) ++ u "_"
                   ++ take 9 (drop 2 (u "0.4fzyo82mvyr")).
Proof.
  eexists. split; [vm_compute; reflexivity|].
  apply (proj1 (parseTSV_ids asciiLower (λ k, 1700000000000 + N.of_nat k)
                  (λ _, u "0.4fzyo82mvyr")
                  (tsv [ [u "Date"; u "Description"]; [u "01/04/2024"; u "Rent"];
                         [u ""; u "skipped"]; [u "02/04/2024"; u "Fee"] ])
                  _ ltac:(vm_compute; reflexivity))).
Defined.

Lemma parseTSV_by_line_witness :
  ∃ ts headerIndex headers,
    parseTSV asciiLower (λ _, 0) (λ _, [])
      (tsv [ [u "Date"; u "Description"]; [u "01/04/2024"; u "Rent"] ])
    = Return ts
    ∧ findHeaderRow asciiLower
        (lines_of (tsv [ [u "Date"; u "Description"];
                         [u "01/04/2024"; u "Rent"] ]))
      = Some (headerIndex, headers)
    ∧ map anonymous ts
      = omap (λ line, anonymous <$> row asciiLower (λ _, 0) (λ _, []) headers line)
          (drop (Z.to_nat (headerIndex + 1))
             (lines_of (tsv [ [u "Date"; u "Description"];
                              [u "01/04/2024"; u "Rent"] ]))).
Proof.
  eexists.
  destruct (parseTSV_by_line asciiLower (λ _, 0) (λ _, [])
              (tsv [ [u "Date"; u "Description"]; [u "01/04/2024"; u "Rent"] ])
              _ ltac:(vm_compute; reflexivity)) as (i & h & Hf & Hm).
  exists i, h. split; [reflexivity|]. split; [exact Hf | exact Hm].
Defined.

Lemma parseTSV_transaction_witness :
  ∃ t, parseTSV asciiLower (λ _, 0) (λ _, [])
         (tsv [ [u "Date"; u "Description"; u "Credit"];
                [u "01/04/2024"; u "Salary"; u "1,000.00"] ]) = Return [t]
       ∧ type t = u "credit" ∧ amount t = credit t
       ∧ ∀ r, date t = Some r → iso_shaped r.
Proof.
  eexists. split; [vm_compute; reflexivity|].
  match goal with
  | |- type ?t = _ ∧ _ =>
      destruct (parseTSV_transaction asciiLower (λ _, 0) (λ _, [])
                  (tsv [ [u "Date"; u "Description"; u "Credit"];
                         [u "01/04/2024"; u "Salary"; u "1,000.00"] ])
                  [t] t ltac:(vm_compute; reflexivity)
                  ltac:(apply list_elem_of_here))
        as (Hty & _ & _ & _ & _ & _ & _ & _ & Hd & _)
  end.
  split; [vm_compute; reflexivity|]. split; [vm_compute; reflexivity|].
  exact Hd.
Defined.

Lemma parseTSV_header_found_witness :
  parseTSV asciiLower (λ _, 0) (λ _, [])
    (tsv [ [u "Account Statement"]; [u "Date"; u "Details"; u "Debit"];
           [u "01/04/2024"; u "Rent"; u "500"] ])
  = Return (rows asciiLower (λ _, 0) (λ _, [])
              [u "Date"; u "Details"; u "Debit"]
              [join TAB [u "01/04/2024"; u "Rent"; u "500"]] [] 0).
Proof.
  apply (proj1 (parseTSV_header_found asciiLower (λ _, 0) (λ _, [])
                  (tsv [ [u "Account Statement"];
                         [u "Date"; u "Details"; u "Debit"];
                         [u "01/04/2024"; u "Rent"; u "500"] ]))
           [u "Account Statement"] (join TAB [u "Date"; u "Details"; u "Debit"])
           [join TAB [u "01/04/2024"; u "Rent"; u "500"]]);
    [reflexivity | simpl; lia | simpl; lia | repeat constructor | reflexivity].
Defined.

Lemma parseTSV_no_key_witness :
  is_header asciiLower (join TAB [u "Validated"; u "Details"; u "Debit"]) = true
  ∧ parseTSV asciiLower (λ _, 0) (λ _, [])
      (tsv [ [u "Validated"; u "Details"; u "Debit"];
             [u "01/04/2024"; u "Rent"; u "500"] ]) = Return [].
Proof.
  split; [reflexivity|].
  apply (parseTSV_no_key asciiLower (λ _, 0) (λ _, [])
           (tsv [ [u "Validated"; u "Details"; u "Debit"];
                  [u "01/04/2024"; u "Rent"; u "500"] ])
           0%Z [u "Validated"; u "Details"; u "Debit"]);
    [reflexivity | left; reflexivity | | simpl; lia].
  match goal with |- ?P => apply (@bool_decide_unpack P _) end.
  vm_compute. exact I.
Defined.

(** ** Two invocations *)

Section TwoHosts.

Variable toLowerCase : str → str.
Variables Date_now Date_now' : nat → N.
Variables Math_random36 Math_random36' : nat → str.

Lemma normalizeTransaction_anonymous raw headers k k' :
  anonymous <$> normalizeTransaction toLowerCase Date_now Math_random36 raw headers k
  = anonymous <$> normalizeTransaction toLowerCase Date_now' Math_random36' raw headers k'.
Proof.
  unfold normalizeTransaction.
  destruct (default [] (prop raw (dateKey toLowerCase headers))); [reflexivity|].
  destruct (default [] (prop raw (descKey toLowerCase headers))); reflexivity.
Qed.

Lemma rows_anonymous headers lines : ∀ ts ts' k k',
  map anonymous ts = map anonymous ts' →
  map anonymous (rows toLowerCase Date_now Math_random36 headers lines ts k)
  = map anonymous (rows toLowerCase Date_now' Math_random36' headers lines ts' k').
Proof.
  induction lines as [|line lines IH]; intros ts ts' k k' Hts; simpl.
  - exact Hts.
  - destruct (forallb is_empty _); [now apply IH|].
    pose proof (normalizeTransaction_anonymous
                  (fill headers 0
                     (pad headers (map trim (parseTabSeparatedLine line))) ∅)
                  headers k k') as Hn.
    destruct (normalizeTransaction toLowerCase Date_now _ _ _ _) as [t|];
      destruct (normalizeTransaction toLowerCase Date_now' _ _ _ _) as [t'|];
      try discriminate; [|now apply IH].
    apply IH. rewrite !map_app, Hts. simpl. f_equal.
    apply (inj Some) in Hn. now rewrite Hn.
Qed.

Lemma generateId_ext k :
  Date_now k = Date_now' k →
  substr 2 9 (Math_random36 k) = substr 2 9 (Math_random36' k) →
  generateId Date_now Math_random36 k = generateId Date_now' Math_random36' k.
Proof. unfold generateId. now intros -> ->. Qed.

Lemma rows_ext headers lines : ∀ ts k,
  (∀ k, Date_now k = Date_now' k) →
  (∀ k, substr 2 9 (Math_random36 k) = substr 2 9 (Math_random36' k)) →
  rows toLowerCase Date_now Math_random36 headers lines ts k
  = rows toLowerCase Date_now' Math_random36' headers lines ts k.
Proof.
  intros ts k Hnow Hrnd. revert ts k.
  induction lines as [|line lines IH]; intros ts k; simpl; [reflexivity|].
  destruct (forallb is_empty _); [apply IH|].
  unfold normalizeTransaction. rewrite (generateId_ext k (Hnow k) (Hrnd k)).
  destruct (default [] (prop _ (dateKey toLowerCase headers))); [apply IH|].
  destruct (default [] (prop _ (descKey toLowerCase headers))); apply IH.
Qed.

(** C7, amended. Two invocations of [parseTSV] on the same text end the
    same way and return sequences that are equal in every field but the
    generated id; they return equal sequences when they read the same
    clock values and the same random strings. *)
Theorem parseTSV_same_but_ids content :
  same_but_ids (parseTSV toLowerCase Date_now Math_random36 content)
               (parseTSV toLowerCase Date_now' Math_random36' content)
  ∧ ((∀ k, Date_now k = Date_now' k) →
     (∀ k, substr 2 9 (Math_random36 k) = substr 2 9 (Math_random36' k)) →
     parseTSV toLowerCase Date_now Math_random36 content
     = parseTSV toLowerCase Date_now' Math_random36' content).
Proof.
  unfold parseTSV. destruct (_ <? _)%nat; [now split|].
  destruct (findHeaderRow toLowerCase _) as [[i h]|]; [|now split].
  destruct (i =? -1)%Z; [now split|]. split.
  - simpl. now apply rows_anonymous.
  - intros Hnow Hrnd. f_equal. now apply rows_ext.
Qed.

End TwoHosts.

Lemma parseTSV_same_but_ids_witness :
  parseTSV asciiLower (λ _, 1700000000000) (λ _, u "0.4fzyo82mvyr")
    (tsv [ [u "Date"; u "Description"]; [u "01/04/2024"; u "Rent"] ])
  = parseTSV asciiLower (λ k, 1700000000000 + 0 * N.of_nat k)
      (λ _, u "0.4fzyo82mvyrq9")
      (tsv [ [u "Date"; u "Description"]; [u "01/04/2024"; u "Rent"] ]).
Proof.
  apply parseTSV_same_but_ids; intros k; [lia | reflexivity].
Defined.

(** C7 as stated fails: the ids are made of the clock and of a random
    string, and two invocations read different ones. *)
Lemma parseTSV_ids_differ :
  parseTSV asciiLower (λ _, 1700000000000) (λ _, u "0.4fzyo82mvyr")
    (tsv [ [u "Date"; u "Description"]; [u "01/04/2024"; u "Rent"] ])
  ≠ parseTSV asciiLower (λ _, 1700000000001) (λ _, u "0.x1k9c3p0aq7")
      (tsv [ [u "Date"; u "Description"]; [u "01/04/2024"; u "Rent"] ]).
Proof.
  intros H.
  apply (f_equal (λ o, match o with
                       | Return [t] => id t
                       | _ => []
                       end)) in H.
  vm_compute in H. discriminate.
Qed.

(** ** The two documented formats *)

Section Formats.

Variable toLowerCase : str → str.
Variable Date_now : nat → N.
Variable Math_random36 : nat → str.

(** On Basic Latin the host's case conversion is the ASCII one. *)
Hypothesis toLowerCase_ascii :
  ∀ s, is_ascii s = true → toLowerCase s = asciiLower s.

Lemma existsb_ext_in {A} (p q : A → bool) l :
  (∀ x, x ∈ l → p x = q x) → existsb p l = existsb q l.
Proof.
  induction l as [|a l IH]; intros H; simpl; [reflexivity|].
  rewrite (H a) by now left. rewrite IH; [reflexivity|].
  intros x Hx. apply H. now right.
Qed.

Lemma find_ext_in {A} (p q : A → bool) l :
  (∀ x, x ∈ l → p x = q x) → find p l = find q l.
Proof.
  induction l as [|a l IH]; intros H; simpl; [reflexivity|].
  rewrite (H a) by now left. rewrite IH; [reflexivity|].
  intros x Hx. apply H. now right.
Qed.

Lemma findKey_ascii headers possibleNames :
  forallb is_ascii headers = true → forallb is_ascii possibleNames = true →
  findKey toLowerCase headers possibleNames
  = findKey asciiLower headers possibleNames.
Proof.
  intros Hh Hn. rewrite forallb_forall in Hh, Hn.
  assert (Hh' : ∀ h, h ∈ headers → toLowerCase h = asciiLower h)
    by (intros h Hin%list_elem_of_In; auto).
  assert (Hn' : ∀ n, n ∈ possibleNames → toLowerCase n = asciiLower n)
    by (intros h Hin%list_elem_of_In; auto).
  unfold findKey.
  rewrite (find_ext_in _
             (λ header, existsb (λ name, str_eqb (trim (asciiLower header))
                                           (asciiLower name)) possibleNames)).
  2:{ intros h Hin. apply existsb_ext_in. intros n Hn2.
      now rewrite (Hh' h Hin), (Hn' n Hn2). }
  rewrite (find_ext_in
             (λ header, existsb (λ name, word_test (toLowerCase name) true
                                           (trim (toLowerCase header)))
                          possibleNames)
             (λ header, existsb (λ name, word_test (asciiLower name) true
                                           (trim (asciiLower header)))
                          possibleNames)).
  2:{ intros h Hin. apply existsb_ext_in. intros n Hn2.
      now rewrite (Hh' h Hin), (Hn' n Hn2). }
  reflexivity.
Qed.

Ltac resolve_key :=
  rewrite findKey_ascii by (vm_compute; reflexivity); vm_compute; reflexivity.

Lemma standard_keys :
  dateKey toLowerCase standard_headers = Some (u "Txn Date")
  ∧ valueDateKey toLowerCase standard_headers = Some (u "Value Date")
  ∧ descKey toLowerCase standard_headers = Some (u "Description")
  ∧ refKey toLowerCase standard_headers = Some (u "Ref No./Cheque No.")
  ∧ debitKey toLowerCase standard_headers = Some (u "Debit")
  ∧ creditKey toLowerCase standard_headers = Some (u "Credit")
  ∧ balanceKey toLowerCase standard_headers = Some (u "Balance").
Proof.
  unfold dateKey, valueDateKey, descKey, refKey, debitKey, creditKey,
    balanceKey.
  repeat split; resolve_key.
Qed.

Lemma extended_keys :
  dateKey toLowerCase extended_headers = Some (u "Date")
  ∧ valueDateKey toLowerCase extended_headers = None
  ∧ descKey toLowerCase extended_headers = Some (u "Details")
  ∧ refKey toLowerCase extended_headers = Some (u "Ref No/Cheque No")
  ∧ debitKey toLowerCase extended_headers = Some (u "Debit")
  ∧ creditKey toLowerCase extended_headers = Some (u "Credit")
  ∧ balanceKey toLowerCase extended_headers = Some (u "Balance").
Proof.
  unfold dateKey, valueDateKey, descKey, refKey, debitKey, creditKey,
    balanceKey.
  repeat split; resolve_key.
Qed.

Lemma standard_headers_NoDup : NoDup standard_headers.
Proof.
  match goal with |- ?P => apply (@bool_decide_unpack P _) end.
  vm_compute. exact I.
Qed.

Lemma extended_headers_NoDup : NoDup extended_headers.
Proof.
  match goal with |- ?P => apply (@bool_decide_unpack P _) end.
  vm_compute. exact I.
Qed.

Lemma normalizeTransaction_standard d v desc ref deb cre bal calls :
  d ≠ [] → desc ≠ [] →
  normalizeTransaction toLowerCase Date_now Math_random36
    (fill standard_headers 0 [d; v; desc; ref; deb; cre; bal] ∅)
    standard_headers calls
  = Some {| id := generateId Date_now Math_random36 calls;
            date := parseDate d;
            valueDate := parseDate v;
            description := cleanDescription desc;
            reference := ref;
            debit := parseAmount (Some deb);
            credit := parseAmount (Some cre);
            balance := parseAmount (Some bal);
            amount := if positive_number (parseAmount (Some cre))
                      then parseAmount (Some cre)
                      else SFopp (parseAmount (Some deb));
            type := if positive_number (parseAmount (Some cre))
                    then u "credit" else u "debit";
            category := None; subcategory := None; notes := [] |}.
Proof.
  intros Hd Hdesc. unfold normalizeTransaction.
  destruct standard_keys as (-> & -> & -> & -> & -> & -> & ->).
  unfold prop. cbn [default].
  rewrite (fill_lookup_nodup standard_headers _ 0 (u "Txn Date")
             standard_headers_NoDup eq_refl).
  rewrite (fill_lookup_nodup standard_headers _ 1 (u "Value Date")
             standard_headers_NoDup eq_refl).
  rewrite (fill_lookup_nodup standard_headers _ 2 (u "Description")
             standard_headers_NoDup eq_refl).
  rewrite (fill_lookup_nodup standard_headers _ 3 (u "Ref No./Cheque No.")
             standard_headers_NoDup eq_refl).
  rewrite (fill_lookup_nodup standard_headers _ 4 (u "Debit")
             standard_headers_NoDup eq_refl).
  rewrite (fill_lookup_nodup standard_headers _ 5 (u "Credit")
             standard_headers_NoDup eq_refl).
  rewrite (fill_lookup_nodup standard_headers _ 6 (u "Balance")
             standard_headers_NoDup eq_refl).
  cbn [lookup list_lookup default].
  destruct d as [|d0 d]; [congruence|].
  destruct desc as [|e0 desc]; [congruence|].
  now destruct v.
Qed.

Lemma normalizeTransaction_extended d desc ref deb cre bal calls :
  d ≠ [] → desc ≠ [] →
  normalizeTransaction toLowerCase Date_now Math_random36
    (fill extended_headers 0 [d; desc; ref; deb; cre; bal] ∅)
    extended_headers calls
  = Some {| id := generateId Date_now Math_random36 calls;
            date := parseDate d;
            valueDate := None;
            description := cleanDescription desc;
            reference := ref;
            debit := parseAmount (Some deb);
            credit := parseAmount (Some cre);
            balance := parseAmount (Some bal);
            amount := if positive_number (parseAmount (Some cre))
                      then parseAmount (Some cre)
                      else SFopp (parseAmount (Some deb));
            type := if positive_number (parseAmount (Some cre))
                    then u "credit" else u "debit";
            category := None; subcategory := None; notes := [] |}.
Proof.
  intros Hd Hdesc. unfold normalizeTransaction.
  destruct extended_keys as (-> & -> & -> & -> & -> & -> & ->).
  unfold prop. cbn [default].
  rewrite (fill_lookup_notin extended_headers 0 _ ∅ (u "null"))
    by (match goal with |- ?P => apply (@bool_decide_unpack P _) end;
        vm_compute; exact I).
  rewrite lookup_empty.
  rewrite (fill_lookup_nodup extended_headers _ 0 (u "Date")
             extended_headers_NoDup eq_refl).
  rewrite (fill_lookup_nodup extended_headers _ 1 (u "Details")
             extended_headers_NoDup eq_refl).
  rewrite (fill_lookup_nodup extended_headers _ 2 (u "Ref No/Cheque No")
             extended_headers_NoDup eq_refl).
  rewrite (fill_lookup_nodup extended_headers _ 3 (u "Debit")
             extended_headers_NoDup eq_refl).
  rewrite (fill_lookup_nodup extended_headers _ 4 (u "Credit")
             extended_headers_NoDup eq_refl).
  rewrite (fill_lookup_nodup extended_headers _ 5 (u "Balance")
             extended_headers_NoDup eq_refl).
  cbn [lookup list_lookup default].
  destruct d as [|d0 d]; [congruence|].
  destruct desc as [|e0 desc]; [congruence|].
  reflexivity.
Qed.

Lemma documented_headers :
  is_header toLowerCase (join TAB standard_headers) = true
  ∧ headers_of (join TAB standard_headers) = standard_headers
  ∧ is_header toLowerCase (join TAB extended_headers) = true
  ∧ headers_of (join TAB extended_headers) = extended_headers.
Proof.
  assert (Hs : parseTabSeparatedLine (join TAB standard_headers)
               = standard_headers) by (vm_compute; reflexivity).
  assert (He : parseTabSeparatedLine (join TAB extended_headers)
               = extended_headers) by (vm_compute; reflexivity).
  unfold is_header, lowered_columns, headers_of. rewrite Hs, He.
  unfold standard_headers, extended_headers. cbn [map].
  rewrite !toLowerCase_ascii by (vm_compute; reflexivity).
  repeat split; vm_compute; reflexivity.
Qed.

Lemma rows_step headers line rest transactions calls values t :
  parseTabSeparatedLine line = values →
  forallb is_empty values = false →
  normalizeTransaction toLowerCase Date_now Math_random36
    (fill headers 0 values ∅) headers calls = Some t →
  rows toLowerCase Date_now Math_random36 headers (line :: rest)
    transactions calls
  = rows toLowerCase Date_now Math_random36 headers rest
      (transactions ++ [t]) (S calls).
Proof.
  intros Hv Hne Ht. cbn [rows]. rewrite tsl_loop_retrim, Hv, Hne.
  now rewrite fill_pad, Ht.
Qed.

(** X20. The header rows of the two documented formats, the standard
    row Txn Date, Value Date, Description, Ref No./Cheque No., Debit,
    Credit, Balance and the extended row Date, Details, Ref No/Cheque No,
    Debit, Credit, Balance, qualify as header rows; under either a data
    line with a date and a description gives one transaction, each cell
    in the field it is meant for, the extended row leaving the value date
    absent. *)
Theorem documented_formats line rest transactions calls :
  (is_header toLowerCase (join TAB standard_headers) = true
   ∧ headers_of (join TAB standard_headers) = standard_headers
   ∧ is_header toLowerCase (join TAB extended_headers) = true
   ∧ headers_of (join TAB extended_headers) = extended_headers)
  ∧ (∀ d v desc ref deb cre bal,
     parseTabSeparatedLine line = [d; v; desc; ref; deb; cre; bal] →
     d ≠ [] → desc ≠ [] →
     rows toLowerCase Date_now Math_random36 standard_headers (line :: rest)
       transactions calls
     = rows toLowerCase Date_now Math_random36 standard_headers rest
         (transactions ++
          [ {| id := generateId Date_now Math_random36 calls;
               date := parseDate d;
               valueDate := parseDate v;
               description := cleanDescription desc;
               reference := ref;
               debit := parseAmount (Some deb);
               credit := parseAmount (Some cre);
               balance := parseAmount (Some bal);
               amount := if positive_number (parseAmount (Some cre))
                         then parseAmount (Some cre)
                         else SFopp (parseAmount (Some deb));
               type := if positive_number (parseAmount (Some cre))
                       then u "credit" else u "debit";
               category := None; subcategory := None; notes := [] |} ])
         (S calls))
  ∧ (∀ d desc ref deb cre bal,
       parseTabSeparatedLine line = [d; desc; ref; deb; cre; bal] →
       d ≠ [] → desc ≠ [] →
       rows toLowerCase Date_now Math_random36 extended_headers (line :: rest)
         transactions calls
       = rows toLowerCase Date_now Math_random36 extended_headers rest
           (transactions ++
            [ {| id := generateId Date_now Math_random36 calls;
                 date := parseDate d;
                 valueDate := None;
                 description := cleanDescription desc;
                 reference := ref;
                 debit := parseAmount (Some deb);
                 credit := parseAmount (Some cre);
                 balance := parseAmount (Some bal);
                 amount := if positive_number (parseAmount (Some cre))
                           then parseAmount (Some cre)
                           else SFopp (parseAmount (Some deb));
                 type := if positive_number (parseAmount (Some cre))
                         then u "credit" else u "debit";
                 category := None; subcategory := None; notes := [] |} ])
           (S calls)).
Proof.
  split; [exact documented_headers|]. split.
  - intros d v desc ref deb cre bal Hline Hd Hdesc.
    apply (rows_step _ _ _ _ _ _ _ Hline).
    + destruct d; [congruence | reflexivity].
    + now apply normalizeTransaction_standard.
  - intros d desc ref deb cre bal Hline Hd Hdesc.
    apply (rows_step _ _ _ _ _ _ _ Hline).
    + destruct d; [congruence | reflexivity].
    + now apply normalizeTransaction_extended.
Qed.

End Formats.

Lemma documented_formats_witness :
  ∃ t, rows asciiLower (λ _, 0) (λ _, []) standard_headers
         [u "01/04/2024" ++ TAB :: u "02/04/2024" ++ TAB :: u "Rent" ++ TAB
            :: u "" ++ TAB :: u "1,500.00" ++ TAB :: u "" ++ TAB :: u "10,000.00"]
         [] 0 = [t]
       ∧ date t = Some (u "2024-04-01") ∧ valueDate t = Some (u "2024-04-02")
       ∧ type t = u "debit".
Proof.
  eexists. split.
  - refine (proj1 (proj2 (documented_formats asciiLower (λ _, 0) (λ _, [])
                            (λ s _, eq_refl) _ [] [] 0)) _ _ _ _ _ _ _ _ _ _);
      [vm_compute; reflexivity | discriminate | discriminate].
  - repeat split; vm_compute; reflexivity.
Defined.

(** ** Number literals *)

Module Literals.
Import PrimFloat.

(** [number_of_decimal] and [parseFloat] give the binary64 values of the
    literals. *)
#[warnings="-inexact-float"] Lemma number_of_decimal_literals :
  number_of_decimal false 28329535 (-2) = FloatOps.Prim2SF 283295.35%float
  ∧ number_of_decimal false 113119 (-2) = FloatOps.Prim2SF 1131.19%float
  ∧ number_of_decimal true 500 0 = FloatOps.Prim2SF (-500)%float
  ∧ parseFloat (u "0.1") = FloatOps.Prim2SF 0.1%float
  ∧ parseFloat (u "9007199254740993") = FloatOps.Prim2SF 9007199254740992%float
  ∧ parseFloat (u "1.7976931348623157e308")
    = FloatOps.Prim2SF 1.7976931348623157e308%float
  ∧ parseFloat (u "5e-324") = FloatOps.Prim2SF 5e-324%float
  ∧ parseFloat (u "2.4e-324") = FloatOps.Prim2SF 0%float
  ∧ parseFloat (u "1e400") = FloatOps.Prim2SF infinity.
Proof. repeat split; vm_compute; reflexivity. Qed.

End Literals.
